(** * ComfyWUI front end: generation-job tracking, reconciliation and selection

    A shallow embedding of the React hooks and components that track
    generation jobs ([useWebSocketManager], [useLocalStorageSync],
    [useLocalGeneration], [useGoogleAIGeneration], [useImageSelection],
    the [ImageGrid] component and the callbacks wired together in
    [AppContent]), with the properties the specification states about them.

    Conventions.
    - JavaScript numbers that the code uses as array indices or as
      millisecond timestamps are integers and are modelled in [Z].
    - A [Set<string>] is a [gset string], a [Map<string, WebSocket>] is a
      [gmap string nat] from job ids to socket handles, arrays are lists.
    - An exception raised by the code is an explicit result constructor.
    - An [async] function is cut at its [await]s: every synchronous segment
      is a function on the component state, and the awaited response is an
      argument of the continuation.
    - What the code reads from its surroundings is an argument or an
      instance: [JSON.parse], [String.prototype.trim], the translations of
      the language in use, and [Object.is] on the values of a state cell. *)

From Stdlib Require Import ZArith Lia Sorted.
From stdpp Require Import gmap strings pretty list fin_maps sets.

#[local] Set Warnings "-clear-no-such-hyp".

Local Open Scope string_scope.
Local Open Scope Z_scope.

(** ** JavaScript arrays *)

(** [Array.prototype.findIndex]: the index of the first element that
    satisfies the predicate, [-1] when there is none. *)
Fixpoint findIndex_from {A} (p : A → bool) (l : list A) (i : Z) : Z :=
  match l with
  | [] => -1
  | x :: r => if p x then i else findIndex_from p r (i + 1)
  end.

Definition findIndex {A} (p : A → bool) (l : list A) : Z :=
  findIndex_from p l 0.

(** [arr[i]] for a number [i]: [None] stands for [undefined], which is what
    a read below [0] or at or beyond [arr.length] yields. *)
Definition array_get {A} (l : list A) (i : Z) : option A :=
  if i <? 0 then None else l !! Z.to_nat i.

(** [Array.prototype.find]. *)
Fixpoint find {A} (p : A → bool) (l : list A) : option A :=
  match l with
  | [] => None
  | x :: r => if p x then Some x else find p r
  end.

(** [Array.prototype.some]. *)
Definition some {A} (p : A → bool) (l : list A) : bool := existsb p l.

(** [Array.prototype.filter] with a boolean callback. *)
Definition array_filter {A} (p : A → bool) (l : list A) : list A :=
  List.filter p l.

(** ** JavaScript values read from JSON text *)

Module Js.

(** The values [JSON.parse] produces, and [undefined], which a missing
    property reads as.  A number is kept as the decimal literal it was read
    from, [m * 10 ^ e]; the code modelled here only tests such numbers for
    truthiness and passes them on. *)
#[local] Unset Elimination Schemes.
Inductive value :=
| Undefined
| Null
| Bool (b : bool)
| Num (m e : Z)
| Str (s : string)
| Arr (items : list value)
| Obj (fields : list (string * value)).
#[local] Set Elimination Schemes.

(** Lookup of an own property in the field list of an object. *)
Fixpoint assoc (name : string) (fields : list (string * value)) : value :=
  match fields with
  | [] => Undefined
  | (k, v) :: r => if bool_decide (k = name) then v else assoc name r
  end.

(** [v.name]: reading a property of [undefined] or [null] raises a
    [TypeError] ([None]); an object yields the field or [undefined]; the
    names read by the code ([type], [data], [status], [error]) are no
    properties of a boolean, a number, a string or an array. *)
Definition get (v : value) (name : string) : option value :=
  match v with
  | Undefined | Null => None
  | Obj fields => Some (assoc name fields)
  | _ => Some Undefined
  end.

(** [v?.name]. *)
Definition get_opt (v : value) (name : string) : value :=
  match get v name with
  | Some x => x
  | None => Undefined
  end.

(** Truthiness, as [if (v)], [v && ...] and [v || ...] test it. *)
Definition truthy (v : value) : bool :=
  match v with
  | Undefined | Null => false
  | Bool b => b
  | Num m _ => negb (m =? 0)
  | Str s => negb (bool_decide (s = ""))
  | Arr _ | Obj _ => true
  end.

(** [a || b]. *)
Definition or_else (a b : value) : value := if truthy a then a else b.

(** [v === 'literal']. *)
Definition is_str (v : value) (lit : string) : bool :=
  match v with
  | Str s => bool_decide (s = lit)
  | _ => false
  end.

(** [v !== '' && v !== null && v !== undefined]. *)
Definition non_empty (v : value) : bool :=
  match v with
  | Str s => negb (bool_decide (s = ""))
  | Null | Undefined => false
  | _ => true
  end.

(** The one-character strings of a string, as [Object.entries] lists them. *)
Fixpoint chars (s : string) : list value :=
  match s with
  | EmptyString => []
  | String c r => Str (String c EmptyString) :: chars r
  end.

Definition indexed (items : list value) : list (string * value) :=
  imap (λ i v, (pretty i, v)) items.

(** The array index that a property name spells, below [n]. *)
Definition index_named (name : string) (n : nat) : option nat :=
  List.find (λ i, bool_decide (pretty i = name)) (seq 0 n).

Definition item_named (name : string) (items : list value) : value :=
  match index_named name (length items) with
  | Some i => default Undefined (items !! i)
  | None =>
      if bool_decide (name = "length") then Num (Z.of_nat (length items)) 0
      else Undefined
  end.

(** [v[name]] for a computed name: as [get], and an array or a string also
    has its indices and its [length].  (Inherited members are functions,
    which the one caller treats like [undefined]: no entries, no overrides.) *)
Definition get_computed (v : value) (name : string) : option value :=
  match v with
  | Undefined | Null => None
  | Obj fields => Some (assoc name fields)
  | Arr items => Some (item_named name items)
  | Str s => Some (item_named name (chars s))
  | _ => Some Undefined
  end.

(** [Object.entries(v)] for a value that is neither [null] nor
    [undefined]: the fields of an object, the indexed items of an array
    or of a string, nothing for a boolean or a number. *)
Definition entries (v : value) : list (string * value) :=
  match v with
  | Obj fields => fields
  | Arr items => indexed items
  | Str s => indexed (chars s)
  | _ => []
  end.

(** Two decimal literals denote the same number. *)
Definition same_number (m e m' e' : Z) : bool :=
  let k := Z.min e e' in
  bool_decide (m * 10 ^ (e - k) = m' * 10 ^ (e' - k)).

(** [Object.is(a, b)] on such values: primitives of one type with the same
    content.  An array or an object is the same as itself only, and the
    values at hand come from [JSON.parse] or from a literal, which build
    theirs anew. *)
Definition Object_is (a b : value) : bool :=
  match a, b with
  | Undefined, Undefined | Null, Null => true
  | Bool x, Bool y => bool_decide (x = y)
  | Num m e, Num m' e' => same_number m e m' e'
  | Str s, Str s' => bool_decide (s = s')
  | _, _ => false
  end.

End Js.

(** ** State cells and [Object.is] *)

(** [Object.is(next, held)] on the values a state cell of type [T] holds.
    React compares the state that an update computes with the state held,
    and when they are the same it renders nothing and runs no effect. *)
Class ObjectIs (T : Type) := Object_is : T → T → bool.

(** A cell whose every update builds its value anew (an array made by
    [map], [filter], a spread or a literal): no update yields the object
    that is held. *)
Definition built_anew {T : Type} : ObjectIs T := λ _ _, false.

#[global] Instance value_Object_is : ObjectIs Js.value := Js.Object_is.

(** ** Artifact records ([types/image.ts]) *)

Module ImageMetadata.

(** [created_at] is kept as the value of [new Date(created_at).getTime()],
    the only way the code reads it. *)
Record t := Build {
  id : string;
  workflow_name : string;
  prompt : string;
  prompt_id : string;
  created_at : Z
}.

End ImageMetadata.

(** ** Selection model ([useImageSelection]) *)

Module ImageSelection.

Record state := State {
  selectedIds : gset string;
  lastClickedIndex : option Z
}.

(** A call either updates the state or raises a [TypeError] because
    [images[index]] is [undefined] and its [id] is read. *)
Inductive outcome :=
| Updated (s : state)
| TypeError (index : Z).

(** The loop [for (let i = start; i <= end; i++) newSet.add(images[i].id)],
    with [n] the number of iterations left. *)
Fixpoint add_range (images : list ImageMetadata.t) (i : Z) (n : nat)
    (newSet : gset string) : Z + gset string :=
  match n with
  | O => inr newSet
  | S n' =>
      match array_get images i with
      | None => inl i
      | Some img => add_range images (i + 1) n' ({[ImageMetadata.id img]} ∪ newSet)
      end
  end.

Definition toggleSelection (images : list ImageMetadata.t)
    (imageId : string) (shiftKey : bool) (st : state) : outcome :=
  let clickedIndex :=
    findIndex (λ img, bool_decide (ImageMetadata.id img = imageId)) images in
  if shiftKey then
    match lastClickedIndex st with
    | Some prevLastIndex =>
        let start := Z.min prevLastIndex clickedIndex in
        let end_ := Z.max prevLastIndex clickedIndex in
        match add_range images start (Z.to_nat (end_ - start + 1)) (selectedIds st) with
        | inr newSet => Updated (State newSet (Some clickedIndex))
        | inl i => TypeError i
        end
    | None => Updated (State (selectedIds st) (Some clickedIndex))
    end
  else
    let newSet :=
      if bool_decide (imageId ∈ selectedIds st)
      then selectedIds st ∖ {[imageId]}
      else {[imageId]} ∪ selectedIds st in
    Updated (State newSet (Some clickedIndex)).

Definition selectAll (images : list ImageMetadata.t) (st : state) : state :=
  State (list_to_set (ImageMetadata.id <$> images)) (lastClickedIndex st).

Definition clearSelection (st : state) : state := State ∅ None.

(** Two calls in a row; the second is not made when the first raised. *)
Definition then_toggle (images : list ImageMetadata.t)
    (imageId : string) (shiftKey : bool) (o : outcome) : outcome :=
  match o with
  | Updated s => toggleSelection images imageId shiftKey s
  | TypeError i => TypeError i
  end.

(** A plain click on [a] followed by a shift-click on [b]. *)
Definition click_then_shift_click (images : list ImageMetadata.t)
    (a b : string) (st : state) : outcome :=
  then_toggle images b true (toggleSelection images a false st).

(** The ids of the items at positions [lo], ..., [hi] of the list. *)
Definition ids_between (images : list ImageMetadata.t) (lo hi : nat) : gset string :=
  list_to_set (ImageMetadata.id <$> take (S hi - lo) (drop lo images)).

End ImageSelection.

(** ** Progress channel manager ([useWebSocketManager]) *)

Module WebSocketManager.

Inductive readyState := CONNECTING | OPEN | CLOSING | CLOSED.

Definition is_OPEN (s : readyState) : bool :=
  match s with OPEN => true | _ => false end.

(** A socket object together with what the handlers installed by
    [connect] captured in their closure. *)
Record WebSocket := Socket {
  promptId : string;
  workflowId : string;
  prompt : string;
  overrideParams : Js.value;
  state : readyState
}.

(** The callbacks handed to the hook, recorded as they are invoked. *)
Inductive callback :=
| onProgress (promptId : string) (data : Js.value)
| onComplete (promptId : string) (data : Js.value)
| onError (promptId : string) (error : Js.value).

Inductive outbound :=
| auth
| monitor (prompt_id workflow_id prompt : string) (override_params : Js.value).

(** The hook's state: the socket objects created so far (a handle is the
    position in [sockets]), the map [wsMapRef.current], and what the
    handlers did: callbacks invoked, frames sent, [console.error] lines. *)
Record manager := Manager {
  sockets : list WebSocket;
  wsMap : gmap string nat;
  calls : list callback;
  sent : list (nat * outbound);
  console_error : list string
}.

Definition empty : manager := Manager [] ∅ [] [] [].

Definition with_state (s : readyState) (ws : WebSocket) : WebSocket :=
  Socket (promptId ws) (workflowId ws) (prompt ws) (overrideParams ws) s.

Definition set_state (h : nat) (s : readyState) (m : manager) : manager :=
  Manager (alter (with_state s) h (sockets m))
          (wsMap m) (calls m) (sent m) (console_error m).

Definition readyState_of (m : manager) (h : nat) : option readyState :=
  state <$> sockets m !! h.

(** [ws.close()]: starts the closing handshake of a socket that is
    connecting or open; the [close] event is dispatched later, as a task
    of its own. *)
Definition ws_close (h : nat) (m : manager) : manager :=
  match readyState_of m h with
  | Some CONNECTING | Some OPEN => set_state h CLOSING m
  | _ => m
  end.

Definition connect (promptId workflowId prompt : string)
    (overrideParams : Js.value) (m : manager) : manager :=
  let m1 :=
    match wsMap m !! promptId with
    | Some existingWs =>
        match readyState_of m existingWs with
        | Some OPEN => ws_close existingWs m
        | _ => m
        end
    | None => m
    end in
  let ws := length (sockets m1) in
  Manager (sockets m1 ++ [Socket promptId workflowId prompt overrideParams CONNECTING])
          (<[promptId := ws]> (wsMap m1)) (calls m1) (sent m1) (console_error m1).

Definition disconnect (promptId : string) (m : manager) : manager :=
  match wsMap m !! promptId with
  | Some ws =>
      let m1 := ws_close ws m in
      Manager (sockets m1) (delete promptId (wsMap m1)) (calls m1) (sent m1)
              (console_error m1)
  | None => m
  end.

Definition disconnectAll (m : manager) : manager :=
  let m1 := foldr (λ kv acc, ws_close kv.2 acc) m (map_to_list (wsMap m)) in
  Manager (sockets m1) ∅ (calls m1) (sent m1) (console_error m1).

Definition add_calls (cs : list callback) (m : manager) : manager :=
  Manager (sockets m) (wsMap m) (calls m ++ cs) (sent m) (console_error m).

Definition log_errors (lines : list string) (m : manager) : manager :=
  Manager (sockets m) (wsMap m) (calls m) (sent m) (console_error m ++ lines).

Definition send (h : nat) (o : outbound) (m : manager) : manager :=
  Manager (sockets m) (wsMap m) (calls m) (sent m ++ [(h, o)]) (console_error m).

(** The body of the [try] block of [ws.onmessage] after [JSON.parse]
    returned [message]: the callbacks it invokes and the [console.error]
    lines it prints, or [None] when it raises ([message.type] on [null]). *)
Definition dispatch (promptId : string) (message : Js.value)
    : option (list callback * list string) :=
  match Js.get message "type" with
  | None => None
  | Some type =>
      let data := Js.get_opt message "data" in
      if Js.is_str type "progress" && Js.truthy data then
        let status := Js.get_opt data "status" in
        if Js.is_str status "completed" then
          Some ([onProgress promptId data; onComplete promptId data], [])
        else if Js.is_str status "error" then
          Some ([onProgress promptId data;
                 onError promptId
                   (Js.or_else (Js.get_opt data "error") (Js.Str "Unknown error"))],
                ["Generation error:"])
        else Some ([onProgress promptId data], [])
      else if Js.is_str type "error" then
        Some ([onError promptId
                 (Js.or_else (Js.get_opt data "error") (Js.Str "Unknown error"))],
              ["WebSocket error:"])
      else Some ([], [])
  end.

Section Handlers.

(** [JSON.parse]; [None] when it raises a [SyntaxError]. *)
Variable JSON_parse : string → option Js.value.

(** [ws.onmessage] of the socket [h]. *)
Definition onmessage (h : nat) (event_data : string) (m : manager) : manager :=
  match sockets m !! h with
  | None => m
  | Some ws =>
      match JSON_parse event_data with
      | Some message =>
          match dispatch (promptId ws) message with
          | Some (cs, lines) => add_calls cs (log_errors lines m)
          | None => log_errors ["WebSocket message parse error:"] m
          end
      | None => log_errors ["WebSocket message parse error:"] m
      end
  end.

(** [ws.onopen]: the [auth] frame; the [monitor] frame follows from a
    timer, see [MonitorDue]. *)
Definition onopen (h : nat) (m : manager) : manager := send h auth m.

Definition monitor_due (h : nat) (m : manager) : manager :=
  match sockets m !! h with
  | Some ws =>
      send h (monitor (promptId ws) (workflowId ws) (prompt ws) (overrideParams ws)) m
  | None => m
  end.

(** [ws.onerror]. *)
Definition onerror (h : nat) (m : manager) : manager :=
  match sockets m !! h with
  | Some ws =>
      add_calls [onError (promptId ws) (Js.Str "WebSocket connection error")]
        (log_errors ["WebSocket error for prompt " +:+ promptId ws +:+ ":"] m)
  | None => m
  end.

(** [ws.onclose]: removes whatever the map holds under the job id. *)
Definition onclose (h : nat) (m : manager) : manager :=
  match sockets m !! h with
  | Some ws =>
      Manager (sockets m) (delete (promptId ws) (wsMap m)) (calls m) (sent m)
              (console_error m)
  | None => m
  end.

(** What happens on the event loop: calls of the hook's functions, and
    the events the browser dispatches on a socket. *)
Inductive event :=
| Connect (promptId workflowId prompt : string) (overrideParams : Js.value)
| Disconnect (promptId : string)
| DisconnectAll
| Opened (h : nat)
| MonitorDue (h : nat)
| Message (h : nat) (data : string)
| Errored (h : nat)
| Closed (h : nat).

(** The browser dispatches [open] on a connecting socket, [message] on
    an open one, and [close] once on a socket that is not yet closed;
    an event that cannot occur in the current state changes nothing. *)
Definition step (m : manager) (e : event) : manager :=
  match e with
  | Connect p w pr o => connect p w pr o m
  | Disconnect p => disconnect p m
  | DisconnectAll => disconnectAll m
  | Opened h =>
      match readyState_of m h with
      | Some CONNECTING => onopen h (set_state h OPEN m)
      | _ => m
      end
  | MonitorDue h =>
      match readyState_of m h with
      | Some OPEN => monitor_due h m
      | _ => m
      end
  | Message h data =>
      match readyState_of m h with
      | Some OPEN => onmessage h data m
      | _ => m
      end
  | Errored h =>
      match readyState_of m h with
      | Some CLOSED | None => m
      | _ => onerror h m
      end
  | Closed h =>
      match readyState_of m h with
      | Some CLOSED | None => m
      | _ => onclose h (set_state h CLOSED m)
      end
  end.

Definition run (m : manager) (es : list event) : manager := foldl step m es.

End Handlers.

(** The handles of the sockets of job [j] that are open. *)
Definition open_sockets (j : string) (m : manager) : list nat :=
  (array_filter (λ hw, bool_decide (promptId hw.2 = j) && is_OPEN (state hw.2))
     (imap pair (sockets m))).*1.

(** The sockets that [connect] created for job [j], in any state. *)
Definition sockets_of (j : string) (m : manager) : list WebSocket :=
  array_filter (λ ws, bool_decide (promptId ws = j)) (sockets m).

End WebSocketManager.

(** ** Persistence hook ([useLocalStorageSync]) *)

Module LocalStorageSync.

Section Hook.

Context {T : Type} `{!ObjectIs T}.

(** [typeof value === 'string' ? value : JSON.stringify(value)]. *)
Variable store : T → string.

(** [JSON.parse(item)], or [item] itself when that raises. *)
Variable load : string → T.

Variable key : string.
Variable initialValue : T.

(** [options?.debounce], a number of milliseconds when given. *)
Variable debounce : option Z.

(** The state cell [value], the two refs, and whether React still has to
    run the effect for the last committed render. *)
Record hook := Hook {
  value : T;
  isInitialMount : bool;
  debounceTimer : option T;
  effect_due : bool
}.

(** The hook and [localStorage]. *)
Definition world : Type := hook * gmap string string.

(** The lazy initialiser of [useState], on the first render; the effect of
    that render is due. *)
Definition mount (localStorage : gmap string string) : world :=
  (Hook (match localStorage !! key with
         | None => initialValue
         | Some item => load item
         end) true None true,
   localStorage).

(** [setValue(action)], an update processed in a render of its own (the
    updates of one batch are one [action], their composition).  When the
    state it computes is the state held, nothing is rendered and the
    effect, which depends on [value], is not run; otherwise the component
    renders again with the new value and the effect is due again. *)
Definition setValue (action : T → T) (w : world) : world :=
  if Object_is (action (value w.1)) (value w.1) then w
  else (Hook (action (value w.1)) (isInitialMount w.1) (debounceTimer w.1) true, w.2).

Definition saveToLocalStorage (v : T) (localStorage : gmap string string)
    : gmap string string :=
  <[key := store v]> localStorage.

Definition debounced : bool :=
  match debounce with
  | Some ms => negb (ms =? 0)
  | None => false
  end.

(** The body of [useEffect(..., [key, value, options?.debounce])], after
    the cleanup of the previous run, which clears a pending timer. *)
Definition effect (w : world) : world :=
  if isInitialMount w.1 then
    (Hook (value w.1) false (debounceTimer w.1) false, w.2)
  else if debounced then
    (Hook (value w.1) false (Some (value w.1)) false, w.2)
  else
    (Hook (value w.1) false None false, saveToLocalStorage (value w.1) w.2).

(** The debounce timer fires: the value captured by the effect is saved. *)
Definition timer_fires (w : world) : world :=
  match debounceTimer w.1 with
  | Some v =>
      (Hook (value w.1) (isInitialMount w.1) None (effect_due w.1),
       saveToLocalStorage v w.2)
  | None => w
  end.

Inductive event :=
| SetValue (action : T → T)
| Effect
| TimerFires.

Definition step (w : world) (e : event) : world :=
  match e with
  | SetValue action => setValue action w
  | Effect => if effect_due w.1 then effect w else w
  | TimerFires => timer_fires w
  end.

Definition run (w : world) (es : list event) : world := foldl step w es.

(** The persisted snapshot is the serialised in-memory value. *)
Definition synced (w : world) : Prop :=
  w.2 !! key = Some (store (value w.1)).

(** What the undebounced hook maintains once it is mounted: no timer is
    armed, and the store holds the value whenever no effect is due. *)
Definition written_through (w : world) : Prop :=
  isInitialMount w.1 = false ∧ debounceTimer w.1 = None
  ∧ (effect_due w.1 = false → synced w).

End Hook.

End LocalStorageSync.

(** ** Job placeholders *)

Module GeneratingImage.

(** The record built by the two launchers and kept in [generatingImages];
    [timestamp] is [None] when a persisted record carries none, and
    [imageData] is set when the job has resolved to an artifact. *)
Record t := Build {
  id : string;
  prompt : string;
  workflow_id : string;
  workflow_name : string;
  status : string;
  progress : Z;
  override_params : Js.value;
  timestamp : option Z;
  imageData : option ImageMetadata.t
}.

(** [{ ...img, status: s }]. *)
Definition with_status (s : string) (img : t) : t :=
  Build (id img) (prompt img) (workflow_id img) (workflow_name img) s
        (progress img) (override_params img) (timestamp img) (imageData img).

(** [{ ...img, status: 'completed', imageData: d }]. *)
Definition completed_with (d : ImageMetadata.t) (img : t) : t :=
  Build (id img) (prompt img) (workflow_id img) (workflow_name img) "completed"
        (progress img) (override_params img) (timestamp img) (Some d).

(** [{ ...img, status: s, progress: p }]. *)
Definition with_progress (s : string) (p : Z) (img : t) : t :=
  Build (id img) (prompt img) (workflow_id img) (workflow_name img) s
        p (override_params img) (timestamp img) (imageData img).

End GeneratingImage.

(** The placeholder list is an array, and each of its updates ([map],
    [filter], a spread, the array read from the snapshot, [[]]) builds a
    new one. *)
#[global] Instance placeholders_Object_is : ObjectIs (list GeneratingImage.t) := built_anew.

(** ** Awaited requests *)

Module Async.

(** The outcome of an awaited promise; a rejection carries [err.message]. *)
Inductive result (A : Type) :=
| Fulfilled (a : A)
| Rejected (message : option string).
Arguments Fulfilled {A} a.
Arguments Rejected {A} message.

(** An [async] function over a state [St] with return type [R]: the state
    updates of one synchronous segment, then either the return or an
    awaited request and the rest of the function. *)
Inductive task (Req : Type → Type) (St R : Type) : Type :=
| Return (u : St → St) (r : R)
| Await (u : St → St) {A : Type} (req : Req A) (k : result A → task Req St R).
Arguments Return {Req St R} u r.
Arguments Await {Req St R} u {A} req k.

(** The segment [u] runs before the task [t]. *)
Definition after {Req St R} (u : St → St) (t : task Req St R) : task Req St R :=
  match t with
  | Return u' r => Return (λ s, u' (u s)) r
  | Await u' req k => Await (λ s, u' (u s)) req k
  end.

(** [const r = await t; ... k(r)]. *)
Fixpoint bind {Req St R R'} (t : task Req St R) (k : R → task Req St R')
    : task Req St R' :=
  match t with
  | Return u r => after u (k r)
  | Await u req c => Await u req (λ x, bind (c x) k)
  end.

(** Running a task to its end against the collaborators' answers. *)
Fixpoint run {Req St R} (answer : ∀ A, Req A → result A)
    (t : task Req St R) (s : St) : St * R :=
  match t with
  | Return u r => (u s, r)
  | Await u req k => run answer (k (answer _ req)) (u s)
  end.

(** The number of requests a task awaits against given answers. *)
Fixpoint awaits {Req St R} (answer : ∀ A, Req A → result A)
    (t : task Req St R) : nat :=
  match t with
  | Return _ _ => O
  | Await _ req k => S (awaits answer (k (answer _ req)))
  end.

End Async.

(** ** Backend contracts ([types/generation.ts], [googleAiService.ts]) *)

Module Api.

Record GenerationRequest := GenerationRequest_ {
  workflow_id : string;
  prompt : string;
  override_params : Js.value;
  save_to_disk : bool;
  image_filename : option string
}.

Record GenerationResponse := GenerationResponse_ {
  prompt_id : string;
  status : string;
  message : option string
}.

Record GoogleAIGenerateRequest := GoogleAIGenerateRequest_ {
  g_prompt : string;
  model : string;
  aspect_ratio : string;
  resolution_tier : option string;
  reference_image : option string
}.

Record GoogleAIGenerateResponse := GoogleAIGenerateResponse_ {
  g_status : string;
  g_message : string;
  image_id : option string
}.

Record ImageListResponse := ImageListResponse_ {
  images : list ImageMetadata.t;
  total : Z;
  page : Z;
  page_size : Z
}.

(** The HTTP calls the hooks await. *)
Inductive request : Type → Type :=
| generationService_generate (r : GenerationRequest) : request GenerationResponse
| googleAiService_generate (r : GoogleAIGenerateRequest) : request GoogleAIGenerateResponse
| imageService_list (page page_size : Z) : request ImageListResponse.

(** A value spliced into a template literal: [undefined] prints as such. *)
Definition interpolate (s : option string) : string :=
  match s with
  | Some x => x
  | None => "undefined"
  end.



End Api.

(** ** Local launcher ([useLocalGeneration]) *)

Module LocalGeneration.

Record WorkflowConfig := WorkflowConfig_ {
  id : string;
  name : string
}.

Record GenerateParams := GenerateParams_ {
  workflowId : string;
  prompt : string;
  uploadedImageFile : option string
}.

(** [for (const [key, value] of Object.entries(workflowOverrides))
      if (value !== '' && value !== null && value !== undefined)
        overrideParams[key] = value]:
    the own properties that the loop gives the fresh object.  The
    assignment under the name [__proto__] reaches the prototype setter and
    adds no property. *)
Definition keep_overrides (workflowOverrides : list (string * Js.value))
    : list (string * Js.value) :=
  array_filter (λ kv, Js.non_empty kv.2 && negb (bool_decide (kv.1 = "__proto__")))
    workflowOverrides.

(** [x || undefined] for a string. *)
Definition or_undefined (x : option string) : option string :=
  match x with
  | Some s => if bool_decide (s = "") then None else Some s
  | None => None
  end.

Section Hook.

(** [JSON.parse]; [None] when it raises. *)
Variable JSON_parse : string → option Js.value.

(** The block that computes [overrideParams] from
    [localStorage.getItem('parameterOverrides')]; it stands in [generate]
    and, word for word, in [handleGenerate].  [Js.Null] is [null]. *)
Definition read_overrideParams (savedOverrides : option string)
    (workflowId : string) : Js.value :=
  match savedOverrides with
  | None => Js.Null
  | Some text =>
      if bool_decide (text = "") then Js.Null
      else
        match JSON_parse text with
        | None => Js.Null
        | Some allOverrides =>
            match Js.get_computed allOverrides workflowId with
            | None => Js.Null
            | Some workflowOverrides =>
                if Js.truthy workflowOverrides then
                  match keep_overrides (Js.entries workflowOverrides) with
                  | [] => Js.Null
                  | kept => Js.Obj kept
                  end
                else Js.Null
            end
        end
  end.

Context {St : Type}.
Variable workflows : list WorkflowConfig.
Variable onGenerationStart : GeneratingImage.t → St → St.
Variable onError : string → St → St.

(** [workflow?.name || 'Unknown']. *)
Definition workflowName (workflowId : string) : string :=
  match find (λ w, bool_decide (id w = workflowId)) workflows with
  | Some w => if bool_decide (name w = "") then "Unknown" else name w
  | None => "Unknown"
  end.

(** [generate(params)]; [now] is what [Date.now()] returns when the
    placeholder is built. *)
Definition generate (localStorage : gmap string string) (now : Z)
    (params : GenerateParams) : Async.task Api.request St (option string) :=
  if bool_decide (workflowId params = "") then
    Async.Return (onError "Please select a workflow") None
  else
    let overrideParams :=
      read_overrideParams (localStorage !! "parameterOverrides") (workflowId params) in
    Async.Await (λ s, s)
      (Api.generationService_generate
         (Api.GenerationRequest_ (workflowId params) (prompt params) overrideParams
            true (or_undefined (uploadedImageFile params))))
      (λ r,
         match r with
         | Async.Fulfilled response =>
             if bool_decide (Api.status response = "failed") then
               Async.Return
                 (onError ("Generation failed: " +:+ Api.interpolate (Api.message response)))
                 None
             else
               Async.Return
                 (onGenerationStart
                    (GeneratingImage.Build (Api.prompt_id response) (prompt params)
                       (workflowId params) (workflowName (workflowId params))
                       "queued" 0 overrideParams (Some now) None))
                 (Some (Api.prompt_id response))
         | Async.Rejected message =>
             Async.Return (onError ("Generation failed: " +:+ Api.interpolate message)) None
         end).

End Hook.

(** The submission a task awaits first, when it awaits one. *)
Definition submitted {St R} (t : Async.task Api.request St R)
    : option Api.GenerationRequest :=
  match t with
  | Async.Await _ req _ =>
      match req with
      | Api.generationService_generate r => Some r
      | _ => None
      end
  | Async.Return _ _ => None
  end.

(** What is transmitted for a per-workflow override map with the given
    entries: the entries kept, or [null] when none is. *)
Definition transmitted (fields : list (string * Js.value)) : Js.value :=
  match keep_overrides fields with
  | [] => Js.Null
  | kept => Js.Obj kept
  end.

End LocalGeneration.

(** ** Remote launcher ([useGoogleAIGeneration]) *)

Module GoogleAIGeneration.

Record GoogleAIModel := GoogleAIModel_ {
  id : string;
  name : string
}.

Record GenerateParams := GenerateParams_ {
  prompt : string;
  model : string;
  aspectRatio : string;
  resolutionTier : option string
}.

(** [s || fallback] for strings. *)
Definition or_string (s : option string) (fallback : string) : string :=
  match s with
  | Some x => if bool_decide (x = "") then fallback else x
  | None => fallback
  end.

Section Hook.

(** [String.prototype.trim]. *)
Variable trim : string → string.

Context {St : Type}.
Variable models : list GoogleAIModel.
Variable onGenerationStart : GeneratingImage.t → St → St.
Variable onGenerationComplete : string → ImageMetadata.t → St → St.
Variable onGenerationFailed : string → string → St → St.
Variable onError : string → St → St.

(** [modelData?.name || 'Google']. *)
Definition modelName (model : string) : string :=
  match find (λ m, bool_decide (id m = model)) models with
  | Some m => if bool_decide (name m = "") then "Google" else name m
  | None => "Google"
  end.

(** [generate(params)]; [referenceImage] is the hook's state cell, [now]
    and [random] are what [Date.now()] and
    [Math.random().toString(36).substr(2, 9)] return. *)
Definition generate (referenceImage : option string) (now : Z) (random : string)
    (params : GenerateParams) : Async.task Api.request St unit :=
  if bool_decide (trim (prompt params) = "") then
    Async.Return (onError "Please enter a prompt") ()
  else
    let tempId := "google_" +:+ pretty now +:+ "_" +:+ random in
    let newGeneratingImage :=
      GeneratingImage.Build tempId (prompt params) "google_ai" (modelName (model params))
        "processing" 0 Js.Undefined (Some now) None in
    Async.Await (onGenerationStart newGeneratingImage)
      (Api.googleAiService_generate
         (Api.GoogleAIGenerateRequest_ (prompt params) (model params) (aspectRatio params)
            (if bool_decide (model params = "gemini-3-pro-image-preview")
             then resolutionTier params else None)
            (LocalGeneration.or_undefined referenceImage)))
      (λ r,
         match r with
         | Async.Fulfilled response =>
             if bool_decide (Api.g_status response = "failed") then
               Async.Return
                 (λ s, onError ("Generation failed: " +:+ Api.g_message response)
                         (onGenerationFailed tempId
                            (or_string (Some (Api.g_message response)) "Generation failed") s))
                 ()
             else
               Async.Await (λ s, s) (Api.imageService_list 1 50)
                 (λ r2,
                    match r2 with
                    | Async.Fulfilled newImages =>
                        match find (λ img, bool_decide
                                      (Some (ImageMetadata.id img) = Api.image_id response))
                                (Api.images newImages) with
                        | Some newImage =>
                            Async.Return (onGenerationComplete tempId newImage) ()
                        | None =>
                            Async.Return
                              (onGenerationFailed tempId "Image not found after generation") ()
                        end
                    | Async.Rejected _ =>
                        Async.Return
                          (onGenerationFailed tempId "Failed to retrieve generated image") ()
                    end)
         | Async.Rejected message =>
             Async.Return
               (λ s, onError ("Generation failed: " +:+ Api.interpolate message)
                       (onGenerationFailed tempId (or_string message "Generation failed") s))
               ()
         end).

End Hook.

End GoogleAIGeneration.

(** ** Translations ([locales/en.ts], [locales/zh.ts], [useLanguage]) *)

Module Locales.

(** The entries of [TranslationKeys] that the handlers modelled here read;
    [useLanguage()] hands the component the table [t] of the language in
    use. *)
Class TranslationKeys := Translations {
  errors_generationFailed : string
}.

Definition en : TranslationKeys := Translations "Generation failed".

Definition zh : TranslationKeys := Translations "生成失败".

End Locales.

(** ** The component state and its callbacks ([AppContent]) *)

Module App.

(** A pending [setTimeout] whose callback removes a placeholder:
    [setGeneratingImages(prev => prev.filter(img => img.id !== id))]. *)
Inductive timeout := RemoveGenerating (id : string).

Record state := State {
  generatingImages : list GeneratingImage.t;
  images : list ImageMetadata.t;
  error : option string;
  timers : list (Z * timeout)
}.

Definition setGeneratingImages
    (f : list GeneratingImage.t → list GeneratingImage.t) (st : state) : state :=
  State (f (generatingImages st)) (images st) (error st) (timers st).

Definition setImages (f : list ImageMetadata.t → list ImageMetadata.t)
    (st : state) : state :=
  State (generatingImages st) (f (images st)) (error st) (timers st).

Definition setError (e : option string) (st : state) : state :=
  State (generatingImages st) (images st) e (timers st).

Definition setTimeout (t : timeout) (ms : Z) (st : state) : state :=
  State (generatingImages st) (images st) (error st) (timers st ++ [(ms, t)]).

(** [prev.map(img => img.id === promptId ? f(img) : img)]. *)
Definition update_job (promptId : string) (f : GeneratingImage.t → GeneratingImage.t)
    (prev : list GeneratingImage.t) : list GeneratingImage.t :=
  (λ img, if bool_decide (GeneratingImage.id img = promptId) then f img else img) <$> prev.

(** [prev.filter(img => img.id !== promptId)]. *)
Definition remove_job (promptId : string) (prev : list GeneratingImage.t)
    : list GeneratingImage.t :=
  array_filter (λ img, negb (bool_decide (GeneratingImage.id img = promptId))) prev.

(** Insertion of [x] into a list ordered newest first, in front of the
    first record that is not newer. *)
Fixpoint insert_newest_first (x : ImageMetadata.t) (l : list ImageMetadata.t)
    : list ImageMetadata.t :=
  match l with
  | [] => [x]
  | y :: r =>
      if ImageMetadata.created_at y <=? ImageMetadata.created_at x
      then x :: y :: r
      else y :: insert_newest_first x r
  end.

(** [list.sort((a, b) => new Date(b.created_at).getTime() -
    new Date(a.created_at).getTime())]: the stable sort, newest first. *)
Definition sort_newest_first (l : list ImageMetadata.t) : list ImageMetadata.t :=
  foldr insert_newest_first [] l.

(** The timer callback. *)
Definition fire (t : timeout) (st : state) : state :=
  match t with
  | RemoveGenerating id => setGeneratingImages (remove_job id) st
  end.

(** The [i]-th pending timer fires. *)
Definition timer_fires (i : nat) (st : state) : state :=
  match timers st !! i with
  | Some (_, t) =>
      fire t (State (generatingImages st) (images st) (error st) (delete i (timers st)))
  | None => st
  end.

(** A progress payload with the fields of [ProgressUpdate] that the
    callback reads. *)
Record ProgressUpdate := ProgressUpdate_ {
  status : string;
  progress_percent : option Z
}.

(** [wsManager]'s [onProgress]. *)
Definition onProgress (promptId : string) (data : ProgressUpdate) (st : state) : state :=
  setGeneratingImages
    (update_job promptId (λ img,
       GeneratingImage.with_progress
         (if bool_decide (status data = "") then GeneratingImage.status img else status data)
         (match progress_percent data with
          | Some p => if p =? 0 then GeneratingImage.progress img else p
          | None => GeneratingImage.progress img
          end) img)) st.

Definition not_found_message : string :=
  "Failed to retrieve generated image. Please check your images list.".

(** The message [wsManager]'s [onError] puts in the banner. *)
Definition channel_error_message (error : string) : string :=
  "Generation failed: " +:+ error.

(** [wsManager]'s [onComplete]. *)
Definition onComplete (promptId : string) : Async.task Api.request state unit :=
  Async.Await (λ st, st) (Api.imageService_list 1 50)
    (λ r,
       match r with
       | Async.Fulfilled newImages =>
           match find (λ img, bool_decide (ImageMetadata.prompt_id img = promptId))
                   (Api.images newImages) with
           | Some newImage =>
               Async.Return
                 (λ st,
                    setTimeout (RemoveGenerating promptId) 5000
                      (setImages (λ prev, sort_newest_first (newImage :: prev))
                         (setGeneratingImages
                            (update_job promptId (GeneratingImage.completed_with newImage))
                            st)))
                 ()
           | None =>
               Async.Return
                 (λ st,
                    setTimeout (RemoveGenerating promptId) 3000
                      (setError (Some not_found_message)
                         (setGeneratingImages
                            (update_job promptId (GeneratingImage.with_status "failed"))
                            st)))
                 ()
           end
       | Async.Rejected _ =>
           Async.Return (setGeneratingImages (remove_job promptId)) ()
       end).

(** [wsManager]'s [onError]. *)
Definition onError (promptId : string) (error : string) (st : state) : state :=
  setTimeout (RemoveGenerating promptId) 2000
    (setError (Some (channel_error_message error))
       (setGeneratingImages (update_job promptId (GeneratingImage.with_status "failed")) st)).

(** The callbacks handed to the two launchers. *)
Definition onGenerationStart (generatingImage : GeneratingImage.t) (st : state) : state :=
  setGeneratingImages (λ prev, generatingImage :: prev) st.

Definition onGenerationComplete (tempId : string) (imageData : ImageMetadata.t)
    (st : state) : state :=
  setTimeout (RemoveGenerating tempId) 5000
    (setImages (λ prev, sort_newest_first (imageData :: prev))
       (setGeneratingImages
          (update_job tempId (GeneratingImage.completed_with imageData)) st)).

Definition onGenerationFailed (tempId : string) (_error : string) (st : state) : state :=
  setTimeout (RemoveGenerating tempId) 2000
    (setGeneratingImages (update_job tempId (GeneratingImage.with_status "failed")) st).

Definition handleRemoveGenerating (imageId : string) (st : state) : state :=
  setGeneratingImages (remove_job imageId) st.

(** The two launchers as [AppContent] instantiates them. *)
Definition localGeneration_generate (JSON_parse : string → option Js.value)
    (workflows : list LocalGeneration.WorkflowConfig) :=
  LocalGeneration.generate JSON_parse workflows onGenerationStart
    (λ e, setError (Some e)).

Definition googleGeneration_generate (trim : string → string)
    (models : list GoogleAIGeneration.GoogleAIModel) :=
  GoogleAIGeneration.generate trim models onGenerationStart onGenerationComplete
    onGenerationFailed (λ e, setError (Some e)).

(** *** Submission ([handleGenerate], local mode) *)

(** The component state together with the channel manager's. *)
Definition world : Type := state * WebSocketManager.manager.

Definition on_state (u : state → state) (w : world) : world := (u w.1, w.2).

Definition on_manager (u : WebSocketManager.manager → WebSocketManager.manager)
    (w : world) : world := (w.1, u w.2).

(** [handleGenerate()] when [generationMode === 'local']; [t] is the table
    of the language in use, [localStorage] is the store when [generate]
    reads it and [localStorage'] the store when the handler reads it again
    after the submission returned. *)
Definition handleGenerate_local {t : Locales.TranslationKeys}
    (JSON_parse : string → option Js.value)
    (workflows : list LocalGeneration.WorkflowConfig)
    (selectedWorkflow : option string) (prompt : string)
    (uploadedFile : option string)
    (localStorage localStorage' : gmap string string) (now : Z)
    : Async.task Api.request world unit :=
  match LocalGeneration.or_undefined selectedWorkflow with
  | None =>
      Async.Return
        (on_state
           (setError
              (Some (Locales.errors_generationFailed +:+ ": Please select a workflow"))))
        ()
  | Some workflow =>
      Async.bind
        (LocalGeneration.generate JSON_parse workflows
           (λ g, on_state (onGenerationStart g)) (λ e, on_state (setError (Some e)))
           localStorage now
           (LocalGeneration.GenerateParams_ workflow prompt
              (LocalGeneration.or_undefined uploadedFile)))
        (λ promptId,
           match LocalGeneration.or_undefined promptId with
           | Some promptId =>
               Async.Return
                 (on_manager
                    (WebSocketManager.connect promptId workflow prompt
                       (LocalGeneration.read_overrideParams JSON_parse
                          (localStorage' !! "parameterOverrides") workflow)))
                 ()
           | None => Async.Return (λ w, w) ()
           end)
  end.

(** *** Cold-start resume ([loadGeneratingImages]) *)

Definition staleness_ceiling : Z := 60 * 60 * 1000.

(** [img.timestamp && img.timestamp < oneHourAgo]: a missing timestamp and
    the number [0] are falsy.  (Both launchers stamp a placeholder with
    [Date.now()], which is not [0].) *)
Definition stale (oneHourAgo : Z) (img : GeneratingImage.t) : bool :=
  match GeneratingImage.timestamp img with
  | Some t => negb (t =? 0) && (t <? oneHourAgo)
  | None => false
  end.

(** The callback of [parsed.filter]. *)
Definition valid (oneHourAgo : Z) (img : GeneratingImage.t) : bool :=
  if bool_decide (GeneratingImage.status img = "failed") then false
  else if stale oneHourAgo img then false
  else true.

(** [img.status === 'processing' || img.status === 'queued']. *)
Definition resumable (img : GeneratingImage.t) : bool :=
  bool_decide (GeneratingImage.status img = "processing")
  || bool_decide (GeneratingImage.status img = "queued").

(** The callback of [validImages.forEach]. *)
Definition reconnect (m : WebSocketManager.manager) (img : GeneratingImage.t)
    : WebSocketManager.manager :=
  if resumable img then
    WebSocketManager.connect (GeneratingImage.id img) (GeneratingImage.workflow_id img)
      (GeneratingImage.prompt img) (GeneratingImage.override_params img) m
  else m.

(** The socket that [connect] creates for a placeholder. *)
Definition channel_for (img : GeneratingImage.t) : WebSocketManager.WebSocket :=
  WebSocketManager.Socket (GeneratingImage.id img) (GeneratingImage.workflow_id img)
    (GeneratingImage.prompt img) (GeneratingImage.override_params img)
    WebSocketManager.CONNECTING.

(** No socket of the manager is open, as at cold start. *)
Definition none_open (m : WebSocketManager.manager) : Prop :=
  ∀ h, WebSocketManager.readyState_of m h ≠ Some WebSocketManager.OPEN.

Section Resume.

(** [JSON.parse] on the persisted snapshot, read as an array of placeholder
    records; [None] when it raises. *)
Variable JSON_parse : string → option (list GeneratingImage.t).

(** [loadGeneratingImages()]; [now] is what [Date.now()] returns. *)
Definition loadGeneratingImages (localStorage : gmap string string) (now : Z)
    (w : state * WebSocketManager.manager) : state * WebSocketManager.manager :=
  match localStorage !! "generatingImages" with
  | Some saved =>
      if bool_decide (saved = "") then w
      else
        match JSON_parse saved with
        | Some parsed =>
            let oneHourAgo := now - staleness_ceiling in
            let validImages := array_filter (valid oneHourAgo) parsed in
            (setGeneratingImages (λ _, validImages) w.1,
             foldl reconnect w.2 validImages)
        | None => w
        end
  | None => w
  end.

End Resume.

End App.

(** ** The grid ([ImageGrid]) *)

Module ImageGrid.

(** [genImg.status === 'completed' && genImg.imageData?.id === img.id]. *)
Definition shows (img : ImageMetadata.t) (genImg : GeneratingImage.t) : bool :=
  bool_decide (GeneratingImage.status genImg = "completed")
  && match GeneratingImage.imageData genImg with
     | Some d => bool_decide (ImageMetadata.id d = ImageMetadata.id img)
     | None => false
     end.

Definition filteredImages (generatingImages : list GeneratingImage.t)
    (completedImages : list ImageMetadata.t) : list ImageMetadata.t :=
  array_filter (λ img, negb (some (shows img) generatingImages)) completedImages.

(** A rendered card: an artifact with its checkbox, or a loading or failed
    placeholder. *)
Inductive card :=
| image_card (key : string) (image : ImageMetadata.t)
| loading_card (key : string) (job : GeneratingImage.t).

(** The callback of [generatingImages.map]. *)
Definition render_generating (img : GeneratingImage.t) : card :=
  if bool_decide (GeneratingImage.status img = "completed") then
    match GeneratingImage.imageData img with
    | Some d => image_card (GeneratingImage.id img) d
    | None => loading_card (GeneratingImage.id img) img
    end
  else loading_card (GeneratingImage.id img) img.

(** The cards of the grid, top to bottom: the Visible List. *)
Definition render (generatingImages : list GeneratingImage.t)
    (completedImages : list ImageMetadata.t) : list card :=
  (render_generating <$> generatingImages)
  ++ ((λ img, image_card (ImageMetadata.id img) img)
        <$> filteredImages generatingImages completedImages).

Definition artifact_of (c : card) : option string :=
  match c with
  | image_card _ image => Some (ImageMetadata.id image)
  | loading_card _ _ => None
  end.

(** The artifact ids shown, one per image card. *)
Definition shown_artifacts (cards : list card) : list string :=
  omap artifact_of cards.

(** The artifact ids shown through a resolved placeholder. *)
Definition resolved_artifacts (generatingImages : list GeneratingImage.t) : list string :=
  shown_artifacts (render_generating <$> generatingImages).

(** The artifact ids shown through the plain historical stream. *)
Definition historical_artifacts (generatingImages : list GeneratingImage.t)
    (completedImages : list ImageMetadata.t) : list string :=
  ImageMetadata.id <$> filteredImages generatingImages completedImages.

(** How often an id occurs in a list of ids. *)
Definition occurrences (a : string) (ids : list string) : nat :=
  length (array_filter (λ x, bool_decide (x = a)) ids).

End ImageGrid.

(** ** Concrete inputs used in the examples *)

Module Examples.

Definition image (id : string) (created_at : Z) : ImageMetadata.t :=
  ImageMetadata.Build id "txt2img" "sunset" ("job-" +:+ id) created_at.

Definition six_images : list ImageMetadata.t :=
  [image "a" 60; image "b" 50; image "c" 40; image "d" 30; image "e" 20; image "f" 10].

Definition nothing_selected : ImageSelection.state := ImageSelection.State ∅ None.

(** The text [{ wf: { steps: 30, seed: '', sampler: null } }] in JSON, as
    the settings panel stores it, and the value it parses to. *)
Definition quoted (s : string) : string :=
  String (Ascii.ascii_of_nat 34) s +:+ String (Ascii.ascii_of_nat 34) EmptyString.

Definition overrides_text : string :=
  "{" +:+ quoted "wf" +:+ ":{" +:+ quoted "steps" +:+ ":30," +:+ quoted "seed" +:+ ":"
  +:+ quoted "" +:+ "," +:+ quoted "sampler" +:+ ":null}}".

Definition overrides_value : Js.value :=
  Js.Obj [("wf", Js.Obj [("steps", Js.Num 30 0); ("seed", Js.Str ""); ("sampler", Js.Null)])].

(** [JSON.parse] on the few texts the examples feed it; any other text of
    the examples is no JSON text. *)
Definition JSON_parse (text : string) : option Js.value :=
  if bool_decide (text = overrides_text) then Some overrides_value
  else if bool_decide (text = "null") then Some Js.Null
  else if bool_decide (text = "[]") then Some (Js.Arr [])
  else if bool_decide (text = "42") then Some (Js.Num 42 0)
  else None.

(** The events of one job id that is connected three times: the first
    socket opens, the second [connect] closes it and registers a new one,
    the [close] event of the first socket arrives, and the job is connected
    once more. *)
Definition reconnects (j : string) : list WebSocketManager.event :=
  [WebSocketManager.Connect j "wf" "sunset" Js.Null;
   WebSocketManager.Opened 0;
   WebSocketManager.Connect j "wf" "sunset" Js.Null;
   WebSocketManager.Opened 1;
   WebSocketManager.Closed 0;
   WebSocketManager.Connect j "wf" "sunset" Js.Null;
   WebSocketManager.Opened 2].

(** A job id that is connected again while its first socket is still
    connecting. *)
Definition connects_twice (j : string) : list WebSocketManager.event :=
  [WebSocketManager.Connect j "wf" "sunset" Js.Null;
   WebSocketManager.Connect j "wf" "sunset" Js.Null;
   WebSocketManager.Opened 0;
   WebSocketManager.Opened 1].

(** A placeholder as the local launcher builds it. *)
Definition job (id status : string) (timestamp : option Z) : GeneratingImage.t :=
  GeneratingImage.Build id "sunset" "wf" "txt2img" status 0 Js.Null timestamp None.

(** A serialiser that keeps the ids of the placeholders, which is enough to
    tell the snapshots of the examples apart, and the matching reader for a
    store that holds nothing under the key. *)
Definition store (l : list GeneratingImage.t) : string :=
  String.concat "," (GeneratingImage.id <$> l).

Definition load (item : string) : list GeneratingImage.t := [].

(** [String.prototype.trim] on a text kept as the bytes of its UTF-8
    encoding.  It strips the code points that ECMAScript lists as
    WhiteSpace or LineTerminator: U+0009 to U+000D, U+0020, U+00A0, U+1680,
    U+2000 to U+200A, U+2028, U+2029, U+202F, U+205F, U+3000 and U+FEFF. *)
Definition utf8 (bytes : list Z) : string :=
  String.string_of_list_ascii ((λ b, Ascii.ascii_of_N (Z.to_N b)) <$> bytes).

Definition white_space : list string :=
  utf8 <$> [[9]; [10]; [11]; [12]; [13]; [32]; [194; 160]; [225; 154; 128];
            [226; 128; 128]; [226; 128; 129]; [226; 128; 130]; [226; 128; 131];
            [226; 128; 132]; [226; 128; 133]; [226; 128; 134]; [226; 128; 135];
            [226; 128; 136]; [226; 128; 137]; [226; 128; 138];
            [226; 128; 168]; [226; 128; 169]; [226; 128; 175]; [226; 129; 159];
            [227; 128; 128]; [239; 187; 191]].

(** The text without its first code point, when that is one of [spaces]. *)
Definition strip_first (spaces : list string) (s : string) : option string :=
  match List.find (λ ws, String.prefix ws s) spaces with
  | Some ws =>
      Some (String.substring (String.length ws) (String.length s - String.length ws) s)
  | None => None
  end.

Fixpoint strip_leading (spaces : list string) (n : nat) (s : string) : string :=
  match n with
  | O => s
  | S n' =>
      match strip_first spaces s with
      | Some r => strip_leading spaces n' r
      | None => s
      end
  end.

Definition trimStart (s : string) : string :=
  strip_leading white_space (String.length s) s.

Definition trimEnd (s : string) : string :=
  String.rev (strip_leading (String.rev <$> white_space) (String.length s) (String.rev s)).

Definition trim (s : string) : string := trimEnd (trimStart s).

(** Collaborators that reject every request, as on a network failure. *)
Definition network_down : ∀ A, Api.request A → Async.result A :=
  λ _ _, Async.Rejected (Some "Network Error").

Definition empty_state : App.state := App.State [] [] None [].

(** A clock reading, in milliseconds, and a snapshot written before a
    restart: one job submitted ten minutes before that reading, one two
    hours before it. *)
Definition now : Z := 1700000000000.

Definition snapshot : list GeneratingImage.t :=
  [job "job-10min" "processing" (Some (now - 10 * 60 * 1000));
   job "job-2h" "processing" (Some (now - 2 * 60 * 60 * 1000))].

(** The reader of that snapshot as [store] writes it. *)
Definition parse_jobs (text : string) : option (list GeneratingImage.t) :=
  if bool_decide (text = store snapshot) then Some snapshot else None.


Definition remote_params : GoogleAIGeneration.GenerateParams :=
  GoogleAIGeneration.GenerateParams_ "sunset" "gemini-2.5-flash-image" "1:1" None.

(** The history service answers with one page that holds the given images;
    the other services are down. *)
Definition history (page : list ImageMetadata.t) : ∀ A, Api.request A → Async.result A :=
  λ A req,
    match req in Api.request T return Async.result T with
    | Api.imageService_list _ _ =>
        Async.Fulfilled (Api.ImageListResponse_ page (Z.of_nat (length page)) 1 50)
    | _ => Async.Rejected (Some "Network Error")
    end.

End Examples.

(** ** History pager ([loadImages] and the scroll handler of [AppContent]) *)

Module Pager.

(** The state cells the pager reads and writes. *)
Record state := State {
  images : list ImageMetadata.t;
  currentPage : Z;
  hasMoreImages : bool;
  isLoadingMore : bool
}.

Definition setIsLoadingMore (b : bool) (st : state) : state :=
  State (images st) (currentPage st) (hasMoreImages st) b.

Definition setCurrentPage (page : Z) (st : state) : state :=
  State (images st) page (hasMoreImages st) (isLoadingMore st).

(** [loadImages(page, append)]; a failed fetch is caught and only logged. *)
Definition loadImages (page : Z) (append : bool) : Async.task Api.request state unit :=
  Async.Await (λ st, st) (Api.imageService_list page 20)
    (λ r,
       match r with
       | Async.Fulfilled response =>
           Async.Return
             (λ st,
                let more := bool_decide (length (Api.images response) = 20%nat) in
                if append then
                  State (images st ++ Api.images response) (currentPage st) more
                        (isLoadingMore st)
                else State (Api.images response) 1 more (isLoadingMore st))
             ()
       | Async.Rejected _ => Async.Return (λ st, st) ()
       end).

(** [handleScroll()]: [scrolledToBottom] is the outcome of
    [scrollHeight - scrollTop - clientHeight < 300], and [rendered] the
    state of the render whose closure the handler is. *)
Definition handleScroll (scrolledToBottom : bool) (rendered : state)
    : Async.task Api.request state unit :=
  if scrolledToBottom && hasMoreImages rendered && negb (isLoadingMore rendered) then
    let nextPage := currentPage rendered + 1 in
    Async.bind (Async.after (setIsLoadingMore true) (loadImages nextPage true))
      (λ _, Async.Return (λ st, setIsLoadingMore false (setCurrentPage nextPage st)) ())
  else Async.Return (λ st, st) ().

End Pager.

(** ** The image modal's navigation ([handleNextImage], [handlePreviousImage]) *)

Module Navigation.

(** [images.findIndex(img => img.id === selectedImage.id)]. *)
Definition currentIndex (images : list ImageMetadata.t) (selectedImage : ImageMetadata.t) : Z :=
  findIndex (λ img, bool_decide (ImageMetadata.id img = ImageMetadata.id selectedImage)) images.

(** The state cell [selectedImage]; [None] stands for [null] and for the
    [undefined] that a read outside the list would store. *)
Definition handleNextImage (images : list ImageMetadata.t)
    (selectedImage : option ImageMetadata.t) : option ImageMetadata.t :=
  match selectedImage with
  | None => None
  | Some s =>
      let i := currentIndex images s in
      if i <? Z.of_nat (length images) - 1 then array_get images (i + 1) else Some s
  end.

Definition handlePreviousImage (images : list ImageMetadata.t)
    (selectedImage : option ImageMetadata.t) : option ImageMetadata.t :=
  match selectedImage with
  | None => None
  | Some s =>
      let i := currentIndex images s in
      if 0 <? i then array_get images (i - 1) else Some s
  end.

Definition getCurrentImageIndex (images : list ImageMetadata.t)
    (selectedImage : option ImageMetadata.t) : Z :=
  match selectedImage with
  | None => -1
  | Some s => currentIndex images s
  end.

(** The [hasNext] and [hasPrevious] props of the modal. *)
Definition hasNext (images : list ImageMetadata.t)
    (selectedImage : option ImageMetadata.t) : bool :=
  getCurrentImageIndex images selectedImage <? Z.of_nat (length images) - 1.

Definition hasPrevious (images : list ImageMetadata.t)
    (selectedImage : option ImageMetadata.t) : bool :=
  0 <? getCurrentImageIndex images selectedImage.

End Navigation.

(** ** Batch download ([handleBatchDownload], [imageService.getDownloadUrl]) *)

Module BatchActions.

(** [`${baseUrl}/api/images/${id}/download?api_key=${apiKey}`]. *)
Definition getDownloadUrl (baseUrl : string) (apiKey : option string) (id : string)
    : string :=
  baseUrl +:+ "/api/images/" +:+ id +:+ "/download?api_key="
  +:+ match apiKey with Some k => k | None => "null" end.

(** [images.filter(img => imageSelection.selectedIds.has(img.id))]. *)
Definition selectedImages (images : list ImageMetadata.t) (selectedIds : gset string)
    : list ImageMetadata.t :=
  array_filter (λ img, bool_decide (ImageMetadata.id img ∈ selectedIds)) images.

(** The urls that [handleBatchDownload()] opens, in order. *)
Definition handleBatchDownload (baseUrl : string) (apiKey : option string)
    (images : list ImageMetadata.t) (selectedIds : gset string) : list string :=
  (λ img, getDownloadUrl baseUrl apiKey (ImageMetadata.id img))
    <$> selectedImages images selectedIds.

End BatchActions.

(** ** The settings panel that writes the overrides ([AdvancedSettings]) *)

Module AdvancedSettings.

(** [{ ...fields, [key]: value }] on the field list of an object: the value
    of an existing property is replaced where it stands, a new property
    comes last (a name that spells an array index is listed before the
    others by the engine; no statement below depends on the order). *)
Definition set_field (key : string) (value : Js.value)
    (fields : list (string * Js.value)) : list (string * Js.value) :=
  if some (λ kv, bool_decide (kv.1 = key)) fields then
    (λ kv, if bool_decide (kv.1 = key) then (key, value) else kv) <$> fields
  else (fields ++ [(key, value)])%list.

(** [delete fields[key]]. *)
Definition delete_field (key : string) (fields : list (string * Js.value))
    : list (string * Js.value) :=
  array_filter (λ kv, negb (bool_decide (kv.1 = key))) fields.

(** The fields of [workflowId ? overrides[workflowId] || {} : {}]; the
    state cell [overrides] is the field list of an object. *)
Definition currentOverrides (overrides : list (string * Js.value))
    (workflowId : option string) : list (string * Js.value) :=
  match LocalGeneration.or_undefined workflowId with
  | Some w =>
      let stored := Js.assoc w overrides in
      if Js.truthy stored then Js.entries stored else []
  | None => []
  end.

(** [updateOverride(key, value)]: the new value of [overrides]. *)
Definition updateOverride (workflowId : option string) (key : string) (value : Js.value)
    (overrides : list (string * Js.value)) : list (string * Js.value) :=
  match LocalGeneration.or_undefined workflowId with
  | Some w =>
      set_field w (Js.Obj (set_field key value (currentOverrides overrides workflowId)))
        overrides
  | None => overrides
  end.

(** [resetOverrides()]. *)
Definition resetOverrides (workflowId : option string)
    (overrides : list (string * Js.value)) : list (string * Js.value) :=
  match LocalGeneration.or_undefined workflowId with
  | Some w => delete_field w overrides
  | None => overrides
  end.

End AdvancedSettings.

(** ** Credentials ([ApiService]) *)

Module Session.

(** The field [apiKey] of the service object, and [localStorage]. *)
Definition world : Type := option string * gmap string string.

(** The constructor reads the key back from the store. *)
Definition constructor (localStorage : gmap string string) : world :=
  (localStorage !! "api_key", localStorage).

Definition setApiKey (key : string) (w : world) : world :=
  (Some key, <["api_key" := key]> w.2).

Definition getApiKey (w : world) : option string := w.1.

Definition clearApiKey (w : world) : world := (None, delete "api_key" w.2).

End Session.

(** ** A text value in the persistence hook *)

Module StoredText.

Section Text.

(** [JSON.parse]; [None] when it raises. *)
Variable JSON_parse : string → option Js.value.
Variable JSON_stringify : Js.value → string.

(** [typeof value === 'string' ? value : JSON.stringify(value)]. *)
Definition store (value : Js.value) : string :=
  match value with
  | Js.Str s => s
  | _ => JSON_stringify value
  end.

(** [try { return JSON.parse(item) } catch { return item }]. *)
Definition load (item : string) : Js.value :=
  match JSON_parse item with
  | Some v => v
  | None => Js.Str item
  end.

End Text.

End StoredText.

(** ** Logout ([handleLogout]) *)

Module Logout.

(** What [handleLogout] acts on: the service object with [localStorage],
    the three cells it resets that [useLocalStorageSync] keeps, the
    history, the banner, the pending timers and the channel manager.  (It
    also resets the key field, the workflow list and the flag that shows
    the key screen, plain cells that nothing here reads.) *)
Record app := App_ {
  apiService : Session.world;
  selectedWorkflow : @LocalStorageSync.hook Js.value;
  prompt : @LocalStorageSync.hook Js.value;
  generatingImages : @LocalStorageSync.hook (list GeneratingImage.t);
  images : list ImageMetadata.t;
  error : option string;
  timers : list (Z * App.timeout);
  wsManager : WebSocketManager.manager
}.

(** [handleLogout()]. *)
Definition handleLogout (s : app) : app :=
  let service := Session.clearApiKey (apiService s) in
  let jobs := LocalStorageSync.setValue (λ _, []) (generatingImages s, service.2) in
  let workflow := LocalStorageSync.setValue (λ _, Js.Null) (selectedWorkflow s, jobs.2) in
  let text := LocalStorageSync.setValue (λ _, Js.Str "") (prompt s, workflow.2) in
  App_ (service.1, text.2) workflow.1 text.1 jobs.1 [] None (timers s)
       (WebSocketManager.disconnectAll (wsManager s)).

(** The [i]-th pending timer fires. *)
Definition timer_fires (i : nat) (s : app) : app :=
  match timers s !! i with
  | Some (_, App.RemoveGenerating id) =>
      let jobs := LocalStorageSync.setValue (App.remove_job id)
                    (generatingImages s, (apiService s).2) in
      App_ ((apiService s).1, jobs.2) (selectedWorkflow s) (prompt s) jobs.1
           (images s) (error s) (delete i (timers s)) (wsManager s)
  | None => s
  end.

Section Effects.

(** [JSON.stringify], on a value and on the placeholder list. *)
Variable JSON_stringify : Js.value → string.
Variable stringify_jobs : list GeneratingImage.t → string.

(** The effects of the three cells after a render, in the order of their
    hooks in [AppContent]; none of them is debounced. *)
Definition effects (s : app) : app :=
  let workflow :=
    LocalStorageSync.step (StoredText.store JSON_stringify) "lastSelectedWorkflow" None
      (selectedWorkflow s, (apiService s).2) LocalStorageSync.Effect in
  let text :=
    LocalStorageSync.step (StoredText.store JSON_stringify) "lastPrompt" None
      (prompt s, workflow.2) LocalStorageSync.Effect in
  let jobs :=
    LocalStorageSync.step stringify_jobs "generatingImages" None
      (generatingImages s, text.2) LocalStorageSync.Effect in
  App_ ((apiService s).1, jobs.2) workflow.1 text.1 jobs.1 (images s) (error s)
       (timers s) (wsManager s).

End Effects.

End Logout.

(** ** Closing states of sockets *)

Module Closing.

(** The state [ws.close()] leaves a socket in. *)
Definition closed_by_close (s : WebSocketManager.readyState) : WebSocketManager.readyState :=
  match s with
  | WebSocketManager.CONNECTING | WebSocketManager.OPEN => WebSocketManager.CLOSING
  | _ => s
  end.

(** A socket that may still deliver or is about to. *)
Definition live (s : WebSocketManager.readyState) : bool :=
  match s with
  | WebSocketManager.CONNECTING | WebSocketManager.OPEN => true
  | _ => false
  end.

(** The job id a recorded callback was invoked with. *)
Definition job_of (c : WebSocketManager.callback) : string :=
  match c with
  | WebSocketManager.onProgress p _ => p
  | WebSocketManager.onComplete p _ => p
  | WebSocketManager.onError p _ => p
  end.

End Closing.

(** ** Further concrete inputs *)

Module MoreExamples.

(** The frame [{ type: 'progress', data: { status: 'completed' } }] in JSON
    and the value it parses to. *)
Definition completed_text : string :=
  "{" +:+ Examples.quoted "type" +:+ ":" +:+ Examples.quoted "progress" +:+ ","
  +:+ Examples.quoted "data" +:+ ":{" +:+ Examples.quoted "status" +:+ ":"
  +:+ Examples.quoted "completed" +:+ "}}".

Definition completed_value : Js.value :=
  Js.Obj [("type", Js.Str "progress");
          ("data", Js.Obj [("status", Js.Str "completed")])].

(** [JSON.parse] on that frame and on the texts of [Examples.JSON_parse]. *)
Definition JSON_parse (text : string) : option Js.value :=
  if bool_decide (text = completed_text) then Some completed_value
  else Examples.JSON_parse text.

(** A manager with one open socket for [job-1]. *)
Definition one_open : WebSocketManager.manager :=
  WebSocketManager.run JSON_parse WebSocketManager.empty
    [WebSocketManager.Connect "job-1" "wf" "sunset" Js.Null;
     WebSocketManager.Opened 0].

(** A serialiser for stored values that are no strings; the examples store
    strings only. *)
Definition JSON_stringify (v : Js.value) : string := "null".

(** Collaborators that accept a local submission as job [job-7], with the
    other services down. *)
Definition accepting : ∀ A, Api.request A → Async.result A :=
  λ A req,
    match req in Api.request T return Async.result T with
    | Api.generationService_generate _ =>
        Async.Fulfilled (Api.GenerationResponse_ "job-7" "queued" None)
    | _ => Async.Rejected (Some "Network Error")
    end.

(** The remote service succeeds with artifact [a]; the history answers
    with the given page. *)
Definition remote_ok (page : list ImageMetadata.t) : ∀ A, Api.request A → Async.result A :=
  λ A req,
    match req in Api.request T return Async.result T with
    | Api.googleAiService_generate _ =>
        Async.Fulfilled (Api.GoogleAIGenerateResponse_ "success" "ok" (Some "a"))
    | Api.imageService_list _ _ =>
        Async.Fulfilled (Api.ImageListResponse_ page (Z.of_nat (length page)) 1 50)
    | _ => Async.Rejected (Some "Network Error")
    end.

(** Two tracked jobs and a history of two artifacts. *)
Definition two_jobs : App.state :=
  App.State [Examples.job "job-1" "processing" (Some 1000);
             Examples.job "job-2" "queued" (Some 2000)]
            [Examples.image "b" 50; Examples.image "c" 40] None [].

(** The pager after the first page: twenty images held, more to come. *)
Definition first_page : list ImageMetadata.t :=
  (λ n : nat, Examples.image (pretty n) (1000 - Z.of_nat n)) <$> seq 0 20.

Definition after_first_page : Pager.state := Pager.State first_page 1 true false.

(** A cell after its mount on an empty store and the effect of the mount. *)
Definition mounted {T} (initialValue : T) : @LocalStorageSync.hook T :=
  LocalStorageSync.Hook initialValue false None false.

(** The component of a session with key [k3y]: workflow [wf] selected, the
    default prompt, two tracked jobs with a timer armed for the first, and
    the store as the hooks and the service have written it. *)
Definition logged_in : Logout.app :=
  Logout.App_
    (Some "k3y",
     {["api_key" := "k3y"; "lastSelectedWorkflow" := "wf";
       "generatingImages" := "job-1,job-2"]})
    (mounted (Js.Str "wf")) (mounted (Js.Str "a beautiful landscape"))
    (mounted (App.generatingImages two_jobs))
    (App.images two_jobs) None [(2000, App.RemoveGenerating "job-1")] one_open.

(** A prompt of a space, a no-break space (U+00A0) and an ideographic
    space (U+3000). *)
Definition blank_prompt : string := Examples.utf8 [32; 194; 160; 227; 128; 128].

(** The history answers every page with the two images given. *)
Definition short_page : ∀ A, Api.request A → Async.result A :=
  Examples.history [Examples.image "y" 2; Examples.image "z" 1].

(** The overrides of workflow [wf] before the panel sets [steps] to [30];
    the state afterwards is [Examples.overrides_value]. *)
Definition overrides_before : list (string * Js.value) :=
  [("wf", Js.Obj [("steps", Js.Num 20 0); ("seed", Js.Str ""); ("sampler", Js.Null)])].

End MoreExamples.

(** * Properties *)

(** ** Arrays *)

Lemma array_get_of_nat {A} (l : list A) (i : nat) :
  array_get l (Z.of_nat i) = l !! i.
Proof.
  unfold array_get. destruct (Z.ltb_spec (Z.of_nat i) 0) as [H|H]; [lia|].
  by rewrite Nat2Z.id.
Qed.

Lemma array_get_negative {A} (l : list A) (i : Z) : i < 0 → array_get l i = None.
Proof. intros H. unfold array_get. by destruct (Z.ltb_spec i 0); [|lia]. Qed.

Lemma array_get_beyond {A} (l : list A) (i : Z) :
  Z.of_nat (length l) ≤ i → array_get l i = None.
Proof.
  intros H. unfold array_get. destruct (Z.ltb_spec i 0); [done|].
  apply lookup_ge_None. lia.
Qed.

(** [findIndex] returns the first position that satisfies the predicate. *)
Lemma findIndex_from_found {A} (p : A → bool) (l : list A) (b : Z) (i : nat) (x : A) :
  l !! i = Some x → p x = true →
  ∃ k y, (k ≤ i)%nat ∧ l !! k = Some y ∧ p y = true
         ∧ (∀ j z, (j < k)%nat → l !! j = Some z → p z = false)
         ∧ findIndex_from p l b = b + Z.of_nat k.
Proof.
  revert b i. induction l as [|a l IH]; intros b i Hi Hp; [done|].
  simpl. destruct (p a) eqn:Ha.
  - exists O, a. split_and!; [lia|done|done| |lia]. intros j z Hj. lia.
  - destruct i as [|i]; simpl in Hi; [congruence|].
    destruct (IH (b + 1) i Hi Hp) as (k & y & Hk & Hy & Hpy & Hfirst & Heq).
    exists (S k), y. split_and!; [lia|done|done| |lia].
    intros [|j] z Hj Hz; simpl in Hz; [congruence|]. apply (Hfirst j); [lia|done].
Qed.

Lemma findIndex_from_absent {A} (p : A → bool) (l : list A) (b : Z) :
  (∀ x, x ∈ l → p x = false) → findIndex_from p l b = -1.
Proof.
  revert b. induction l as [|a l IH]; intros b H; [done|].
  simpl. rewrite (H a) by set_solver. apply IH. intros x Hx. apply H. set_solver.
Qed.

(** ** Selection model *)

Section Selection.

Import ImageSelection.

Implicit Types (images : list ImageMetadata.t) (st : state).

(** Where a click on the item at position [i] is recorded: the first
    position that carries the same id. *)
Lemma clicked_index images (i : nat) (img : ImageMetadata.t) :
  images !! i = Some img →
  ∃ k y, (k ≤ i)%nat ∧ images !! k = Some y
         ∧ ImageMetadata.id y = ImageMetadata.id img
         ∧ (NoDup (ImageMetadata.id <$> images) → k = i)
         ∧ findIndex (λ x, bool_decide (ImageMetadata.id x = ImageMetadata.id img)) images
           = Z.of_nat k.
Proof.
  intros Hi.
  destruct (findIndex_from_found
              (λ x, bool_decide (ImageMetadata.id x = ImageMetadata.id img))
              images 0 i img Hi) as (k & y & Hk & Hy & Hpy & _ & Heq).
  { by apply bool_decide_eq_true. }
  apply bool_decide_eq_true in Hpy.
  exists k, y. repeat split; try done.
  intros Hnd. eapply NoDup_lookup; [exact Hnd| |].
  - rewrite list_lookup_fmap, Hy. simpl. reflexivity.
  - rewrite list_lookup_fmap, Hi. simpl. by rewrite Hpy.
Qed.

(** The range loop stays inside the list when both ends do. *)
Lemma add_range_in_bounds images (n lo : nat) (S0 : gset string) :
  (lo + n ≤ length images)%nat →
  add_range images (Z.of_nat lo) n S0
  = inr (S0 ∪ list_to_set (ImageMetadata.id <$> take n (drop lo images))).
Proof.
  revert lo S0. induction n as [|n IH]; intros lo S0 Hlen; simpl.
  - f_equal. set_solver.
  - rewrite array_get_of_nat.
    destruct (lookup_lt_is_Some_2 images lo) as [x Hx]; [lia|].
    rewrite Hx. replace (Z.of_nat lo + 1) with (Z.of_nat (S lo)) by lia.
    rewrite IH by lia. rewrite (drop_S _ _ _ Hx). simpl. f_equal. set_solver.
Qed.

Lemma elem_of_ids_between images (lo hi k : nat) (x : ImageMetadata.t) :
  (lo ≤ k ≤ hi)%nat → images !! k = Some x →
  ImageMetadata.id x ∈ ids_between images lo hi.
Proof.
  intros Hk Hx. unfold ids_between. apply elem_of_list_to_set.
  apply list_elem_of_fmap. exists x. split; [done|].
  apply list_elem_of_lookup. exists (k - lo)%nat.
  rewrite lookup_take_lt by lia. rewrite lookup_drop.
  by replace (lo + (k - lo))%nat with k by lia.
Qed.

(** A plain click flips one id and records where it was found. *)
Lemma plain_click images st (a : string) :
  ∃ S1, toggleSelection images a false st
        = Updated (State S1 (Some (findIndex
                     (λ x, bool_decide (ImageMetadata.id x = a)) images)))
        ∧ ∀ R : gset string, a ∈ R → S1 ∪ R = selectedIds st ∪ R.
Proof.
  unfold toggleSelection. eexists. split; [reflexivity|].
  intros R Ha. case_bool_decide.
  - apply set_eq. intros x. rewrite !elem_of_union, elem_of_difference, elem_of_singleton.
    destruct (decide (x = a)) as [->|]; naive_solver.
  - set_solver.
Qed.

(** A click on the item at [i] followed by a shift-click on the item at
    [j]: what is selected afterwards. *)
Lemma click_then_shift_click_selects images st (i j : nat) (imgi imgj : ImageMetadata.t) :
  images !! i = Some imgi → images !! j = Some imgj →
  ∃ (ki kj : nat) (s : state),
    (ki ≤ i)%nat ∧ (kj ≤ j)%nat
    ∧ (NoDup (ImageMetadata.id <$> images) → ki = i ∧ kj = j)
    ∧ findIndex (λ x, bool_decide (ImageMetadata.id x = ImageMetadata.id imgi)) images
      = Z.of_nat ki
    ∧ findIndex (λ x, bool_decide (ImageMetadata.id x = ImageMetadata.id imgj)) images
      = Z.of_nat kj
    ∧ click_then_shift_click images (ImageMetadata.id imgi) (ImageMetadata.id imgj) st
      = Updated s
    ∧ selectedIds s = selectedIds st ∪ ids_between images (ki `min` kj) (ki `max` kj).
Proof.
  intros Hi Hj.
  destruct (clicked_index images i imgi Hi) as (ki & yi & Hki & Hyi & Hidi & Hndi & Hfi).
  destruct (clicked_index images j imgj Hj) as (kj & yj & Hkj & Hyj & Hidj & Hndj & Hfj).
  destruct (plain_click images st (ImageMetadata.id imgi)) as (S1 & Hclick & Hflip).
  exists ki, kj. eexists. repeat split; [done|done|by apply Hndi|by apply Hndj|done|done| |].
  - unfold click_then_shift_click. rewrite Hclick. simpl.
    unfold toggleSelection. simpl. rewrite Hfi, Hfj.
    replace (Z.of_nat ki `min` Z.of_nat kj) with (Z.of_nat (ki `min` kj)) by lia.
    replace (Z.to_nat (Z.of_nat ki `max` Z.of_nat kj - Z.of_nat (ki `min` kj) + 1))
      with (S (ki `max` kj) - ki `min` kj)%nat by lia.
    rewrite add_range_in_bounds; [reflexivity|].
    apply lookup_lt_Some in Hyi. apply lookup_lt_Some in Hyj. lia.
  - simpl. fold (ids_between images (ki `min` kj) (ki `max` kj)).
    apply Hflip. rewrite <- Hidi. apply (elem_of_ids_between images _ _ ki yi); [lia|done].
Qed.

(** C8.  Shift-click range selection is symmetric: for two items present in
    the list at positions [i] and [j], clicking the first and shift-clicking
    the second selects the same set as clicking the second and shift-clicking
    the first; neither order raises, and when the ids of the list are
    pairwise distinct the result is the previous selection together with the
    ids of all positions from [min i j] to [max i j]. *)
Theorem shift_click_range_symmetric images st (i j : nat) (imgi imgj : ImageMetadata.t) :
  images !! i = Some imgi → images !! j = Some imgj →
  ∃ s1 s2 : state,
    click_then_shift_click images (ImageMetadata.id imgi) (ImageMetadata.id imgj) st
    = Updated s1
    ∧ click_then_shift_click images (ImageMetadata.id imgj) (ImageMetadata.id imgi) st
      = Updated s2
    ∧ selectedIds s1 = selectedIds s2
    ∧ (NoDup (ImageMetadata.id <$> images) →
       selectedIds s1 = selectedIds st ∪ ids_between images (i `min` j) (i `max` j)).
Proof.
  intros Hi Hj.
  destruct (click_then_shift_click_selects images st i j imgi imgj Hi Hj)
    as (ki & kj & s1 & _ & _ & Hnd & Hfi & Hfj & H1 & Hs1).
  destruct (click_then_shift_click_selects images st j i imgj imgi Hj Hi)
    as (kj' & ki' & s2 & _ & _ & _ & Hfj' & Hfi' & H2 & Hs2).
  assert (ki' = ki) as -> by lia. assert (kj' = kj) as -> by lia.
  exists s1, s2. repeat split; [done|done| |].
  - rewrite Hs1, Hs2. by rewrite (Nat.min_comm kj ki), (Nat.max_comm kj ki).
  - intros Hnodup. destruct (Hnd Hnodup) as [-> ->]. exact Hs1.
Qed.

End Selection.

Section SelectionBounds.

Import ImageSelection.

(** A shift-click on an id that the list does not hold, with a previous
    click recorded, starts the range loop at a negative position. *)
Lemma shift_click_absent_raises (images : list ImageMetadata.t) (imageId : string)
    (S0 : gset string) (prev : Z) :
  (∀ img, img ∈ images → ImageMetadata.id img ≠ imageId) →
  toggleSelection images imageId true (State S0 (Some prev))
  = TypeError (Z.min prev (-1)).
Proof.
  intros Habsent. unfold toggleSelection, findIndex. simpl.
  rewrite findIndex_from_absent.
  2:{ intros x Hx. apply bool_decide_eq_false. by apply Habsent. }
  destruct (Z.to_nat (Z.max prev (-1) - Z.min prev (-1) + 1)) as [|n] eqn:Hn; [lia|].
  simpl. by rewrite array_get_negative by lia.
Qed.

(** A shift-click after the list has shrunk below the recorded position
    runs the range loop past the end of the list. *)
Lemma shift_click_stale_index_raises (images : list ImageMetadata.t) (i : nat)
    (img : ImageMetadata.t) (S0 : gset string) (prev : Z) :
  images !! i = Some img → Z.of_nat (length images) ≤ prev →
  toggleSelection images (ImageMetadata.id img) true (State S0 (Some prev))
  = TypeError (Z.of_nat (length images)).
Proof.
  intros Hi Hprev.
  destruct (clicked_index images i img Hi) as (k & y & Hk & Hy & _ & _ & Hf).
  unfold toggleSelection. simpl. rewrite Hf.
  pose proof (lookup_lt_Some _ _ _ Hy) as Hlt.
  replace (prev `min` Z.of_nat k) with (Z.of_nat k) by lia.
  replace (prev `max` Z.of_nat k) with prev by lia.
  assert (∀ (n lo : nat) (S1 : gset string),
            (lo ≤ length images)%nat → (length images < lo + n)%nat →
            add_range images (Z.of_nat lo) n S1 = inl (Z.of_nat (length images))) as Hloop.
  { induction n as [|n IH]; intros lo S1 Hlo Hn; [lia|]. simpl.
    rewrite array_get_of_nat. destruct (images !! lo) as [x|] eqn:Hx.
    - apply lookup_lt_Some in Hx.
      replace (Z.of_nat lo + 1) with (Z.of_nat (S lo)) by lia. apply IH; lia.
    - apply lookup_ge_None in Hx. do 2 f_equal. lia. }
  rewrite Hloop; [done|lia|lia].
Qed.

(** C10.  [toggleSelection] reads positions outside the list.  With one
    image in the list and a previous click recorded at position [0], a
    shift-click on an id that is not in the list reads [images[-1]] and
    raises; and when a click was recorded at position [2] of a list that has
    since shrunk to two images, a shift-click on the first image reads
    [images[2]] and raises. *)
Theorem toggleSelection_reads_outside_the_list :
  toggleSelection [Examples.image "a" 60] "zzz" true (State ∅ (Some 0))
  = TypeError (-1)
  ∧ toggleSelection [Examples.image "a" 60; Examples.image "b" 50] "a" true
      (State {["c"]} (Some 2))
    = TypeError 2.
Proof.
  split.
  - rewrite shift_click_absent_raises; [done|].
    intros img Himg. apply list_elem_of_singleton in Himg. by subst.
  - by rewrite (shift_click_stale_index_raises _ 0%nat (Examples.image "a" 60)).
Qed.

(** [selectAll()] followed by [clearSelection()] leaves nothing selected,
    whatever the list is. *)
Lemma selectAll_then_clear (images : list ImageMetadata.t) (st : state) :
  clearSelection (selectAll images st) = State ∅ None.
Proof. done. Qed.

End SelectionBounds.

(** The specification's example for C8: positions [5] and [2] of a list of six. *)
Lemma shift_click_range_symmetric_witness :
  ∃ s1 s2 : ImageSelection.state,
    ImageSelection.click_then_shift_click Examples.six_images "f" "c"
      Examples.nothing_selected = ImageSelection.Updated s1
    ∧ ImageSelection.click_then_shift_click Examples.six_images "c" "f"
        Examples.nothing_selected = ImageSelection.Updated s2
    ∧ ImageSelection.selectedIds s1 = ImageSelection.selectedIds s2
    ∧ (NoDup (ImageMetadata.id <$> Examples.six_images) →
       ImageSelection.selectedIds s1
       = ImageSelection.selectedIds Examples.nothing_selected
         ∪ ImageSelection.ids_between Examples.six_images (5 `min` 2) (5 `max` 2)).
Proof.
  apply (shift_click_range_symmetric Examples.six_images Examples.nothing_selected
           5 2 (Examples.image "f" 10) (Examples.image "c" 40)); reflexivity.
Defined.

(** ** Progress channel manager *)

Section Channels.

Import WebSocketManager.

(** [connect] closes the socket the map holds for the job when that socket
    is open, and registers the new socket under the job id. *)
Lemma connect_registers (p w pr : string) (o : Js.value) (m : manager) :
  ∃ h, wsMap (connect p w pr o m) !! p = Some h
       ∧ sockets (connect p w pr o m) !! h = Some (Socket p w pr o CONNECTING).
Proof.
  unfold connect. eexists. simpl. split; [apply lookup_insert_eq|].
  by rewrite lookup_app_r, Nat.sub_diag.
Qed.

Lemma connect_closes_tracked_open (p w pr : string) (o : Js.value) (m : manager) (h : nat) :
  wsMap m !! p = Some h → readyState_of m h = Some OPEN →
  readyState_of (connect p w pr o m) h = Some CLOSING.
Proof.
  intros Hmap Hopen. unfold connect. rewrite Hmap, Hopen.
  unfold ws_close. rewrite Hopen. unfold readyState_of in *. simpl.
  destruct (sockets m !! h) as [ws|] eqn:Hws; [|done].
  rewrite lookup_app_l.
  2:{ rewrite length_alter. by apply lookup_lt_Some in Hws. }
  by rewrite list_lookup_alter_eq, Hws.
Qed.

(** The [close] handler of any socket of a job removes the map entry of
    that job, whichever socket the entry holds. *)
Lemma onclose_forgets (h : nat) (ws : WebSocket) (m : manager) :
  sockets m !! h = Some ws → wsMap (onclose h m) !! promptId ws = None.
Proof. intros Hws. unfold onclose. rewrite Hws. simpl. apply lookup_delete_eq. Qed.

(** C1.  The manager does not keep one live channel per job.  When a job id
    is connected again while its socket is open, the old socket is closed
    and the new one registered; the [close] event of the old socket then
    deletes the entry of the new one, so that the map holds nothing for the
    job while socket [1] is open; a further [connect] finds nothing to
    close, and sockets [1] and [2] of the same job are open together.  The
    same happens when a job is connected again while its first socket is
    still connecting. *)
Theorem connect_leaves_two_open_channels :
  (let m := run Examples.JSON_parse empty (take 5 (Examples.reconnects "job-1")) in
   wsMap m !! "job-1" = None ∧ open_sockets "job-1" m = [1%nat])
  ∧ (let m := run Examples.JSON_parse empty (Examples.reconnects "job-1") in
     wsMap m !! "job-1" = Some 2%nat ∧ open_sockets "job-1" m = [1%nat; 2%nat])
  ∧ open_sockets "job-1" (run Examples.JSON_parse empty (Examples.connects_twice "job-1"))
    = [0%nat; 1%nat].
Proof. vm_compute. done. Qed.

(** A [message] event whose text is no JSON, or whose JSON is [null],
    leaves the whole manager as it was, up to one [console.error] line. *)
Lemma onmessage_parse_error (JSON_parse : string → option Js.value)
    (h : nat) (data : string) (m : manager) :
  JSON_parse data = None
  ∨ (∃ message, JSON_parse data = Some message ∧ Js.get message "type" = None) →
  onmessage JSON_parse h data m = m
  ∨ onmessage JSON_parse h data m = log_errors ["WebSocket message parse error:"] m.
Proof.
  intros Hparse. unfold onmessage. destruct (sockets m !! h) as [ws|]; [|by left].
  right. destruct Hparse as [->|(message & -> & Hget)]; [done|].
  unfold dispatch. by rewrite Hget.
Qed.

(** C7.  A message whose payload fails to parse is logged and ignored: no
    callback is invoked, nothing is sent, no socket changes its state and no
    map entry changes, so the channel stays open; on an open socket the one
    thing that happens is the [console.error] line. *)
Theorem unparsable_message_is_ignored (JSON_parse : string → option Js.value)
    (m : manager) (h : nat) (data : string) :
  JSON_parse data = None →
  let m' := step JSON_parse m (Message h data) in
  calls m' = calls m
  ∧ sent m' = sent m
  ∧ sockets m' = sockets m
  ∧ wsMap m' = wsMap m
  ∧ (∀ h', readyState_of m' h' = readyState_of m h')
  ∧ (readyState_of m h = Some OPEN →
     console_error m' = (console_error m ++ ["WebSocket message parse error:"])%list).
Proof.
  intros Hparse. simpl. unfold readyState_of.
  destruct (sockets m !! h) as [ws|] eqn:Hws; simpl; [|by split_and!].
  destruct (state ws); try by split_and!.
  unfold onmessage. rewrite Hws, Hparse. by split_and!.
Qed.

End Channels.

(** An open channel that receives text that is no JSON. *)
Lemma unparsable_message_is_ignored_witness :
  let m := WebSocketManager.run Examples.JSON_parse WebSocketManager.empty
             [WebSocketManager.Connect "job-1" "wf" "sunset" Js.Null;
              WebSocketManager.Opened 0] in
  let m' := WebSocketManager.step Examples.JSON_parse m
              (WebSocketManager.Message 0 "{oops") in
  WebSocketManager.calls m' = WebSocketManager.calls m
  ∧ WebSocketManager.sent m' = WebSocketManager.sent m
  ∧ WebSocketManager.sockets m' = WebSocketManager.sockets m
  ∧ WebSocketManager.wsMap m' = WebSocketManager.wsMap m
  ∧ (∀ h', WebSocketManager.readyState_of m' h' = WebSocketManager.readyState_of m h')
  ∧ (WebSocketManager.readyState_of m 0 = Some WebSocketManager.OPEN →
     WebSocketManager.console_error m'
     = (WebSocketManager.console_error m ++ ["WebSocket message parse error:"])%list).
Proof.
  apply (unparsable_message_is_ignored Examples.JSON_parse). reflexivity.
Defined.

(** ** Persistence of the placeholder list *)

Section Persistence.

Import LocalStorageSync.

Context {T : Type}.
Variable store : T → string.
Variable key : string.

(** The cell holds an array that every update builds anew, as the
    placeholder list is: no update is skipped. *)
#[local] Existing Instance built_anew.

Implicit Types (w : @world T) (action : T → T).

(** The state update alone leaves [localStorage] as it was. *)
Lemma setValue_keeps_storage w action :
  (setValue action w).2 = w.2 ∧ value (setValue action w).1 = action (value w.1).
Proof. done. Qed.

(** Without a debounce, the effect that follows a render writes the
    rendered value. *)
Lemma effect_writes w :
  isInitialMount w.1 = false → synced store key (effect store key None w).
Proof.
  intros Hmount. unfold effect, synced. rewrite Hmount. simpl.
  unfold saveToLocalStorage. apply lookup_insert_eq.
Qed.

Lemma step_written_through w (e : event) :
  written_through store key w → written_through store key (step store key None w e).
Proof.
  intros (Hmount & Htimer & Hsync). destruct e as [action| |]; simpl.
  - split_and!; [done|done|]. simpl. discriminate.
  - destruct (effect_due w.1) eqn:Hdue;
      [|split_and!; [done|done|intros _; by apply Hsync]].
    unfold written_through, effect. rewrite Hmount. simpl. split_and!; [done|done|].
    intros _. unfold synced. simpl. apply lookup_insert_eq.
  - unfold timer_fires. rewrite Htimer. by split_and!.
Qed.

Lemma run_written_through w (es : list event) :
  written_through store key w → written_through store key (run store key None w es).
Proof.
  revert w. induction es as [|e es IH]; intros w Hw; [done|].
  simpl. apply IH. by apply step_written_through.
Qed.

(** C4, as the code has it.  The hook persists through the effect that
    follows each render, undebounced for the placeholder list: once the
    mount effect has run, after any update of the list (every one builds a
    new array, so none is skipped) and whatever happens next, the persisted
    snapshot is the serialised in-memory value at every point where the
    effect of the last render has run; the update itself leaves the store
    as it was. *)
Theorem persisted_once_effect_has_run w action (es : list event) :
  isInitialMount w.1 = false → debounceTimer w.1 = None →
  (setValue action w).2 = w.2
  ∧ (let w' := run store key None (setValue action w) es in
     effect_due w'.1 = false → synced store key w').
Proof.
  intros Hmount Htimer. split; [done|].
  apply (run_written_through (setValue action w) es).
  split_and!; [done|done|]. simpl. discriminate.
Qed.

End Persistence.

(** The placeholder list after the mount effect: a job is created, the
    effect runs, the job is evicted, the effect runs. *)
Lemma persisted_once_effect_has_run_witness :
  let w := LocalStorageSync.step Examples.store "generatingImages" None
             (LocalStorageSync.mount Examples.load "generatingImages" [] ∅)
             LocalStorageSync.Effect in
  let action := λ prev, Examples.job "job-1" "queued" (Some 1000) :: prev in
  (LocalStorageSync.setValue action w).2 = w.2
  ∧ (let w' := LocalStorageSync.run Examples.store "generatingImages" None
                 (LocalStorageSync.setValue action w)
                 [LocalStorageSync.Effect;
                  LocalStorageSync.SetValue (App.remove_job "job-1");
                  LocalStorageSync.Effect] in
     LocalStorageSync.effect_due w'.1 = false →
     LocalStorageSync.synced Examples.store "generatingImages" w').
Proof.
  apply (persisted_once_effect_has_run Examples.store "generatingImages"); reflexivity.
Defined.

(** C4 as stated fails.  After the mount effect, the creation of a
    placeholder leaves the in-memory list with one job while the store
    holds nothing under the key; and after that job was persisted, its
    eviction leaves the in-memory list empty while the store still holds
    the job.  Both are states between a render and its effect. *)
Lemma persistence_lags_the_update :
  (let w := LocalStorageSync.run Examples.store "generatingImages" None
              (LocalStorageSync.mount Examples.load "generatingImages" [] ∅)
              [LocalStorageSync.Effect;
               LocalStorageSync.SetValue
                 (λ prev, Examples.job "job-1" "queued" (Some 1000) :: prev)] in
   LocalStorageSync.value w.1 = [Examples.job "job-1" "queued" (Some 1000)]
   ∧ w.2 !! "generatingImages" = None
   ∧ ¬ LocalStorageSync.synced Examples.store "generatingImages" w)
  ∧ (let w := LocalStorageSync.run Examples.store "generatingImages" None
                (LocalStorageSync.mount Examples.load "generatingImages" [] ∅)
                [LocalStorageSync.Effect;
                 LocalStorageSync.SetValue
                   (λ prev, Examples.job "job-1" "queued" (Some 1000) :: prev);
                 LocalStorageSync.Effect;
                 LocalStorageSync.SetValue (App.remove_job "job-1")] in
     LocalStorageSync.value w.1 = []
     ∧ w.2 !! "generatingImages" = Some "job-1"
     ∧ ¬ LocalStorageSync.synced Examples.store "generatingImages" w).
Proof.
  split.
  - split_and!; [reflexivity|reflexivity|]. unfold LocalStorageSync.synced. by vm_compute.
  - split_and!; [reflexivity|by vm_compute|]. unfold LocalStorageSync.synced. by vm_compute.
Qed.

(** ** Submission failures *)

Section Submission.

Implicit Types (answer : ∀ A, Api.request A → Async.result A) (st : App.state).




End Submission.



(** ** The placeholder list under its updates *)

Section PlaceholderList.

Import App.

Implicit Types (p : string) (l : list GeneratingImage.t).

Lemma update_job_lookup p (f : GeneratingImage.t → GeneratingImage.t) l (i : nat) :
  update_job p f l !! i
  = (λ g, if bool_decide (GeneratingImage.id g = p) then f g else g) <$> l !! i.
Proof. unfold update_job. apply list_lookup_fmap. Qed.

(** An update that keeps ids keeps the ids of the list, in order. *)
Lemma update_job_ids p (f : GeneratingImage.t → GeneratingImage.t) l :
  (∀ g, GeneratingImage.id (f g) = GeneratingImage.id g) →
  GeneratingImage.id <$> update_job p f l = GeneratingImage.id <$> l.
Proof.
  intros Hf. unfold update_job. rewrite <- list_fmap_compose. apply list_fmap_ext.
  intros i g _. simpl. by case_bool_decide.
Qed.

(** A job that is not tracked is not updated. *)
Lemma update_job_untracked p (f : GeneratingImage.t → GeneratingImage.t) l :
  (∀ g, g ∈ l → GeneratingImage.id g ≠ p) → update_job p f l = l.
Proof.
  intros Hp. unfold update_job. induction l as [|g l IH]; [done|].
  rewrite fmap_cons. rewrite bool_decide_false by (apply Hp; by left).
  f_equal. apply IH. intros x Hx. apply Hp. by right.
Qed.

Lemma remove_job_untracked p l :
  (∀ g, g ∈ l → GeneratingImage.id g ≠ p) → remove_job p l = l.
Proof.
  intros Hp. unfold remove_job, array_filter. induction l as [|g l IH]; [done|].
  simpl. rewrite bool_decide_false by (apply Hp; by left). simpl.
  f_equal. apply IH. intros x Hx. apply Hp. by right.
Qed.

(** Removing a job after updating it is removing it. *)
Lemma remove_job_update_job p (f : GeneratingImage.t → GeneratingImage.t) l :
  (∀ g, GeneratingImage.id (f g) = GeneratingImage.id g) →
  remove_job p (update_job p f l) = remove_job p l.
Proof.
  intros Hf. unfold remove_job, update_job, array_filter.
  induction l as [|g l IH]; [done|]. rewrite fmap_cons.
  destruct (decide (GeneratingImage.id g = p)) as [Hg|Hg].
  - rewrite (bool_decide_true (GeneratingImage.id g = p)) by done. simpl.
    rewrite Hf, (bool_decide_true (GeneratingImage.id g = p)) by done. simpl. exact IH.
  - rewrite (bool_decide_false (GeneratingImage.id g = p)) by done. simpl.
    rewrite (bool_decide_false (GeneratingImage.id g = p)) by done. simpl.
    by rewrite IH.
Qed.

Lemma delete_appended {A} (l : list A) (x : A) :
  delete (length l) (l ++ [x])%list = l.
Proof. induction l as [|a l IH]; [done|]. simpl. by rewrite IH. Qed.

(** What is left after a removal: the placeholders of the other jobs, in
    their order. *)
Lemma remove_job_filter p l :
  remove_job p l = filter (λ g, GeneratingImage.id g ≠ p) l.
Proof.
  unfold remove_job, array_filter. induction l as [|g l IH]; [done|].
  simpl. rewrite filter_cons. destruct (decide (GeneratingImage.id g = p)) as [Hg|Hg].
  - rewrite bool_decide_true by done. simpl. by rewrite decide_False by (by intros ?).
  - rewrite bool_decide_false by done. simpl. rewrite decide_True by done. by rewrite IH.
Qed.

(** A tracked job under [{ ...img, status: s }]: its place and its other
    fields are kept. *)
Lemma update_job_with_status p (s : string) l (i : nat) (g : GeneratingImage.t) :
  l !! i = Some g → GeneratingImage.id g = p →
  ∃ g', update_job p (GeneratingImage.with_status s) l !! i = Some g'
        ∧ GeneratingImage.id g' = p
        ∧ GeneratingImage.status g' = s
        ∧ GeneratingImage.prompt g' = GeneratingImage.prompt g
        ∧ GeneratingImage.progress g' = GeneratingImage.progress g
        ∧ GeneratingImage.imageData g' = GeneratingImage.imageData g
        ∧ GeneratingImage.timestamp g' = GeneratingImage.timestamp g.
Proof.
  intros Hi Hid. rewrite update_job_lookup, Hi. simpl.
  rewrite bool_decide_true by done. eexists. split; [reflexivity|]. done.
Qed.


(** The placeholder of another job stays as it is. *)
Lemma update_job_other p (f : GeneratingImage.t → GeneratingImage.t) l (i : nat)
    (g : GeneratingImage.t) :
  l !! i = Some g → GeneratingImage.id g ≠ p → update_job p f l !! i = Some g.
Proof.
  intros Hi Hne. rewrite update_job_lookup, Hi. simpl. by rewrite bool_decide_false.
Qed.

End PlaceholderList.

(** ** Reconciliation *)

Section Reconciliation.

Implicit Types (answer : ∀ A, Api.request A → Async.result A) (st : App.state).

Lemma find_none {A} (p : A → bool) (l : list A) :
  find p l = None ↔ ∀ x, x ∈ l → p x = false.
Proof.
  induction l as [|a l IH]; simpl.
  - split; [|done]. intros _ x Hx. by apply not_elem_of_nil in Hx.
  - destruct (p a) eqn:Ha.
    + split; [done|]. intros H. specialize (H a). rewrite Ha in H.
      by discriminate H; left.
    + rewrite IH. split.
      * intros H x Hx. apply elem_of_cons in Hx as [->|Hx]; [done|by apply H].
      * intros H x Hx. apply H. by right.
Qed.

Lemma update_job_status (promptId s : string) (prev : list GeneratingImage.t)
    (g : GeneratingImage.t) :
  g ∈ App.update_job promptId (GeneratingImage.with_status s) prev →
  GeneratingImage.id g = promptId → GeneratingImage.status g = s.
Proof.
  unfold App.update_job. intros Hg Hid.
  apply list_elem_of_fmap in Hg as (g0 & -> & _).
  by case_bool_decide; simpl in *.
Qed.

Lemma remove_job_gone (promptId : string) (prev : list GeneratingImage.t)
    (g : GeneratingImage.t) :
  g ∈ App.remove_job promptId prev → GeneratingImage.id g ≠ promptId.
Proof.
  unfold App.remove_job, array_filter. intros Hg.
  apply list_elem_of_In in Hg. apply filter_In in Hg as [_ Hg].
  apply negb_true_iff in Hg. by apply bool_decide_eq_false in Hg.
Qed.

(** The two banners differ, whatever the channel reported. *)
Lemma not_found_message_distinct (error : string) :
  App.not_found_message ≠ App.channel_error_message error.
Proof. unfold App.not_found_message, App.channel_error_message. discriminate. Qed.

(** C6.  When the page fetched after a reported completion holds no
    artifact of the job, the placeholder of the job stays where it is in
    the list and is set to [failed], the placeholders of the other jobs are
    left as they are, the banner shows a message that no channel error
    produces, a timer of 3000 ms is armed whose firing leaves the list
    without the job and with every other placeholder, the history is left
    alone, and the page was fetched once: there is no retry. *)
Theorem completion_without_artifact (promptId : string) answer st
    (page : Api.ImageListResponse) :
  answer _ (Api.imageService_list 1 50) = Async.Fulfilled page →
  (∀ img, img ∈ Api.images page → ImageMetadata.prompt_id img ≠ promptId) →
  let st' := (Async.run answer (App.onComplete promptId) st).1 in
  let st'' := App.timer_fires (length (App.timers st)) st' in
  GeneratingImage.id <$> App.generatingImages st'
  = GeneratingImage.id <$> App.generatingImages st
  ∧ (∀ i g, App.generatingImages st !! i = Some g → GeneratingImage.id g = promptId →
       ∃ g', App.generatingImages st' !! i = Some g'
             ∧ GeneratingImage.id g' = promptId
             ∧ GeneratingImage.status g' = "failed"
             ∧ GeneratingImage.prompt g' = GeneratingImage.prompt g
             ∧ GeneratingImage.progress g' = GeneratingImage.progress g
             ∧ GeneratingImage.imageData g' = GeneratingImage.imageData g
             ∧ GeneratingImage.timestamp g' = GeneratingImage.timestamp g)
  ∧ (∀ i g, App.generatingImages st !! i = Some g → GeneratingImage.id g ≠ promptId →
            App.generatingImages st' !! i = Some g)
  ∧ (∀ g, g ∈ App.generatingImages st' → GeneratingImage.id g = promptId →
          GeneratingImage.status g = "failed")
  ∧ App.error st' = Some "Failed to retrieve generated image. Please check your images list."
  ∧ (∀ reason st0, App.error st' ≠ App.error (App.onError promptId reason st0))
  ∧ App.timers st' = (App.timers st ++ [(3000, App.RemoveGenerating promptId)])%list
  ∧ App.generatingImages st''
    = filter (λ g, GeneratingImage.id g ≠ promptId) (App.generatingImages st)
  ∧ App.timers st'' = App.timers st
  ∧ App.images st' = App.images st
  ∧ App.images st'' = App.images st
  ∧ Async.awaits answer (App.onComplete promptId) = 1%nat.
Proof.
  intros Hpage Habsent.
  assert (find (λ img, bool_decide (ImageMetadata.prompt_id img = promptId))
            (Api.images page) = None) as Hfind.
  { apply find_none. intros img Himg. apply bool_decide_eq_false. by apply Habsent. }
  simpl. rewrite Hpage, Hfind. simpl.
  assert ((App.timers st ++ [(3000, App.RemoveGenerating promptId)])%list
            !! length (App.timers st)
          = Some (3000, App.RemoveGenerating promptId)) as Htimer.
  { rewrite lookup_app_r by done. by rewrite Nat.sub_diag. }
  split_and!; try done.
  - by apply update_job_ids.
  - intros i g. apply update_job_with_status.
  - intros i g. apply update_job_other.
  - intros g. apply update_job_status.
  - unfold App.timer_fires. simpl. rewrite Htimer. simpl.
    rewrite remove_job_update_job by done. apply remove_job_filter.
  - unfold App.timer_fires. simpl. rewrite Htimer. simpl. apply delete_appended.
  - unfold App.timer_fires. simpl. by rewrite Htimer.
Qed.

End Reconciliation.

(** Job [job-1] of two tracked jobs completes while the first page only
    holds the artifact of another job. *)
Lemma completion_without_artifact_witness :
  let answer := Examples.history [Examples.image "a" 60] in
  let st := MoreExamples.two_jobs in
  let st' := (Async.run answer (App.onComplete "job-1") st).1 in
  let st'' := App.timer_fires (length (App.timers st)) st' in
  GeneratingImage.id <$> App.generatingImages st'
  = GeneratingImage.id <$> App.generatingImages st
  ∧ (∀ i g, App.generatingImages st !! i = Some g → GeneratingImage.id g = "job-1" →
       ∃ g', App.generatingImages st' !! i = Some g'
             ∧ GeneratingImage.id g' = "job-1"
             ∧ GeneratingImage.status g' = "failed"
             ∧ GeneratingImage.prompt g' = GeneratingImage.prompt g
             ∧ GeneratingImage.progress g' = GeneratingImage.progress g
             ∧ GeneratingImage.imageData g' = GeneratingImage.imageData g
             ∧ GeneratingImage.timestamp g' = GeneratingImage.timestamp g)
  ∧ (∀ i g, App.generatingImages st !! i = Some g → GeneratingImage.id g ≠ "job-1" →
            App.generatingImages st' !! i = Some g)
  ∧ (∀ g, g ∈ App.generatingImages st' → GeneratingImage.id g = "job-1" →
          GeneratingImage.status g = "failed")
  ∧ App.error st' = Some "Failed to retrieve generated image. Please check your images list."
  ∧ (∀ reason st0, App.error st' ≠ App.error (App.onError "job-1" reason st0))
  ∧ App.timers st' = (App.timers st ++ [(3000, App.RemoveGenerating "job-1")])%list
  ∧ App.generatingImages st''
    = filter (λ g, GeneratingImage.id g ≠ "job-1") (App.generatingImages st)
  ∧ App.timers st'' = App.timers st
  ∧ App.images st' = App.images st
  ∧ App.images st'' = App.images st
  ∧ Async.awaits answer (App.onComplete "job-1") = 1%nat.
Proof.
  apply (completion_without_artifact "job-1" (Examples.history [Examples.image "a" 60])
           MoreExamples.two_jobs
           (Api.ImageListResponse_ [Examples.image "a" 60] 1 1 50)).
  - reflexivity.
  - intros img Himg. apply list_elem_of_singleton in Himg. subst. discriminate.
Defined.

(** What the grid then holds: [job-1] failed above [job-2], and after the
    timer [job-2] alone. *)
Lemma completion_without_artifact_example :
  let answer := Examples.history [Examples.image "a" 60] in
  let st' := (Async.run answer (App.onComplete "job-1") MoreExamples.two_jobs).1 in
  App.generatingImages st'
  = [Examples.job "job-1" "failed" (Some 1000); Examples.job "job-2" "queued" (Some 2000)]
  ∧ App.generatingImages (App.timer_fires 0 st')
    = [Examples.job "job-2" "queued" (Some 2000)].
Proof. vm_compute. done. Qed.

(** ** The Visible List *)

Section VisibleList.

Import ImageGrid.

Implicit Types (gen : list GeneratingImage.t) (completed : list ImageMetadata.t).

Lemma occurrences_app (a : string) (l1 l2 : list string) :
  occurrences a (l1 ++ l2) = (occurrences a l1 + occurrences a l2)%nat.
Proof. unfold occurrences, array_filter. by rewrite List.filter_app, length_app. Qed.

Lemma occurrences_absent (a : string) (l : list string) :
  a ∉ l → occurrences a l = 0%nat.
Proof.
  unfold occurrences, array_filter. induction l as [|x l IH]; intros Ha; [done|].
  simpl. rewrite bool_decide_false by set_solver. apply IH. set_solver.
Qed.

Lemma occurrences_NoDup (a : string) (l : list string) :
  NoDup l → a ∈ l → occurrences a l = 1%nat.
Proof.
  unfold occurrences, array_filter. induction 1 as [|x l Hx Hnd IH]; intros Ha.
  - by apply not_elem_of_nil in Ha.
  - simpl. case_bool_decide as Heq.
    + subst. simpl. f_equal. by apply (occurrences_absent a l).
    + apply IH. set_solver.
Qed.

(** The cards of the historical stream show the filtered history. *)
Lemma shown_history completed :
  shown_artifacts ((λ img, image_card (ImageMetadata.id img) img) <$> completed)
  = ImageMetadata.id <$> completed.
Proof.
  unfold shown_artifacts. induction completed as [|img l IH]; [done|].
  rewrite !fmap_cons. cbn. f_equal. exact IH.
Qed.

Lemma shown_render gen completed :
  shown_artifacts (render gen completed)
  = (resolved_artifacts gen ++ historical_artifacts gen completed)%list.
Proof.
  unfold render, shown_artifacts, resolved_artifacts, historical_artifacts.
  rewrite omap_app. f_equal. apply shown_history.
Qed.

(** An id is shown through a placeholder exactly when a placeholder with
    status [completed] holds an artifact of that id. *)
Lemma elem_of_resolved_artifacts gen (a : string) :
  a ∈ resolved_artifacts gen
  ↔ ∃ g d, g ∈ gen ∧ GeneratingImage.status g = "completed"
           ∧ GeneratingImage.imageData g = Some d ∧ ImageMetadata.id d = a.
Proof.
  unfold resolved_artifacts, shown_artifacts. rewrite list_elem_of_omap. split.
  - intros (c & Hc & Hart). apply list_elem_of_fmap in Hc as (g & -> & Hg).
    unfold render_generating in Hart. case_bool_decide as Hst; [|done].
    destruct (GeneratingImage.imageData g) as [d|] eqn:Hd; [|done].
    simpl in Hart. exists g, d. by simplify_eq.
  - intros (g & d & Hg & Hst & Hd & <-). exists (render_generating g). split.
    + apply list_elem_of_fmap. by exists g.
    + unfold render_generating. by rewrite bool_decide_true, Hd.
Qed.

(** The filter of the grid: the id that a resolved placeholder shows is not
    in the historical stream. *)
Lemma resolved_not_historical gen completed (a : string) :
  a ∈ resolved_artifacts gen → a ∉ historical_artifacts gen completed.
Proof.
  rewrite elem_of_resolved_artifacts. intros (g & d & Hg & Hst & Hd & <-) Hin.
  unfold historical_artifacts, filteredImages, array_filter in Hin.
  apply list_elem_of_fmap in Hin as (img & Hid & Himg).
  apply list_elem_of_In in Himg. apply filter_In in Himg as [_ Hkeep].
  apply negb_true_iff in Hkeep.
  assert (some (shows img) gen = true) as Hsome; [|congruence].
  unfold some. apply existsb_exists. exists g. split; [by apply list_elem_of_In|].
  unfold shows. rewrite bool_decide_true by done. rewrite Hd. simpl.
  by apply bool_decide_eq_true.
Qed.

Lemma occurrences_filter_keep (a : string) (p : ImageMetadata.t → bool) completed :
  (∀ img, img ∈ completed → ImageMetadata.id img = a → p img = true) →
  occurrences a (ImageMetadata.id <$> List.filter p completed)
  = occurrences a (ImageMetadata.id <$> completed).
Proof.
  intros Hkeep. induction completed as [|x l IH]; [done|].
  assert (occurrences a (ImageMetadata.id <$> List.filter p l)
          = occurrences a (ImageMetadata.id <$> l)) as IH'.
  { apply IH. intros img Himg. apply Hkeep. by right. }
  change (x :: l) with ([x] ++ l)%list. rewrite List.filter_app, !fmap_app, !occurrences_app.
  rewrite IH'. f_equal. simpl. destruct (p x) eqn:Hp; [done|].
  unfold occurrences, array_filter. simpl. case_bool_decide as Heq; [|done].
  rewrite Hkeep in Hp; [done|by left|done].
Qed.

(** The history is shown unfiltered for an id that no placeholder holds. *)
Lemma unresolved_from_history gen completed (a : string) :
  a ∉ resolved_artifacts gen →
  occurrences a (shown_artifacts (render gen completed))
  = occurrences a (ImageMetadata.id <$> completed).
Proof.
  intros Ha. rewrite shown_render, occurrences_app, occurrences_absent by done. simpl.
  unfold historical_artifacts, filteredImages, array_filter.
  apply occurrences_filter_keep. intros img _ Heq.
  apply negb_true_iff. destruct (some (shows img) gen) eqn:Hsome; [|done].
  exfalso. apply Ha.
  unfold some in Hsome. apply existsb_exists in Hsome as (g & Hg & Hshows).
  unfold shows in Hshows. apply andb_true_iff in Hshows as [Hst Hd].
  apply bool_decide_eq_true in Hst.
  destruct (GeneratingImage.imageData g) as [d|] eqn:Hdata; [|done].
  apply bool_decide_eq_true in Hd. apply elem_of_resolved_artifacts.
  exists g, d. split_and!; [by apply list_elem_of_In|done|done|congruence].
Qed.

(** C2.  While a placeholder with status [completed] holds an artifact,
    the grid shows the artifact's id through that placeholder and filters it
    out of the historical stream, however often the history holds it: the id
    occurs in the Visible List as often as resolved placeholders hold it,
    which is once when no two placeholders hold the same artifact. *)
Theorem resolved_artifact_shown_once gen completed
    (g : GeneratingImage.t) (d : ImageMetadata.t) :
  g ∈ gen → GeneratingImage.status g = "completed" →
  GeneratingImage.imageData g = Some d →
  ImageMetadata.id d ∈ resolved_artifacts gen
  ∧ (ImageMetadata.id d ∉ historical_artifacts gen completed)
  ∧ occurrences (ImageMetadata.id d) (shown_artifacts (render gen completed))
    = occurrences (ImageMetadata.id d) (resolved_artifacts gen)
  ∧ (NoDup (resolved_artifacts gen) →
     occurrences (ImageMetadata.id d) (shown_artifacts (render gen completed)) = 1%nat).
Proof.
  intros Hg Hst Hd.
  assert (ImageMetadata.id d ∈ resolved_artifacts gen) as Hres.
  { apply elem_of_resolved_artifacts. by exists g, d. }
  pose proof (resolved_not_historical gen completed _ Hres) as Hhist.
  assert (occurrences (ImageMetadata.id d) (shown_artifacts (render gen completed))
          = occurrences (ImageMetadata.id d) (resolved_artifacts gen)) as Hocc.
  { rewrite shown_render, occurrences_app, (occurrences_absent _ _ Hhist). lia. }
  split_and!; [done|done|done|].
  intros Hnd. rewrite Hocc. by apply occurrences_NoDup.
Qed.

End VisibleList.

(** A resolved placeholder on top of a history that already holds its
    artifact. *)
Lemma resolved_artifact_shown_once_witness :
  let d := Examples.image "a" 60 in
  let g := GeneratingImage.completed_with d (Examples.job "job-a" "processing" (Some 1000)) in
  let gen := [g] in
  let completed := [Examples.image "a" 60; Examples.image "b" 50] in
  ImageMetadata.id d ∈ ImageGrid.resolved_artifacts gen
  ∧ (ImageMetadata.id d ∉ ImageGrid.historical_artifacts gen completed)
  ∧ ImageGrid.occurrences (ImageMetadata.id d)
      (ImageGrid.shown_artifacts (ImageGrid.render gen completed))
    = ImageGrid.occurrences (ImageMetadata.id d) (ImageGrid.resolved_artifacts gen)
  ∧ (NoDup (ImageGrid.resolved_artifacts gen) →
     ImageGrid.occurrences (ImageMetadata.id d)
       (ImageGrid.shown_artifacts (ImageGrid.render gen completed)) = 1%nat).
Proof.
  apply (resolved_artifact_shown_once
           [GeneratingImage.completed_with (Examples.image "a" 60)
              (Examples.job "job-a" "processing" (Some 1000))]
           [Examples.image "a" 60; Examples.image "b" 50]
           (GeneratingImage.completed_with (Examples.image "a" 60)
              (Examples.job "job-a" "processing" (Some 1000)))
           (Examples.image "a" 60)).
  - apply list_elem_of_here.
  - reflexivity.
  - reflexivity.
Defined.

Section CompletionResolves.

Implicit Types (answer : ∀ A, Api.request A → Async.result A) (st : App.state).

Lemma insert_newest_first_perm (x : ImageMetadata.t) (l : list ImageMetadata.t) :
  App.insert_newest_first x l ≡ₚ x :: l.
Proof.
  induction l as [|y l IH]; [done|]. simpl.
  destruct (ImageMetadata.created_at y <=? ImageMetadata.created_at x); [done|].
  rewrite IH. apply Permutation_swap.
Qed.

(** Sorting the history neither drops nor duplicates a record. *)
Lemma sort_newest_first_perm (l : list ImageMetadata.t) :
  App.sort_newest_first l ≡ₚ l.
Proof.
  unfold App.sort_newest_first. induction l as [|x l IH]; [done|]. simpl.
  by rewrite insert_newest_first_perm, IH.
Qed.

Lemma elem_of_sort_newest_first (x : ImageMetadata.t) (l : list ImageMetadata.t) :
  x ∈ App.sort_newest_first l ↔ x ∈ l.
Proof. by rewrite sort_newest_first_perm. Qed.

(** The successful branch of [onComplete] puts the artifact into the
    history and into the placeholder in one step; from then on the grid
    shows it through the placeholder only, until the placeholder goes. *)
Lemma onComplete_resolves (promptId : string) answer st (page : Api.ImageListResponse)
    (newImage : ImageMetadata.t) (g : GeneratingImage.t) :
  answer _ (Api.imageService_list 1 50) = Async.Fulfilled page →
  find (λ img, bool_decide (ImageMetadata.prompt_id img = promptId)) (Api.images page)
  = Some newImage →
  g ∈ App.generatingImages st → GeneratingImage.id g = promptId →
  let st' := (Async.run answer (App.onComplete promptId) st).1 in
  ImageMetadata.id newImage ∈ ImageMetadata.id <$> App.images st'
  ∧ ImageMetadata.id newImage ∈ ImageGrid.resolved_artifacts (App.generatingImages st')
  ∧ (ImageMetadata.id newImage
     ∉ ImageGrid.historical_artifacts (App.generatingImages st') (App.images st'))
  ∧ App.timers st' = (App.timers st ++ [(5000, App.RemoveGenerating promptId)])%list.
Proof.
  intros Hpage Hfind Hg Hid. simpl. rewrite Hpage, Hfind. simpl.
  assert (ImageMetadata.id newImage
          ∈ ImageGrid.resolved_artifacts
              (App.update_job promptId (GeneratingImage.completed_with newImage)
                 (App.generatingImages st))) as Hres.
  { apply elem_of_resolved_artifacts.
    exists (GeneratingImage.completed_with newImage g), newImage. split_and!; try done.
    unfold App.update_job. apply list_elem_of_fmap. exists g.
    by rewrite bool_decide_true. }
  split_and!; [|done|by apply resolved_not_historical|done].
  apply list_elem_of_fmap. exists newImage. split; [done|].
  apply (elem_of_sort_newest_first newImage (newImage :: App.images st)). by left.
Qed.

End CompletionResolves.

(** ** Filters *)

(** [filter] with the callback of a decidable property keeps what the
    property holds of. *)
Lemma array_filter_bool_decide {A} (P : A → Prop) `{!∀ x, Decision (P x)} (l : list A) :
  array_filter (λ x, bool_decide (P x)) l = filter P l.
Proof.
  unfold array_filter. induction l as [|x l IH]; [done|].
  simpl. rewrite filter_cons, IH. destruct (decide (P x)) as [Hx|Hx].
  - by rewrite bool_decide_true.
  - by rewrite bool_decide_false.
Qed.

Lemma filter_ext_in {A} (P Q : A → Prop) `{!∀ x, Decision (P x)} `{!∀ x, Decision (Q x)}
    (l : list A) :
  (∀ x, x ∈ l → P x ↔ Q x) → filter P l = filter Q l.
Proof.
  induction l as [|x l IH]; intros Hext; [done|].
  rewrite !filter_cons. rewrite IH by (intros y Hy; apply Hext; by right).
  destruct (decide (P x)) as [Hp|Hp], (decide (Q x)) as [Hq|Hq]; try done.
  - destruct Hq. apply Hext; [by left|done].
  - destruct Hp. apply Hext; [by left|done].
Qed.

(** [filter] with a callback that decides a property keeps what the
    property holds of, in order. *)
Lemma array_filter_Prop {A} (p : A → bool) (P : A → Prop) `{!∀ x, Decision (P x)}
    (l : list A) :
  (∀ x, p x = true ↔ P x) → array_filter p l = filter P l.
Proof.
  intros Hp. unfold array_filter. induction l as [|x l IH]; [done|].
  simpl. rewrite filter_cons, IH. destruct (decide (P x)) as [Hx|Hx].
  - by rewrite (proj2 (Hp x) Hx).
  - destruct (p x) eqn:Hpx; [|done]. by apply Hp in Hpx.
Qed.

Lemma array_filter_sublist {A} (p : A → bool) (l : list A) :
  array_filter p l `sublist_of` l.
Proof.
  unfold array_filter. induction l as [|x l IH]; [done|]. simpl.
  destruct (p x); by constructor.
Qed.

(** ** Cold-start resume *)

Section ColdStart.

Import App.

Implicit Types (img : GeneratingImage.t) (m : WebSocketManager.manager).

(** A placeholder is filtered out of the snapshot exactly when it has
    failed or carries a timestamp other than [0] that lies before the
    ceiling. *)
Lemma valid_false (oneHourAgo : Z) img :
  valid oneHourAgo img = false
  ↔ GeneratingImage.status img = "failed"
    ∨ ∃ t, GeneratingImage.timestamp img = Some t ∧ t ≠ 0 ∧ t < oneHourAgo.
Proof.
  unfold valid, stale. case_bool_decide as Hst; [naive_solver|].
  destruct (GeneratingImage.timestamp img) as [t|]; [|naive_solver].
  destruct (Z.eqb_spec t 0) as [Heq|Hne], (Z.ltb_spec t oneHourAgo) as [Hlt|Hge]; simpl;
    split; intros H; try done;
    try (destruct H as [?|(t' & [= <-] & ? & ?)]; [done|lia]).
  right. by exists t.
Qed.

(** While no socket is open, [connect] only adds a socket. *)
Lemma connect_cold (p w pr : string) (o : Js.value) m :
  none_open m →
  WebSocketManager.sockets (WebSocketManager.connect p w pr o m)
  = (WebSocketManager.sockets m
     ++ [WebSocketManager.Socket p w pr o WebSocketManager.CONNECTING])%list
  ∧ none_open (WebSocketManager.connect p w pr o m).
Proof.
  intros Hcold. unfold WebSocketManager.connect.
  assert (match WebSocketManager.wsMap m !! p with
          | Some existingWs =>
              match WebSocketManager.readyState_of m existingWs with
              | Some WebSocketManager.OPEN => WebSocketManager.ws_close existingWs m
              | _ => m
              end
          | None => m
          end = m) as ->.
  { destruct (WebSocketManager.wsMap m !! p) as [h|]; [|done].
    specialize (Hcold h).
    by destruct (WebSocketManager.readyState_of m h) as [[]|]. }
  split; [done|]. intros h. unfold WebSocketManager.readyState_of. simpl.
  destruct (decide (h < length (WebSocketManager.sockets m))%nat) as [Hlt|Hge].
  - rewrite lookup_app_l by done. apply Hcold.
  - rewrite lookup_app_r by lia.
    destruct (h - length (WebSocketManager.sockets m))%nat as [|[|n]]; simpl; done.
Qed.

Lemma reconnect_all_cold (l : list GeneratingImage.t) m :
  none_open m →
  WebSocketManager.sockets (foldl reconnect m l)
  = (WebSocketManager.sockets m ++ (channel_for <$> array_filter resumable l))%list.
Proof.
  revert m. induction l as [|img l IH]; intros m Hcold; simpl.
  - by rewrite app_nil_r.
  - unfold reconnect at 2. destruct (resumable img); [|by apply IH].
    destruct (connect_cold (GeneratingImage.id img) (GeneratingImage.workflow_id img)
                (GeneratingImage.prompt img) (GeneratingImage.override_params img) m Hcold)
      as [Hsockets Hcold'].
    rewrite IH by done. rewrite Hsockets. rewrite fmap_cons. by rewrite <- app_assoc.
Qed.

Lemma sockets_of_channels (j : string) (l : list GeneratingImage.t) :
  array_filter (λ ws, bool_decide (WebSocketManager.promptId ws = j)) (channel_for <$> l)
  = channel_for <$> array_filter (λ img, bool_decide (GeneratingImage.id img = j)) l.
Proof.
  unfold array_filter. induction l as [|img l IH]; [done|].
  rewrite fmap_cons. simpl. case_bool_decide; simpl; by rewrite IH.
Qed.

(** Among placeholders with pairwise distinct ids, the one of a given id. *)
Lemma filter_by_id_NoDup (l : list GeneratingImage.t) img :
  NoDup (GeneratingImage.id <$> l) → img ∈ l →
  array_filter (λ x, bool_decide (GeneratingImage.id x = GeneratingImage.id img)) l = [img].
Proof.
  unfold array_filter. induction l as [|x l IH]; intros Hnd Hin.
  - by apply not_elem_of_nil in Hin.
  - rewrite fmap_cons in Hnd. apply NoDup_cons in Hnd as [Hx Hnd].
    assert (∀ y, y ∈ l → GeneratingImage.id y ≠ GeneratingImage.id x) as Hother.
    { intros y Hy Heq. apply Hx. rewrite <- Heq. apply list_elem_of_fmap. by exists y. }
    apply elem_of_cons in Hin as [->|Hin]; simpl.
    + rewrite bool_decide_true by done. f_equal.
      clear IH Hnd Hx. induction l as [|y l IHl]; [done|]. simpl.
      rewrite bool_decide_false by (apply Hother; by left).
      apply IHl. intros z Hz. apply Hother. by right.
    + rewrite bool_decide_false by (intros Heq; by apply (Hother img)).
      by apply IH.
Qed.

Lemma filter_sublist_NoDup (p : GeneratingImage.t → bool) (l : list GeneratingImage.t) :
  NoDup (GeneratingImage.id <$> l) → NoDup (GeneratingImage.id <$> array_filter p l).
Proof.
  unfold array_filter. induction l as [|x l IH]; [done|].
  rewrite fmap_cons. intros [Hx Hnd]%NoDup_cons. simpl.
  destruct (p x); [|by apply IH]. rewrite fmap_cons. apply NoDup_cons. split; [|by apply IH].
  intros Hin. apply Hx. apply list_elem_of_fmap in Hin as (y & -> & Hy).
  apply list_elem_of_fmap. exists y. split; [done|].
  apply list_elem_of_In in Hy. apply filter_In in Hy as [Hy _]. by apply list_elem_of_In.
Qed.

(** While no socket is open, [connect] adds a socket and maps the job id
    to it. *)
Lemma connect_cold_eq (p w pr : string) (o : Js.value) m :
  none_open m →
  WebSocketManager.connect p w pr o m
  = WebSocketManager.Manager
      (WebSocketManager.sockets m
       ++ [WebSocketManager.Socket p w pr o WebSocketManager.CONNECTING])
      (<[p := length (WebSocketManager.sockets m)]> (WebSocketManager.wsMap m))
      (WebSocketManager.calls m) (WebSocketManager.sent m)
      (WebSocketManager.console_error m).
Proof.
  intros Hcold. unfold WebSocketManager.connect.
  assert (match WebSocketManager.wsMap m !! p with
          | Some existingWs =>
              match WebSocketManager.readyState_of m existingWs with
              | Some WebSocketManager.OPEN => WebSocketManager.ws_close existingWs m
              | _ => m
              end
          | None => m
          end = m) as ->; [|done].
  destruct (WebSocketManager.wsMap m !! p) as [h|]; [|done].
  specialize (Hcold h).
  by destruct (WebSocketManager.readyState_of m h) as [[]|].
Qed.

Lemma reconnect_cold m img : none_open m → none_open (reconnect m img).
Proof.
  intros Hcold. unfold reconnect. destruct (resumable img); [|done].
  by apply connect_cold.
Qed.

(** At cold start, with pairwise distinct ids, the map sends the id of
    every reconnected placeholder to the socket made for it, and holds no
    other new entry. *)
Lemma reconnect_all_wsMap (l : list GeneratingImage.t) m :
  none_open m → NoDup (GeneratingImage.id <$> l) →
  (∀ img, img ∈ l → resumable img = true →
     ∃ h, WebSocketManager.wsMap (foldl reconnect m l) !! GeneratingImage.id img = Some h
          ∧ WebSocketManager.sockets (foldl reconnect m l) !! h = Some (channel_for img))
  ∧ (∀ p, (∀ img, img ∈ l → resumable img = true → GeneratingImage.id img ≠ p) →
          WebSocketManager.wsMap (foldl reconnect m l) !! p = WebSocketManager.wsMap m !! p).
Proof.
  revert m. induction l as [|x l IH]; intros m Hcold Hnd.
  { split; [|done]. intros img Himg. by apply not_elem_of_nil in Himg. }
  rewrite fmap_cons in Hnd. apply NoDup_cons in Hnd as [Hx Hnd].
  destruct (IH (reconnect m x) (reconnect_cold m x Hcold) Hnd) as [IH1 IH2].
  assert (∀ p, (resumable x = true → GeneratingImage.id x ≠ p) →
               WebSocketManager.wsMap (reconnect m x) !! p = WebSocketManager.wsMap m !! p)
    as Hother.
  { intros p Hp. unfold reconnect. destruct (resumable x); [|done].
    rewrite connect_cold_eq by done. simpl. by rewrite lookup_insert_ne by (by apply Hp). }
  simpl. split.
  - intros img Himg Hres. apply elem_of_cons in Himg as [->|Himg]; [|by apply IH1].
    exists (length (WebSocketManager.sockets m)). split.
    + rewrite IH2.
      * unfold reconnect. rewrite Hres, connect_cold_eq by done. simpl.
        apply lookup_insert_eq.
      * intros y Hy _ Heq. apply Hx. rewrite <- Heq. apply list_elem_of_fmap. by exists y.
    + rewrite (reconnect_all_cold l (reconnect m x)) by (by apply reconnect_cold).
      unfold reconnect. rewrite Hres, connect_cold_eq by done. simpl.
      rewrite <- app_assoc. rewrite lookup_app_r by done. by rewrite Nat.sub_diag.
  - intros p Hp. rewrite IH2.
    + apply Hother. intros Hres. apply Hp; [by left|done].
    + intros img Himg. apply Hp. by right.
Qed.

(** C3.  At cold start, from a snapshot as the launchers write it (each
    stamps its placeholder with the clock, so that no timestamp is [0]), a
    persisted job is dropped, out of the shown list and without a channel,
    exactly when its state is [failed] or its timestamp is more than one
    hour, 3600000 ms, old; the surviving jobs are shown in the order of the
    snapshot.  The manager, empty before, then holds one connecting socket
    per surviving job whose state is [processing] or [queued], in that
    order, made from the fields of the placeholder, and none besides: with
    pairwise distinct ids in the snapshot, exactly one socket under the id
    of every such job, to which the map sends that id, and neither a socket
    nor a map entry under the id of any other job of the snapshot.  Nothing
    is reported: the banner is left as it was, no callback is invoked and
    nothing is sent. *)
Theorem cold_start_resume (JSON_parse : string → option (list GeneratingImage.t))
    (localStorage : gmap string string) (now : Z) (st : state)
    (saved : string) (parsed : list GeneratingImage.t) :
  localStorage !! "generatingImages" = Some saved → saved ≠ "" →
  JSON_parse saved = Some parsed →
  (∀ img, img ∈ parsed → GeneratingImage.timestamp img ≠ Some 0) →
  let out := loadGeneratingImages JSON_parse localStorage now (st, WebSocketManager.empty) in
  let dropped img :=
    GeneratingImage.status img = "failed"
    ∨ ∃ t, GeneratingImage.timestamp img = Some t ∧ now - t > 60 * 60 * 1000 in
  let resumed img :=
    GeneratingImage.status img = "processing" ∨ GeneratingImage.status img = "queued" in
  let socket img :=
    WebSocketManager.Socket (GeneratingImage.id img) (GeneratingImage.workflow_id img)
      (GeneratingImage.prompt img) (GeneratingImage.override_params img)
      WebSocketManager.CONNECTING in
  (∀ img, img ∈ generatingImages out.1 ↔ img ∈ parsed ∧ ¬ dropped img)
  ∧ generatingImages out.1 `sublist_of` parsed
  ∧ WebSocketManager.sockets out.2
    = socket <$> filter (λ img, GeneratingImage.status img = "processing"
                                ∨ GeneratingImage.status img = "queued")
                   (generatingImages out.1)
  ∧ (NoDup (GeneratingImage.id <$> parsed) →
     (∀ img, img ∈ parsed → ¬ dropped img → resumed img →
        filter (λ ws, WebSocketManager.promptId ws = GeneratingImage.id img)
          (WebSocketManager.sockets out.2) = [socket img]
        ∧ ∃ h, WebSocketManager.wsMap out.2 !! GeneratingImage.id img = Some h
               ∧ WebSocketManager.sockets out.2 !! h = Some (socket img))
     ∧ (∀ img, img ∈ parsed → dropped img ∨ ¬ resumed img →
          filter (λ ws, WebSocketManager.promptId ws = GeneratingImage.id img)
            (WebSocketManager.sockets out.2) = []
          ∧ WebSocketManager.wsMap out.2 !! GeneratingImage.id img = None))
  ∧ error out.1 = error st
  ∧ WebSocketManager.calls out.2 = []
  ∧ WebSocketManager.sent out.2 = [].
Proof.
  intros Hsaved Hne Hparse Hstamp out dropped resumed socket.
  unfold out, loadGeneratingImages.
  rewrite Hsaved, bool_decide_false, Hparse by done. simpl.
  set (validImages := array_filter (valid (now - staleness_ceiling)) parsed).
  assert (∀ img, img ∈ validImages
                 ↔ img ∈ parsed ∧ valid (now - staleness_ceiling) img = true) as Hvalid.
  { intros img. unfold validImages, array_filter.
    rewrite !list_elem_of_In. apply filter_In. }
  assert (∀ img, img ∈ parsed →
                 valid (now - staleness_ceiling) img = false ↔ dropped img) as Hdropped.
  { intros img Himg. rewrite valid_false. unfold dropped, staleness_ceiling. split.
    - intros [Hf|(t & Ht & _ & Hlt)]; [by left|]. right. exists t. split; [done|lia].
    - intros [Hf|(t & Ht & Hlt)]; [by left|]. right. exists t. split_and!; [done| |lia].
      intros ->. by apply (Hstamp img). }
  assert (∀ img, resumable img = true ↔ resumed img) as Hresumed.
  { intros img. unfold resumable, resumed.
    by rewrite orb_true_iff, !bool_decide_eq_true. }
  assert (none_open WebSocketManager.empty) as Hcold.
  { intros h. by destruct h. }
  assert (WebSocketManager.sockets (foldl reconnect WebSocketManager.empty validImages)
          = channel_for <$> array_filter resumable validImages) as Hsockets.
  { by rewrite reconnect_all_cold. }
  assert (∀ l m, WebSocketManager.calls (foldl reconnect m l) = WebSocketManager.calls m
                 ∧ WebSocketManager.sent (foldl reconnect m l) = WebSocketManager.sent m)
    as Hquiet.
  { induction l as [|img l IH]; intros m; [done|]. simpl.
    destruct (IH (reconnect m img)) as [-> ->].
    unfold reconnect. destruct (resumable img); [|done].
    unfold WebSocketManager.connect. simpl.
    destruct (WebSocketManager.wsMap m !! GeneratingImage.id img) as [h|]; [|done].
    destruct (WebSocketManager.readyState_of m h) as [[]|] eqn:Hst; try done.
    unfold WebSocketManager.ws_close. by rewrite Hst. }
  assert (∀ img, img ∈ validImages ↔ img ∈ parsed ∧ ¬ dropped img) as Hshown.
  { intros img. rewrite Hvalid. split.
    - intros [Hin Hv]. split; [done|]. intros Hd. apply (Hdropped img Hin) in Hd. congruence.
    - intros [Hin Hd]. split; [done|].
      destruct (valid (now - staleness_ceiling) img) eqn:Hv; [done|].
      destruct Hd. by apply Hdropped. }
  split_and!; [done|apply array_filter_sublist| | |done|apply Hquiet|apply Hquiet].
  - rewrite Hsockets. f_equal. by apply array_filter_Prop.
  - intros Hnd.
    assert (NoDup (GeneratingImage.id <$> validImages)) as HndV.
    { by apply filter_sublist_NoDup. }
    assert (NoDup (GeneratingImage.id <$> array_filter resumable validImages)) as HndR.
    { by apply filter_sublist_NoDup. }
    assert (∀ j, filter (λ ws, WebSocketManager.promptId ws = j)
                   (WebSocketManager.sockets
                      (foldl reconnect WebSocketManager.empty validImages))
                 = channel_for
                     <$> array_filter (λ x, bool_decide (GeneratingImage.id x = j))
                           (array_filter resumable validImages)) as Hunder.
    { intros j. rewrite Hsockets, <- sockets_of_channels.
      symmetry. by apply array_filter_Prop; intros ws; rewrite bool_decide_eq_true. }
    destruct (reconnect_all_wsMap validImages WebSocketManager.empty Hcold HndV)
      as [Hmapped Hunmapped].
    assert (∀ img y, img ∈ parsed → y ∈ array_filter resumable validImages →
                     GeneratingImage.id y = GeneratingImage.id img →
                     img ∈ validImages ∧ resumable img = true) as Hsame.
    { intros img y Hin Hy Hid. unfold array_filter in Hy.
      apply list_elem_of_In, filter_In in Hy as [Hy Hres]. apply list_elem_of_In in Hy.
      assert (y = img) as <-; [|done].
      apply Hvalid in Hy as Hy'. destruct Hy' as [Hyp _].
      apply list_elem_of_lookup in Hyp as [i Hi]. apply list_elem_of_lookup in Hin as [k Hk].
      assert (i = k); [|by simplify_eq].
      eapply NoDup_lookup; [exact Hnd| |].
      - rewrite list_lookup_fmap, Hi. reflexivity.
      - rewrite list_lookup_fmap, Hk. simpl. by rewrite Hid. }
    split.
    + intros img Hin Hd Hres. apply Hresumed in Hres.
      assert (img ∈ validImages) as HinV by (by apply Hshown).
      split; [|by apply Hmapped].
      rewrite Hunder. rewrite (filter_by_id_NoDup _ img HndR); [done|].
      unfold array_filter. apply list_elem_of_In, filter_In.
      split; [by apply list_elem_of_In|done].
    + intros img Hin Hout.
      assert (∀ y, y ∈ array_filter resumable validImages →
                   GeneratingImage.id y ≠ GeneratingImage.id img) as Hnone.
      { intros y Hy Hid. destruct (Hsame img y Hin Hy Hid) as [HinV Hres].
        destruct Hout as [Hd|Hnr].
        - by apply Hshown in HinV as [_ HinV].
        - by apply Hnr, Hresumed. }
      split.
      * rewrite Hunder.
        assert (array_filter
                  (λ x, bool_decide (GeneratingImage.id x = GeneratingImage.id img))
                  (array_filter resumable validImages) = []) as ->; [|done].
        unfold array_filter.
        destruct (List.filter _ (List.filter resumable validImages)) as [|y l] eqn:Hf;
          [done|].
        exfalso. assert (In y (y :: l)) as Hy by (by left). rewrite <- Hf in Hy.
        apply filter_In in Hy as [Hy Hid]. apply bool_decide_eq_true in Hid.
        apply (Hnone y); [|done]. by apply list_elem_of_In.
      * rewrite Hunmapped; [done|]. intros y Hy Hres. apply Hnone.
        unfold array_filter. apply list_elem_of_In, filter_In.
        split; [by apply list_elem_of_In|done].
Qed.

End ColdStart.

(** The snapshot with a job of ten minutes and a job of two hours. *)
Lemma cold_start_resume_witness :
  let localStorage : gmap string string :=
    {["generatingImages" := Examples.store Examples.snapshot]} in
  let parsed := Examples.snapshot in
  let now := Examples.now in
  let out := App.loadGeneratingImages Examples.parse_jobs localStorage now
               (Examples.empty_state, WebSocketManager.empty) in
  let dropped img :=
    GeneratingImage.status img = "failed"
    ∨ ∃ t, GeneratingImage.timestamp img = Some t ∧ now - t > 60 * 60 * 1000 in
  let resumed img :=
    GeneratingImage.status img = "processing" ∨ GeneratingImage.status img = "queued" in
  let socket img :=
    WebSocketManager.Socket (GeneratingImage.id img) (GeneratingImage.workflow_id img)
      (GeneratingImage.prompt img) (GeneratingImage.override_params img)
      WebSocketManager.CONNECTING in
  (∀ img, img ∈ App.generatingImages out.1 ↔ img ∈ parsed ∧ ¬ dropped img)
  ∧ App.generatingImages out.1 `sublist_of` parsed
  ∧ WebSocketManager.sockets out.2
    = socket <$> filter (λ img, GeneratingImage.status img = "processing"
                                ∨ GeneratingImage.status img = "queued")
                   (App.generatingImages out.1)
  ∧ (NoDup (GeneratingImage.id <$> parsed) →
     (∀ img, img ∈ parsed → ¬ dropped img → resumed img →
        filter (λ ws, WebSocketManager.promptId ws = GeneratingImage.id img)
          (WebSocketManager.sockets out.2) = [socket img]
        ∧ ∃ h, WebSocketManager.wsMap out.2 !! GeneratingImage.id img = Some h
               ∧ WebSocketManager.sockets out.2 !! h = Some (socket img))
     ∧ (∀ img, img ∈ parsed → dropped img ∨ ¬ resumed img →
          filter (λ ws, WebSocketManager.promptId ws = GeneratingImage.id img)
            (WebSocketManager.sockets out.2) = []
          ∧ WebSocketManager.wsMap out.2 !! GeneratingImage.id img = None))
  ∧ App.error out.1 = App.error Examples.empty_state
  ∧ WebSocketManager.calls out.2 = []
  ∧ WebSocketManager.sent out.2 = [].
Proof.
  apply (cold_start_resume Examples.parse_jobs
           {["generatingImages" := Examples.store Examples.snapshot]} Examples.now
           Examples.empty_state (Examples.store Examples.snapshot) Examples.snapshot).
  - vm_compute. reflexivity.
  - vm_compute. discriminate.
  - vm_compute. reflexivity.
  - apply Forall_forall. repeat constructor; vm_compute; discriminate.
Defined.

(** The specification's two jobs: the job of ten minutes is shown and gets the one
    socket there is; the job of two hours is dropped and gets none. *)
Lemma cold_start_ten_minutes_and_two_hours :
  let localStorage : gmap string string :=
    {["generatingImages" := Examples.store Examples.snapshot]} in
  let out := App.loadGeneratingImages Examples.parse_jobs localStorage Examples.now
               (Examples.empty_state, WebSocketManager.empty) in
  App.generatingImages out.1
  = [Examples.job "job-10min" "processing" (Some (Examples.now - 600000))]
  ∧ WebSocketManager.sockets out.2
    = [WebSocketManager.Socket "job-10min" "wf" "sunset" Js.Null WebSocketManager.CONNECTING]
  ∧ WebSocketManager.wsMap out.2 !! "job-10min" = Some 0%nat
  ∧ WebSocketManager.wsMap out.2 !! "job-2h" = None.
Proof. vm_compute. done. Qed.

(** ** Parameter overrides *)

Section Overrides.

Import LocalGeneration.

Variable JSON_parse : string → option Js.value.

(** The table of the language in use. *)
Context {t : Locales.TranslationKeys}.

Lemma non_empty_spec (v : Js.value) :
  Js.non_empty v = true ↔ v ≠ Js.Str "" ∧ v ≠ Js.Null ∧ v ≠ Js.Undefined.
Proof.
  destruct v as [| | | |s| |]; simpl; try (split; [done|by intros (? & ? & ?)]);
    try (split; [done|done]).
  rewrite negb_true_iff, bool_decide_eq_false. split.
  - intros Hs. split_and!; [|done|done]. intros [= ->]. done.
  - intros (Hs & _ & _) ->. done.
Qed.

(** The entries kept are the stored ones whose value is neither the empty
    string nor [null] nor [undefined], in the stored order (but for an
    entry named [__proto__], which is never kept). *)
Lemma elem_of_keep_overrides (fields : list (string * Js.value)) (k : string) (v : Js.value) :
  (k, v) ∈ keep_overrides fields
  ↔ (k, v) ∈ fields ∧ v ≠ Js.Str "" ∧ v ≠ Js.Null ∧ v ≠ Js.Undefined ∧ k ≠ "__proto__".
Proof.
  unfold keep_overrides, array_filter. rewrite !list_elem_of_In, filter_In. simpl.
  rewrite andb_true_iff, negb_true_iff, bool_decide_eq_false, non_empty_spec.
  naive_solver.
Qed.

(** What the block reads from a store that holds a map for the workflow. *)
Lemma read_overrideParams_map (text workflowId : string) (allOverrides : Js.value)
    (fields : list (string * Js.value)) :
  text ≠ "" → JSON_parse text = Some allOverrides →
  Js.get_computed allOverrides workflowId = Some (Js.Obj fields) →
  read_overrideParams JSON_parse (Some text) workflowId = transmitted fields.
Proof.
  intros Hne Hparse Hget. unfold read_overrideParams, transmitted.
  rewrite bool_decide_false, Hparse, Hget by done. simpl.
  by destruct (keep_overrides fields).
Qed.

(** Without a stored map for the workflow, nothing is transmitted. *)
Lemma read_overrideParams_missing (workflowId : string) :
  read_overrideParams JSON_parse None workflowId = Js.Null.
Proof. done. Qed.

(** C9.  When a local job is submitted and the store holds an override map
    for the selected workflow, the overrides whose value is the empty
    string, [null] or [undefined] are dropped and the others are kept (all
    but an entry named [__proto__]); the request carries the kept entries in
    its override field, or [null] when none is kept; and after a successful
    submission the socket that [handleGenerate] connects carries the same
    value for the monitor frame. *)
Theorem overrides_filtered_before_transmission
    (workflows : list WorkflowConfig) (workflow prompt : string)
    (uploadedFile : option string) (localStorage : gmap string string) (now : Z)
    (text : string) (allOverrides : Js.value) (fields : list (string * Js.value)) :
  workflow ≠ "" →
  localStorage !! "parameterOverrides" = Some text → text ≠ "" →
  JSON_parse text = Some allOverrides →
  Js.get_computed allOverrides workflow = Some (Js.Obj fields) →
  let handler :=
    App.handleGenerate_local JSON_parse workflows (Some workflow) prompt uploadedFile
      localStorage localStorage now in
  (∀ k v, (k, v) ∈ keep_overrides fields
          ↔ (k, v) ∈ fields ∧ v ≠ Js.Str "" ∧ v ≠ Js.Null ∧ v ≠ Js.Undefined
            ∧ k ≠ "__proto__")
  ∧ (keep_overrides fields = [] → transmitted fields = Js.Null)
  ∧ (keep_overrides fields ≠ [] → transmitted fields = Js.Obj (keep_overrides fields))
  ∧ (∃ req, submitted handler = Some req
            ∧ Api.override_params req = transmitted fields)
  ∧ (∀ (answer : ∀ A, Api.request A → Async.result A) (w : App.world)
       (req : Api.GenerationRequest) (response : Api.GenerationResponse),
       submitted handler = Some req →
       answer _ (Api.generationService_generate req) = Async.Fulfilled response →
       Api.status response ≠ "failed" → Api.prompt_id response ≠ "" →
       ∃ h, WebSocketManager.wsMap (Async.run answer handler w).1.2
              !! Api.prompt_id response = Some h
            ∧ WebSocketManager.sockets (Async.run answer handler w).1.2 !! h
              = Some (WebSocketManager.Socket (Api.prompt_id response) workflow prompt
                        (transmitted fields) WebSocketManager.CONNECTING)).
Proof.
  intros Hwf Hstored Hne Hparse Hget handler.
  pose proof (read_overrideParams_map text workflow allOverrides fields Hne Hparse Hget)
    as Hread.
  assert (handler
          = Async.bind
              (generate JSON_parse workflows
                 (λ g, App.on_state (App.onGenerationStart g))
                 (λ e, App.on_state (App.setError (Some e)))
                 localStorage now
                 (GenerateParams_ workflow prompt (or_undefined uploadedFile)))
              (λ promptId,
                 match or_undefined promptId with
                 | Some promptId =>
                     Async.Return
                       (App.on_manager
                          (WebSocketManager.connect promptId workflow prompt
                             (read_overrideParams JSON_parse
                                (localStorage !! "parameterOverrides") workflow)))
                       ()
                 | None => Async.Return (λ w, w) ()
                 end)) as Hhandler.
  { unfold handler, App.handleGenerate_local. simpl. by rewrite bool_decide_false. }
  split_and!.
  - apply elem_of_keep_overrides.
  - unfold transmitted. by intros ->.
  - unfold transmitted. by destruct (keep_overrides fields).
  - rewrite Hhandler. unfold generate. simpl. rewrite bool_decide_false by done. simpl.
    eexists. split; [reflexivity|]. simpl. by rewrite Hstored, Hread.
  - intros answer w req response Hreq Hanswer Hstatus Hid.
    rewrite Hhandler in Hreq |- *. unfold generate in Hreq |- *. simpl in Hreq |- *.
    rewrite bool_decide_false in Hreq |- * by done. simpl in Hreq |- *.
    injection Hreq as <-. rewrite Hanswer. simpl.
    rewrite bool_decide_false by done. simpl. rewrite bool_decide_false by done. simpl.
    rewrite Hstored, Hread. apply connect_registers.
Qed.

End Overrides.

(** The stored map [{ steps: 30, seed: '', sampler: null }] of workflow
    [wf]: only [steps] is transmitted. *)
Lemma overrides_filtered_before_transmission_witness :
  let localStorage : gmap string string :=
    {["parameterOverrides" := Examples.overrides_text]} in
  let fields := [("steps", Js.Num 30 0); ("seed", Js.Str ""); ("sampler", Js.Null)] in
  let handler :=
    App.handleGenerate_local (t := Locales.en) Examples.JSON_parse [] (Some "wf")
      "sunset" None localStorage localStorage 1000 in
  (∀ k v, (k, v) ∈ LocalGeneration.keep_overrides fields
          ↔ (k, v) ∈ fields ∧ v ≠ Js.Str "" ∧ v ≠ Js.Null ∧ v ≠ Js.Undefined
            ∧ k ≠ "__proto__")
  ∧ (LocalGeneration.keep_overrides fields = [] →
     LocalGeneration.transmitted fields = Js.Null)
  ∧ (LocalGeneration.keep_overrides fields ≠ [] →
     LocalGeneration.transmitted fields = Js.Obj (LocalGeneration.keep_overrides fields))
  ∧ (∃ req, LocalGeneration.submitted handler = Some req
            ∧ Api.override_params req = LocalGeneration.transmitted fields)
  ∧ (∀ (answer : ∀ A, Api.request A → Async.result A) (w : App.world)
       (req : Api.GenerationRequest) (response : Api.GenerationResponse),
       LocalGeneration.submitted handler = Some req →
       answer _ (Api.generationService_generate req) = Async.Fulfilled response →
       Api.status response ≠ "failed" → Api.prompt_id response ≠ "" →
       ∃ h, WebSocketManager.wsMap (Async.run answer handler w).1.2
              !! Api.prompt_id response = Some h
            ∧ WebSocketManager.sockets (Async.run answer handler w).1.2 !! h
              = Some (WebSocketManager.Socket (Api.prompt_id response) "wf" "sunset"
                        (LocalGeneration.transmitted fields) WebSocketManager.CONNECTING)).
Proof.
  apply (overrides_filtered_before_transmission Examples.JSON_parse [] "wf" "sunset" None
           {["parameterOverrides" := Examples.overrides_text]} 1000
           Examples.overrides_text Examples.overrides_value
           [("steps", Js.Num 30 0); ("seed", Js.Str ""); ("sampler", Js.Null)]).
  - discriminate.
  - vm_compute. reflexivity.
  - vm_compute. discriminate.
  - vm_compute. reflexivity.
  - reflexivity.
Defined.

(** What is sent for that map. *)
Lemma overrides_example :
  LocalGeneration.transmitted
    [("steps", Js.Num 30 0); ("seed", Js.Str ""); ("sampler", Js.Null)]
  = Js.Obj [("steps", Js.Num 30 0)]
  ∧ LocalGeneration.transmitted [("seed", Js.Str ""); ("sampler", Js.Null)] = Js.Null.
Proof. split; reflexivity. Qed.

(** * Further properties of the code *)

(** ** Closing channels ([disconnect], [disconnectAll], [connect]) *)

Section ClosingChannels.

Import WebSocketManager.

Implicit Types (m : manager) (h : nat) (p q : string).

Lemma readyState_of_set_state m h h' (s : readyState) :
  readyState_of (set_state h s m) h'
  = if decide (h = h') then (λ _, s) <$> readyState_of m h' else readyState_of m h'.
Proof.
  unfold readyState_of, set_state. simpl. case_decide as Hh.
  - subst. rewrite list_lookup_alter_eq. by destruct (sockets m !! h').
  - by rewrite list_lookup_alter_ne.
Qed.

Lemma readyState_of_ws_close m h h' :
  readyState_of (ws_close h m) h'
  = if decide (h = h') then Closing.closed_by_close <$> readyState_of m h'
    else readyState_of m h'.
Proof.
  unfold ws_close. destruct (readyState_of m h) as [[]|] eqn:Hst;
    rewrite ?readyState_of_set_state; case_decide; subst; rewrite ?Hst; done.
Qed.

Lemma ws_close_keeps m h :
  wsMap (ws_close h m) = wsMap m ∧ calls (ws_close h m) = calls m
  ∧ sent (ws_close h m) = sent m ∧ console_error (ws_close h m) = console_error m
  ∧ length (sockets (ws_close h m)) = length (sockets m).
Proof.
  unfold ws_close, set_state. destruct (readyState_of m h) as [[]|]; simpl;
    rewrite ?length_alter; done.
Qed.

Lemma closed_by_close_idem (s : readyState) :
  Closing.closed_by_close (Closing.closed_by_close s) = Closing.closed_by_close s.
Proof. by destruct s. Qed.

Lemma closed_by_close_not_live (s : readyState) :
  Closing.live (Closing.closed_by_close s) = false.
Proof. by destruct s. Qed.

(** X1.  [disconnect(p)] removes the entry of job [p] and starts closing the
    socket the entry held, so that this socket is neither open nor
    connecting afterwards; the entries and sockets of all other jobs stay
    as they were, no callback is invoked, and a second [disconnect(p)]
    changes nothing. *)
Theorem disconnect_closes_and_forgets p m :
  wsMap (disconnect p m) !! p = None
  ∧ (∀ q, q ≠ p → wsMap (disconnect p m) !! q = wsMap m !! q)
  ∧ (∀ h, wsMap m !! p = Some h →
          readyState_of (disconnect p m) h = Closing.closed_by_close <$> readyState_of m h
          ∧ ∀ s, readyState_of (disconnect p m) h = Some s → Closing.live s = false)
  ∧ (∀ h, wsMap m !! p ≠ Some h → readyState_of (disconnect p m) h = readyState_of m h)
  ∧ calls (disconnect p m) = calls m
  ∧ disconnect p (disconnect p m) = disconnect p m.
Proof.
  unfold disconnect. destruct (wsMap m !! p) as [h0|] eqn:Hp.
  - destruct (ws_close_keeps m h0) as (Hmap & Hcalls & _).
    split_and!; simpl.
    + apply lookup_delete_eq.
    + intros q Hq. by rewrite lookup_delete_ne, Hmap.
    + intros h [= <-]. unfold readyState_of at 1 3. simpl.
      fold (readyState_of (ws_close h0 m) h0). rewrite readyState_of_ws_close.
      rewrite decide_True by done. split; [done|].
      intros s Hs. destruct (readyState_of m h0) as [s0|]; [|done].
      injection Hs as <-. apply closed_by_close_not_live.
    + intros h Hh. unfold readyState_of at 1. simpl.
      fold (readyState_of (ws_close h0 m) h). rewrite readyState_of_ws_close.
      rewrite decide_False; [done|]. intros ->. by apply Hh.
    + done.
    + by rewrite lookup_delete_eq.
  - rewrite Hp. by split_and!.
Qed.

(** The sockets a list of map entries names are closed, the others kept. *)
Lemma close_all_states (l : list (string * nat)) m h :
  readyState_of (foldr (λ kv acc, ws_close kv.2 acc) m l) h
  = if decide (h ∈ l.*2) then Closing.closed_by_close <$> readyState_of m h
    else readyState_of m h.
Proof.
  induction l as [|[k h0] l IH].
  - case_decide as Hin; [|done]. by apply not_elem_of_nil in Hin.
  - change (readyState_of
              (ws_close h0 (foldr (λ kv acc, ws_close kv.2 acc) m l)) h
            = if decide (h ∈ h0 :: l.*2)
              then Closing.closed_by_close <$> readyState_of m h
              else readyState_of m h).
    rewrite readyState_of_ws_close, IH.
    destruct (decide (h0 = h)) as [->|Hne], (decide (h ∈ l.*2)) as [Hin|Hout].
    + rewrite decide_True by left. destruct (readyState_of m h) as [s|]; [|done].
      simpl. by rewrite closed_by_close_idem.
    + by rewrite decide_True by left.
    + by rewrite decide_True by (by right).
    + rewrite decide_False; [done|]. intros [?|?]%elem_of_cons; [by subst|done].
Qed.

Lemma close_all_keeps (l : list (string * nat)) m :
  calls (foldr (λ kv acc, ws_close kv.2 acc) m l) = calls m
  ∧ sent (foldr (λ kv acc, ws_close kv.2 acc) m l) = sent m.
Proof.
  induction l as [|[k h0] l [IH1 IH2]]; [done|]. simpl.
  destruct (ws_close_keeps (foldr (λ kv acc, ws_close kv.2 acc) m l) h0)
    as (_ & Hc & Hs & _).
  by rewrite Hc, Hs.
Qed.

(** X2.  [disconnectAll()] empties the map and starts closing every socket
    the map held, so that none of them is open or connecting afterwards; a
    socket the map did not hold is left in the state it had; no callback is
    invoked, and a second [disconnectAll()] changes nothing. *)
Theorem disconnectAll_closes_what_the_map_holds m :
  wsMap (disconnectAll m) = ∅
  ∧ (∀ p h, wsMap m !! p = Some h →
            readyState_of (disconnectAll m) h
            = Closing.closed_by_close <$> readyState_of m h
            ∧ ∀ s, readyState_of (disconnectAll m) h = Some s → Closing.live s = false)
  ∧ (∀ h, (∀ p, wsMap m !! p ≠ Some h) →
          readyState_of (disconnectAll m) h = readyState_of m h)
  ∧ calls (disconnectAll m) = calls m
  ∧ disconnectAll (disconnectAll m) = disconnectAll m.
Proof.
  assert (∀ h, readyState_of (disconnectAll m) h
               = readyState_of
                   (foldr (λ kv acc, ws_close kv.2 acc) m (map_to_list (wsMap m))) h)
    as Hstate by done.
  split_and!.
  - done.
  - intros p h Hp. rewrite Hstate, close_all_states. rewrite decide_True.
    2:{ apply list_elem_of_fmap. exists (p, h). split; [done|].
        by apply elem_of_map_to_list. }
    split; [done|]. intros s Hs. destruct (readyState_of m h) as [s0|]; [|done].
    injection Hs as <-. apply closed_by_close_not_live.
  - intros h Hh. rewrite Hstate, close_all_states. rewrite decide_False; [done|].
    intros ([p h'] & -> & Hin)%list_elem_of_fmap.
    apply elem_of_map_to_list in Hin. by apply (Hh p).
  - unfold disconnectAll. simpl. apply close_all_keeps.
  - unfold disconnectAll at 1. simpl. by rewrite map_to_list_empty.
Qed.

Lemma connect_new_socket (p w pr : string) (o : Js.value) (m : manager) :
  sockets (connect p w pr o m) !! length (sockets m) = Some (Socket p w pr o CONNECTING)
  ∧ sent (connect p w pr o m) = sent m
  ∧ calls (connect p w pr o m) = calls m
  ∧ wsMap (connect p w pr o m) !! p = Some (length (sockets m)).
Proof.
  unfold connect.
  set (m1 := match wsMap m !! p with
             | Some existingWs =>
                 match readyState_of m existingWs with
                 | Some OPEN => ws_close existingWs m
                 | _ => m
                 end
             | None => m
             end).
  assert (sent m1 = sent m ∧ calls m1 = calls m
          ∧ length (sockets m1) = length (sockets m)) as (Hsent & Hcalls & Hlen).
  { unfold m1. destruct (wsMap m !! p) as [h0|]; [|done].
    destruct (readyState_of m h0) as [[]|]; try done.
    by destruct (ws_close_keeps m h0) as (_ & ? & ? & _ & ?). }
  simpl. split_and!; [|done|done|].
  - rewrite <- Hlen. by rewrite lookup_app_r, Nat.sub_diag.
  - rewrite Hlen. apply lookup_insert_eq.
Qed.

(** X3.  [connect(p, ...)] does not disturb the other jobs: their map
    entries stay, every socket other than the one the map held for [p]
    stays as it is, the socket it creates is new and connecting, and no
    callback is invoked. *)
Theorem connect_leaves_other_jobs p (w pr : string) (o : Js.value) m :
  (∀ q, q ≠ p → wsMap (connect p w pr o m) !! q = wsMap m !! q)
  ∧ (∀ h ws, sockets m !! h = Some ws → wsMap m !! p ≠ Some h →
             sockets (connect p w pr o m) !! h = Some ws)
  ∧ length (sockets (connect p w pr o m)) = S (length (sockets m))
  ∧ wsMap (connect p w pr o m) !! p = Some (length (sockets m))
  ∧ sockets (connect p w pr o m) !! length (sockets m)
    = Some (Socket p w pr o CONNECTING)
  ∧ calls (connect p w pr o m) = calls m.
Proof.
  unfold connect.
  set (m1 := match wsMap m !! p with
             | Some existingWs =>
                 match readyState_of m existingWs with
                 | Some OPEN => ws_close existingWs m
                 | _ => m
                 end
             | None => m
             end).
  assert (wsMap m1 = wsMap m ∧ calls m1 = calls m
          ∧ length (sockets m1) = length (sockets m)
          ∧ ∀ h ws, sockets m !! h = Some ws → wsMap m !! p ≠ Some h →
                    sockets m1 !! h = Some ws) as (Hmap & Hcalls & Hlen & Hother).
  { unfold m1. destruct (wsMap m !! p) as [h0|]; [|done].
    destruct (readyState_of m h0) as [[]|] eqn:Hst; try done.
    destruct (ws_close_keeps m h0) as (? & ? & _ & _ & ?).
    split_and!; try done. intros h ws Hws Hh. unfold ws_close. rewrite Hst.
    unfold set_state. simpl. rewrite list_lookup_alter_ne; [done|].
    intros ->. by apply Hh. }
  simpl. split_and!.
  - intros q Hq. by rewrite lookup_insert_ne, Hmap.
  - intros h ws Hws Hh. rewrite lookup_app_l.
    + by apply Hother.
    + rewrite Hlen. by apply lookup_lt_Some in Hws.
  - rewrite length_app, Hlen. simpl. lia.
  - by rewrite lookup_insert_eq, Hlen.
  - rewrite <- Hlen. by rewrite lookup_app_r, Nat.sub_diag.
  - done.
Qed.

(** What one message can make the handler call. *)
Lemma dispatch_shapes p (message : Js.value) :
  dispatch p message = None
  ∨ ∃ cs lines, dispatch p message = Some (cs, lines)
      ∧ (cs = []
         ∨ (∃ d, cs = [onProgress p d])
         ∨ (∃ d, cs = [onProgress p d; onComplete p d])
         ∨ (∃ d e, cs = [onProgress p d; onError p e])
         ∨ (∃ e, cs = [onError p e])).
Proof.
  unfold dispatch. destruct (Js.get message "type") as [type|]; [|by left]. right.
  destruct (Js.is_str type "progress" && Js.truthy (Js.get_opt message "data")).
  - destruct (Js.is_str (Js.get_opt (Js.get_opt message "data") "status") "completed");
      [naive_solver|].
    destruct (Js.is_str (Js.get_opt (Js.get_opt message "data") "status") "error");
      naive_solver.
  - destruct (Js.is_str type "error"); naive_solver.
Qed.

(** X4.  One inbound message invokes at most two callbacks, all of them
    with the job id of the socket it arrived on, and never both
    [onComplete] and [onError]; it changes no socket and no map entry. *)
Theorem message_callbacks_are_local (JSON_parse : string → option Js.value)
    m h (data : string) (ws : WebSocket) :
  sockets m !! h = Some ws →
  let m' := step JSON_parse m (Message h data) in
  ∃ cs, calls m' = (calls m ++ cs)%list
        ∧ Forall (λ c, Closing.job_of c = promptId ws) cs
        ∧ (length cs ≤ 2)%nat
        ∧ ¬ ((∃ d, onComplete (promptId ws) d ∈ cs) ∧ (∃ e, onError (promptId ws) e ∈ cs))
        ∧ sockets m' = sockets m
        ∧ wsMap m' = wsMap m.
Proof.
  intros Hws. simpl. unfold readyState_of. rewrite Hws. simpl.
  assert (∃ cs, calls m = (calls m ++ cs)%list
                ∧ Forall (λ c, Closing.job_of c = promptId ws) cs
                ∧ (length cs ≤ 2)%nat
                ∧ ¬ ((∃ d, onComplete (promptId ws) d ∈ cs)
                     ∧ (∃ e, onError (promptId ws) e ∈ cs))
                ∧ sockets m = sockets m ∧ wsMap m = wsMap m) as Hnothing.
  { exists []. rewrite app_nil_r. split_and!; try done; [simpl; lia|].
    intros [[d Hd] _]. by apply not_elem_of_nil in Hd. }
  destruct (state ws); try done.
  unfold onmessage. rewrite Hws. destruct (JSON_parse data) as [message|]; [|done].
  destruct (dispatch_shapes (promptId ws) message) as [->|(cs & lines & -> & Hcs)]; [done|].
  exists cs. simpl. split_and!; try done.
  - destruct Hcs as [->|[(d & ->)|[(d & ->)|[(d & e & ->)|(e & ->)]]]];
      repeat constructor.
  - destruct Hcs as [->|[(d & ->)|[(d & ->)|[(d & e & ->)|(e & ->)]]]]; simpl; lia.
  - intros [[d Hd] [e He]].
    destruct Hcs as [->|[(d0 & ->)|[(d0 & ->)|[(d0 & e0 & ->)|(e0 & ->)]]]];
      set_solver.
Qed.

End ClosingChannels.

(** A [completed] frame on the open socket of [job-1]. *)
Lemma message_callbacks_are_local_witness :
  let m := MoreExamples.one_open in
  let ws := WebSocketManager.Socket "job-1" "wf" "sunset" Js.Null WebSocketManager.OPEN in
  let m' := WebSocketManager.step MoreExamples.JSON_parse m
              (WebSocketManager.Message 0 MoreExamples.completed_text) in
  ∃ cs, WebSocketManager.calls m' = (WebSocketManager.calls m ++ cs)%list
        ∧ Forall (λ c, Closing.job_of c = WebSocketManager.promptId ws) cs
        ∧ (length cs ≤ 2)%nat
        ∧ ¬ ((∃ d, WebSocketManager.onComplete (WebSocketManager.promptId ws) d ∈ cs)
             ∧ (∃ e, WebSocketManager.onError (WebSocketManager.promptId ws) e ∈ cs))
        ∧ WebSocketManager.sockets m' = WebSocketManager.sockets m
        ∧ WebSocketManager.wsMap m' = WebSocketManager.wsMap m.
Proof.
  apply (message_callbacks_are_local MoreExamples.JSON_parse MoreExamples.one_open 0
           MoreExamples.completed_text
           (WebSocketManager.Socket "job-1" "wf" "sunset" Js.Null WebSocketManager.OPEN)).
  reflexivity.
Defined.

(** ** The persistence hook beyond the placeholder list *)

Section HookBehaviour.

Import LocalStorageSync.

Context {T : Type} `{!ObjectIs T}.
Variable store : T → string.
Variable load : string → T.
Variable key : string.
Variable initialValue : T.

Implicit Types (w : @world T) (debounce : option Z).

(** X5.  Without an update the hook never writes: from the mount on, effect
    runs and timer events leave [localStorage] and the value as the mount
    found them, with or without a debounce. *)
Theorem mount_alone_writes_nothing debounce (localStorage : gmap string string)
    (es : list (@event T)) :
  Forall (λ e, ∀ action, e ≠ SetValue action) es →
  let w := run store key debounce (mount load key initialValue localStorage) es in
  w.2 = localStorage
  ∧ value w.1 = value (mount load key initialValue localStorage).1.
Proof.
  intros Hes.
  set (w0 := mount load key initialValue localStorage).
  assert (∀ w, debounceTimer w.1 = None →
               (effect_due w.1 = true → isInitialMount w.1 = true) →
               let w' := run store key debounce w es in
               w'.2 = w.2 ∧ value w'.1 = value w.1) as Hinv.
  { induction Hes as [|e es He Hes IH]; intros w Htimer Hdue; [done|].
    change (let w' := run store key debounce (step store key debounce w e) es in
            w'.2 = w.2 ∧ value w'.1 = value w.1).
    destruct e as [action| |]; [by destruct (He action)| |].
    - unfold step. destruct (effect_due w.1) eqn:Hd; [|by apply IH; rewrite ?Hd].
      unfold effect. rewrite (Hdue eq_refl).
      by apply (IH (Hook (value w.1) false (debounceTimer w.1) false, w.2)).
    - unfold step, timer_fires. rewrite Htimer. by apply IH. }
  by apply (Hinv w0).
Qed.

(** An update to a value other than the one held, and an update to the
    value held. *)
Lemma step_SetValue_new debounce w (action : T → T) :
  Object_is (action (value w.1)) (value w.1) = false →
  step store key debounce w (SetValue action)
  = (Hook (action (value w.1)) (isInitialMount w.1) (debounceTimer w.1) true, w.2).
Proof. intros Hnew. unfold step, setValue. by rewrite Hnew. Qed.

Lemma step_SetValue_same debounce w (action : T → T) :
  Object_is (action (value w.1)) (value w.1) = true →
  step store key debounce w (SetValue action) = w.
Proof. intros Hsame. unfold step, setValue. by rewrite Hsame. Qed.

(** X6.  With a debounce the effect writes nothing.  Two updates in a row,
    each to a value other than the one held, arm the timer twice, and the
    one write that follows stores the value of the last update; a further
    timer event writes nothing more.  An update to the value held is
    skipped: it arms no timer and nothing is written for it. *)
Theorem debounce_writes_the_last_value (ms : Z) w (a b : T → T) :
  ms ≠ 0 → isInitialMount w.1 = false →
  (Object_is (a (value w.1)) (value w.1) = false →
   Object_is (b (a (value w.1))) (a (value w.1)) = false →
   let w1 := run store key (Some ms) w [SetValue a; Effect; SetValue b; Effect] in
   let w2 := step store key (Some ms) w1 TimerFires in
   w1.2 = w.2
   ∧ debounceTimer w1.1 = Some (b (a (value w.1)))
   ∧ w2.2 = <[key := store (b (a (value w.1)))]> w.2
   ∧ synced store key w2
   ∧ step store key (Some ms) w2 TimerFires = w2)
  ∧ (Object_is (a (value w.1)) (value w.1) = true →
     effect_due w.1 = false → debounceTimer w.1 = None →
     let w1 := run store key (Some ms) w [SetValue a; Effect] in
     w1 = w ∧ step store key (Some ms) w1 TimerFires = w).
Proof.
  intros Hms Hmount.
  assert (∀ w0, effect_due w0.1 = true → isInitialMount w0.1 = false →
                step store key (Some ms) w0 Effect
                = (Hook (value w0.1) false (Some (value w0.1)) false, w0.2)) as Heff.
  { intros w0 Hdue Hm. unfold step. rewrite Hdue. unfold effect, debounced. rewrite Hm.
    by destruct (Z.eqb_spec ms 0). }
  split.
  - intros Ha Hb. unfold run. cbn [foldl].
    rewrite (step_SetValue_new _ w a Ha).
    rewrite (Heff (Hook (a (value w.1)) (isInitialMount w.1) (debounceTimer w.1) true, w.2)
               eq_refl Hmount).
    cbn [fst snd value].
    rewrite (step_SetValue_new _
               (Hook (a (value w.1)) false (Some (a (value w.1))) false, w.2) b Hb).
    cbn [fst snd value isInitialMount debounceTimer].
    rewrite (Heff (Hook (b (a (value w.1))) false (Some (a (value w.1))) true, w.2)
               eq_refl eq_refl).
    unfold step, timer_fires. simpl. split_and!; try done.
    unfold synced, saveToLocalStorage. simpl. apply lookup_insert_eq.
  - intros Ha Hdue Htimer. unfold run. cbn [foldl].
    rewrite (step_SetValue_same _ w a Ha).
    assert (step store key (Some ms) w Effect = w) as ->.
    { unfold step. by rewrite Hdue. }
    split; [done|]. unfold step, timer_fires. by rewrite Htimer.
Qed.

End HookBehaviour.

Section StoredTextBehaviour.

Import LocalStorageSync.

Variable JSON_parse : string → option Js.value.
Variable JSON_stringify : Js.value → string.

Lemma Object_is_Str (s : string) (v : Js.value) :
  Object_is (Js.Str s) v = true ↔ v = Js.Str s.
Proof.
  destruct v as [| | | |s'| |]; simpl; try (split; [done|done]).
  change (bool_decide (s = s') = true ↔ Js.Str s' = Js.Str s).
  rewrite bool_decide_eq_true. split; [by intros ->|by intros [= ->]].
Qed.

(** X7.  A string kept by the hook is stored bare, so after a reload it is
    the same string only when it is no JSON text: a text that parses, such
    as [42] or [null], comes back as the parsed value in the place of the
    string.  Setting the cell to the string it holds is skipped and writes
    nothing. *)
Theorem stored_text_after_reload (key : string) (initialValue : Js.value)
    (w : @world Js.value) (s : string) :
  isInitialMount w.1 = false →
  let w' := run (StoredText.store JSON_stringify) key None w
              [SetValue (λ _, Js.Str s); Effect] in
  (value w.1 ≠ Js.Str s →
   w'.2 !! key = Some s
   ∧ value (mount (StoredText.load JSON_parse) key initialValue w'.2).1
     = match JSON_parse s with
       | Some v => v
       | None => Js.Str s
       end)
  ∧ (value w.1 = Js.Str s → effect_due w.1 = false → w' = w).
Proof.
  intros Hmount. cbv zeta. unfold run. cbn [foldl]. split.
  - intros Hne.
    assert (Object_is ((λ _, Js.Str s) (value w.1)) (value w.1) = false) as Hnew.
    { destruct (Object_is _ _) eqn:His; [|done]. by apply Object_is_Str in His. }
    rewrite (step_SetValue_new _ _ _ w _ Hnew).
    unfold step. cbn [fst snd effect_due]. unfold effect.
    cbn [fst snd isInitialMount value]. rewrite Hmount.
    unfold saveToLocalStorage, mount. cbn. by rewrite lookup_insert_eq.
  - intros Heq Hdue.
    rewrite (step_SetValue_same _ _ _ w (λ _, Js.Str s)
               (proj2 (Object_is_Str s (value w.1)) Heq)).
    unfold step. by rewrite Hdue.
Qed.

End StoredTextBehaviour.

(** The hook of the placeholder list, mounted on an empty store. *)
Lemma mount_alone_writes_nothing_witness :
  let w := LocalStorageSync.run Examples.store "generatingImages" None
             (LocalStorageSync.mount Examples.load "generatingImages" [] ∅)
             [LocalStorageSync.Effect; LocalStorageSync.TimerFires;
              LocalStorageSync.Effect] in
  w.2 = ∅
  ∧ LocalStorageSync.value w.1
    = LocalStorageSync.value
        (LocalStorageSync.mount Examples.load "generatingImages" [] ∅).1.
Proof.
  apply (mount_alone_writes_nothing Examples.store Examples.load "generatingImages" []
           None ∅
           [LocalStorageSync.Effect; LocalStorageSync.TimerFires; LocalStorageSync.Effect]).
  repeat constructor; discriminate.
Defined.

(** Two placeholders created within a debounce of 300 ms; and the prompt
    set to the text it holds. *)
Lemma debounce_writes_the_last_value_witness :
  (let w := LocalStorageSync.step Examples.store "generatingImages" (Some 300)
              (LocalStorageSync.mount Examples.load "generatingImages" [] ∅)
              LocalStorageSync.Effect in
   let a := λ prev, Examples.job "job-1" "queued" (Some 1000) :: prev in
   let b := λ prev, Examples.job "job-2" "queued" (Some 2000) :: prev in
   let w1 := LocalStorageSync.run Examples.store "generatingImages" (Some 300) w
               [LocalStorageSync.SetValue a; LocalStorageSync.Effect;
                LocalStorageSync.SetValue b; LocalStorageSync.Effect] in
   let w2 := LocalStorageSync.step Examples.store "generatingImages" (Some 300) w1
               LocalStorageSync.TimerFires in
   w1.2 = w.2
   ∧ LocalStorageSync.debounceTimer w1.1 = Some (b (a (LocalStorageSync.value w.1)))
   ∧ w2.2 = <["generatingImages" := Examples.store (b (a (LocalStorageSync.value w.1)))]> w.2
   ∧ LocalStorageSync.synced Examples.store "generatingImages" w2
   ∧ LocalStorageSync.step Examples.store "generatingImages" (Some 300) w2
       LocalStorageSync.TimerFires = w2)
  ∧ (let store := StoredText.store MoreExamples.JSON_stringify in
     let w := LocalStorageSync.step store "lastPrompt" (Some 300)
                (LocalStorageSync.mount (StoredText.load Examples.JSON_parse) "lastPrompt"
                   (Js.Str "a beautiful landscape") ∅)
                LocalStorageSync.Effect in
     let w1 := LocalStorageSync.run store "lastPrompt" (Some 300) w
                 [LocalStorageSync.SetValue (λ _, Js.Str "a beautiful landscape");
                  LocalStorageSync.Effect] in
     w1 = w ∧ LocalStorageSync.step store "lastPrompt" (Some 300) w1
                LocalStorageSync.TimerFires = w).
Proof.
  split.
  - apply (debounce_writes_the_last_value Examples.store "generatingImages" 300
             (LocalStorageSync.step Examples.store "generatingImages" (Some 300)
                (LocalStorageSync.mount Examples.load "generatingImages" [] ∅)
                LocalStorageSync.Effect)); [discriminate|reflexivity..].
  - apply (debounce_writes_the_last_value (StoredText.store MoreExamples.JSON_stringify)
             "lastPrompt" 300
             (LocalStorageSync.step (StoredText.store MoreExamples.JSON_stringify)
                "lastPrompt" (Some 300)
                (LocalStorageSync.mount (StoredText.load Examples.JSON_parse) "lastPrompt"
                   (Js.Str "a beautiful landscape") ∅)
                LocalStorageSync.Effect)
             (λ _, Js.Str "a beautiful landscape") (λ v, v));
      [discriminate|reflexivity..].
Defined.

(** The prompt [42] comes back as the number; the prompt set to the default
    text it was mounted with leaves the store empty. *)
Lemma stored_text_after_reload_witness :
  let w := LocalStorageSync.step
             (StoredText.store MoreExamples.JSON_stringify) "lastPrompt" None
             (LocalStorageSync.mount (StoredText.load Examples.JSON_parse) "lastPrompt"
                (Js.Str "a beautiful landscape") ∅)
             LocalStorageSync.Effect in
  (let w' := LocalStorageSync.run
               (StoredText.store MoreExamples.JSON_stringify) "lastPrompt" None w
               [LocalStorageSync.SetValue (λ _, Js.Str "42"); LocalStorageSync.Effect] in
   w'.2 !! "lastPrompt" = Some "42"
   ∧ LocalStorageSync.value
       (LocalStorageSync.mount (StoredText.load Examples.JSON_parse) "lastPrompt"
          (Js.Str "a beautiful landscape") w'.2).1
     = Js.Num 42 0)
  ∧ (let w' := LocalStorageSync.run
                 (StoredText.store MoreExamples.JSON_stringify) "lastPrompt" None w
                 [LocalStorageSync.SetValue (λ _, Js.Str "a beautiful landscape");
                  LocalStorageSync.Effect] in
     w' = w ∧ w'.2 = ∅).
Proof.
  split.
  - apply (stored_text_after_reload Examples.JSON_parse MoreExamples.JSON_stringify
             "lastPrompt" (Js.Str "a beautiful landscape")); [reflexivity|discriminate].
  - split; [|reflexivity].
    apply (stored_text_after_reload Examples.JSON_parse MoreExamples.JSON_stringify
             "lastPrompt" (Js.Str "a beautiful landscape")); reflexivity.
Defined.

(** ** Progress, failure and completion of a tracked job *)

Section JobCallbacks.

Import App.

Implicit Types (st : state) (p : string) (l : list GeneratingImage.t)
  (answer : ∀ A, Api.request A → Async.result A).

(** X8.  A progress update changes the state and the percentage of the job
    it names and nothing else: the ids and the order of the placeholders,
    the resolved artifact and the timestamp of the job, every other job,
    the history, the banner and the timers stay.  A payload without a state
    keeps the state, and a percentage of [0] or none keeps the percentage
    shown. *)
Theorem progress_touches_one_job p (data : ProgressUpdate) st :
  GeneratingImage.id <$> generatingImages (onProgress p data st)
  = GeneratingImage.id <$> generatingImages st
  ∧ images (onProgress p data st) = images st
  ∧ error (onProgress p data st) = error st
  ∧ timers (onProgress p data st) = timers st
  ∧ (∀ i g, generatingImages st !! i = Some g → GeneratingImage.id g ≠ p →
            generatingImages (onProgress p data st) !! i = Some g)
  ∧ (∀ i g, generatingImages st !! i = Some g → GeneratingImage.id g = p →
       ∃ g', generatingImages (onProgress p data st) !! i = Some g'
             ∧ GeneratingImage.status g'
               = (if bool_decide (status data = "") then GeneratingImage.status g
                  else status data)
             ∧ GeneratingImage.progress g'
               = match progress_percent data with
                 | Some x => if x =? 0 then GeneratingImage.progress g else x
                 | None => GeneratingImage.progress g
                 end
             ∧ GeneratingImage.imageData g' = GeneratingImage.imageData g
             ∧ GeneratingImage.timestamp g' = GeneratingImage.timestamp g
             ∧ GeneratingImage.prompt g' = GeneratingImage.prompt g)
  ∧ (status data = "" →
     progress_percent data = None ∨ progress_percent data = Some 0 →
     generatingImages (onProgress p data st) = generatingImages st).
Proof.
  unfold onProgress, setGeneratingImages. simpl. split_and!; try done.
  - by apply update_job_ids.
  - intros i g Hi Hne. rewrite update_job_lookup, Hi. simpl.
    by rewrite bool_decide_false.
  - intros i g Hi Heq. rewrite update_job_lookup, Hi. simpl.
    rewrite bool_decide_true by done. eexists. split; [reflexivity|]. done.
  - intros Hst Hpct. unfold update_job.
    rewrite <- (list_fmap_id (generatingImages st)) at 2. apply list_fmap_ext.
    intros i g _. simpl. case_bool_decide; [|done].
    rewrite bool_decide_true by done. destruct g.
    by destruct Hpct as [->| ->].
Qed.


(** X10.  Callbacks that arrive for a job that is no longer tracked leave
    the placeholder list as it is: a late progress update, a late channel
    error (which still sets the banner), a late timer and a dismissal by
    hand. *)
Theorem late_callbacks_change_no_placeholder p st (data : ProgressUpdate)
    (reason : string) :
  (∀ g, g ∈ generatingImages st → GeneratingImage.id g ≠ p) →
  generatingImages (onProgress p data st) = generatingImages st
  ∧ generatingImages (onError p reason st) = generatingImages st
  ∧ error (onError p reason st) = Some ("Generation failed: " +:+ reason)
  ∧ generatingImages (fire (RemoveGenerating p) st) = generatingImages st
  ∧ generatingImages (handleRemoveGenerating p st) = generatingImages st.
Proof.
  intros Hp. unfold onProgress, onError, fire, handleRemoveGenerating. simpl.
  rewrite !update_job_untracked, !remove_job_untracked by done. done.
Qed.

Lemma insert_newest_first_sorted (x : ImageMetadata.t) (l : list ImageMetadata.t) :
  StronglySorted (λ a b, ImageMetadata.created_at b ≤ ImageMetadata.created_at a) l →
  StronglySorted (λ a b, ImageMetadata.created_at b ≤ ImageMetadata.created_at a)
    (insert_newest_first x l).
Proof.
  induction 1 as [|y l Hl IH Hy]; simpl.
  - repeat constructor.
  - destruct (Z.leb_spec (ImageMetadata.created_at y) (ImageMetadata.created_at x))
      as [Hle|Hgt].
    + constructor; [by constructor|]. constructor; [done|].
      eapply Forall_impl; [exact Hy|]. simpl. intros z Hz. lia.
    + constructor; [done|].
      rewrite insert_newest_first_perm. constructor; [lia|done].
Qed.

Lemma sort_newest_first_ordered (l : list ImageMetadata.t) :
  StronglySorted (λ a b, ImageMetadata.created_at b ≤ ImageMetadata.created_at a)
    (sort_newest_first l).
Proof.
  unfold sort_newest_first. induction l as [|x l IH]; simpl; [constructor|].
  by apply insert_newest_first_sorted.
Qed.

(** X11.  The sort of the history keeps every record, as often as it
    occurs, and orders the list newest first. *)
Theorem sort_newest_first_sorted (l : list ImageMetadata.t) :
  sort_newest_first l ≡ₚ l
  ∧ StronglySorted (λ a b, ImageMetadata.created_at b ≤ ImageMetadata.created_at a)
      (sort_newest_first l).
Proof.
  split; [apply sort_newest_first_perm|apply sort_newest_first_ordered].
Qed.


End JobCallbacks.

(** Job [job-9] is not among the two tracked jobs. *)
Lemma late_callbacks_change_no_placeholder_witness :
  let st := MoreExamples.two_jobs in
  let data := App.ProgressUpdate_ "processing" (Some 40) in
  App.generatingImages (App.onProgress "job-9" data st) = App.generatingImages st
  ∧ App.generatingImages (App.onError "job-9" "OOM" st) = App.generatingImages st
  ∧ App.error (App.onError "job-9" "OOM" st) = Some ("Generation failed: " +:+ "OOM")
  ∧ App.generatingImages (App.fire (App.RemoveGenerating "job-9") st)
    = App.generatingImages st
  ∧ App.generatingImages (App.handleRemoveGenerating "job-9" st) = App.generatingImages st.
Proof.
  apply (late_callbacks_change_no_placeholder "job-9" MoreExamples.two_jobs
           (App.ProgressUpdate_ "processing" (Some 40)) "OOM").
  intros g Hg. apply elem_of_cons in Hg as [->|Hg]; [discriminate|].
  apply list_elem_of_singleton in Hg. subst. discriminate.
Defined.


(** ** The two launchers *)

Section Launchers.

Implicit Types (st : App.state) (answer : ∀ A, Api.request A → Async.result A).

(** The table of the language in use. *)
Context {t : Locales.TranslationKeys}.

(** X13.  A submission that fails validation makes no request: without a
    workflow the local launcher and [handleGenerate] only set the banner,
    the latter in the language in use, create no placeholder and open no
    channel, and the remote launcher does the same for a prompt that is
    empty once trimmed. *)
Theorem validation_makes_no_request (JSON_parse : string → option Js.value)
    (trim : string → string)
    (workflows : list LocalGeneration.WorkflowConfig)
    (models : list GoogleAIGeneration.GoogleAIModel)
    (localStorage : gmap string string) (now : Z) (random prompt : string)
    (uploaded referenceImage : option string)
    (remote : GoogleAIGeneration.GenerateParams) answer st (m : WebSocketManager.manager) :
  trim (GoogleAIGeneration.prompt remote) = "" →
  (let task := App.localGeneration_generate JSON_parse workflows localStorage now
                 (LocalGeneration.GenerateParams_ "" prompt uploaded) in
   Async.awaits answer task = 0%nat
   ∧ Async.run answer task st = (App.setError (Some "Please select a workflow") st, None))
  ∧ (∀ selected, selected = None ∨ selected = Some "" →
       let task := App.handleGenerate_local JSON_parse workflows selected prompt uploaded
                     localStorage localStorage now in
       Async.awaits answer task = 0%nat
       ∧ Async.run answer task (st, m)
         = ((App.setError
               (Some (Locales.errors_generationFailed +:+ ": Please select a workflow"))
               st, m), ()))
  ∧ (let task := App.googleGeneration_generate trim models referenceImage now random
                   remote in
     Async.awaits answer task = 0%nat
     ∧ Async.run answer task st = (App.setError (Some "Please enter a prompt") st, ())).
Proof.
  intros Hblank. split_and!.
  - done.
  - intros selected [-> | ->]; done.
  - unfold App.googleGeneration_generate, GoogleAIGeneration.generate.
    rewrite bool_decide_true by done. done.
Qed.

(** X14.  An accepted local submission makes one request; the placeholder
    it creates comes first in the list, is [queued] at [0] percent and
    carries the job id of the response, and the channel that
    [handleGenerate] opens is registered under that same id; the banner is
    left alone.  When the response carries an empty job id the placeholder
    is created all the same and no channel is opened. *)
Theorem accepted_submit_tracks_and_connects (JSON_parse : string → option Js.value)
    (workflows : list LocalGeneration.WorkflowConfig) (workflow prompt : string)
    (uploaded : option string) (localStorage : gmap string string) (now : Z)
    answer (w : App.world) (req : Api.GenerationRequest)
    (response : Api.GenerationResponse) :
  workflow ≠ "" →
  let handler := App.handleGenerate_local JSON_parse workflows (Some workflow) prompt
                   uploaded localStorage localStorage now in
  LocalGeneration.submitted handler = Some req →
  answer _ (Api.generationService_generate req) = Async.Fulfilled response →
  Api.status response ≠ "failed" →
  let out := (Async.run answer handler w).1 in
  Async.awaits answer handler = 1%nat
  ∧ Api.workflow_id req = workflow ∧ Api.prompt req = prompt
  ∧ Api.save_to_disk req = true
  ∧ (∃ g, App.generatingImages out.1 = g :: App.generatingImages w.1
          ∧ GeneratingImage.id g = Api.prompt_id response
          ∧ GeneratingImage.status g = "queued"
          ∧ GeneratingImage.progress g = 0
          ∧ GeneratingImage.prompt g = prompt
          ∧ GeneratingImage.timestamp g = Some now
          ∧ GeneratingImage.imageData g = None)
  ∧ App.error out.1 = App.error w.1
  ∧ (Api.prompt_id response ≠ "" →
     WebSocketManager.wsMap out.2 !! Api.prompt_id response
     = Some (length (WebSocketManager.sockets w.2))
     ∧ ∃ o, WebSocketManager.sockets out.2 !! length (WebSocketManager.sockets w.2)
            = Some (WebSocketManager.Socket (Api.prompt_id response) workflow prompt o
                      WebSocketManager.CONNECTING))
  ∧ (Api.prompt_id response = "" → out.2 = w.2).
Proof.
  intros Hwf handler Hreq Hanswer Hstatus.
  unfold handler, App.handleGenerate_local in *. simpl in *.
  rewrite bool_decide_false in * by done. simpl in *.
  unfold LocalGeneration.generate in *. simpl in *.
  rewrite bool_decide_false in * by done. simpl in *.
  injection Hreq as <-. rewrite Hanswer. simpl.
  rewrite bool_decide_false by done. simpl.
  destruct (decide (Api.prompt_id response = "")) as [Hid|Hid].
  - rewrite bool_decide_true by done. simpl. split_and!; try done.
    eexists. split; [reflexivity|]. done.
  - rewrite bool_decide_false by done. simpl. split_and!; try done.
    + eexists. split; [reflexivity|]. done.
    + intros _.
      destruct (connect_new_socket (Api.prompt_id response) workflow prompt
                  (LocalGeneration.read_overrideParams JSON_parse
                     (localStorage !! "parameterOverrides") workflow) w.2)
        as (Hsock & _ & _ & Hmap).
      split; [done|]. by eexists.
Qed.

(** X15.  When the remote service reports success, the artifact is looked
    up once on the first page of the history.  Found, it resolves the
    placeholder, which stays on top of the list, and joins the history,
    which comes out ordered newest first, with a timer of 5000 ms.  Not
    found, or with the fetch failing, the placeholder on top is marked
    failed with a timer of 2000 ms and the banner is left as it was: this
    failure is not reported.  Either way the placeholders of the other jobs
    follow as they were. *)
Theorem remote_success_is_reconciled (trim : string → string)
    (models : list GoogleAIGeneration.GoogleAIModel)
    (referenceImage : option string) (now : Z) (random : string)
    (params : GoogleAIGeneration.GenerateParams) answer st
    (req : Api.GoogleAIGenerateRequest) (response : Api.GoogleAIGenerateResponse) :
  trim (GoogleAIGeneration.prompt params) ≠ "" →
  req = Api.GoogleAIGenerateRequest_ (GoogleAIGeneration.prompt params)
          (GoogleAIGeneration.model params) (GoogleAIGeneration.aspectRatio params)
          (if bool_decide (GoogleAIGeneration.model params = "gemini-3-pro-image-preview")
           then GoogleAIGeneration.resolutionTier params else None)
          (LocalGeneration.or_undefined referenceImage) →
  answer _ (Api.googleAiService_generate req) = Async.Fulfilled response →
  Api.g_status response ≠ "failed" →
  let tempId := "google_" +:+ pretty now +:+ "_" +:+ random in
  let placeholder (status : string) (imageData : option ImageMetadata.t) :=
    GeneratingImage.Build tempId (GoogleAIGeneration.prompt params) "google_ai"
      (GoogleAIGeneration.modelName models (GoogleAIGeneration.model params))
      status 0 Js.Undefined (Some now) imageData in
  let task := App.googleGeneration_generate trim models referenceImage now random params in
  let out := (Async.run answer task st).1 in
  Async.awaits answer task = 2%nat
  ∧ length (App.generatingImages out) = S (length (App.generatingImages st))
  ∧ (∀ i g, App.generatingImages st !! i = Some g → GeneratingImage.id g ≠ tempId →
            App.generatingImages out !! S i = Some g)
  ∧ App.error out = App.error st
  ∧ (∀ page newImage,
       answer _ (Api.imageService_list 1 50) = Async.Fulfilled page →
       find (λ img, bool_decide (Some (ImageMetadata.id img) = Api.image_id response))
         (Api.images page) = Some newImage →
       App.generatingImages out !! 0%nat = Some (placeholder "completed" (Some newImage))
       ∧ App.images out ≡ₚ newImage :: App.images st
       ∧ StronglySorted (λ a b, ImageMetadata.created_at b ≤ ImageMetadata.created_at a)
           (App.images out)
       ∧ App.timers out = (App.timers st ++ [(5000, App.RemoveGenerating tempId)])%list)
  ∧ ((∃ reason, answer _ (Api.imageService_list 1 50) = Async.Rejected reason)
     ∨ (∃ page, answer _ (Api.imageService_list 1 50) = Async.Fulfilled page
                ∧ find (λ img, bool_decide
                                 (Some (ImageMetadata.id img) = Api.image_id response))
                    (Api.images page) = None) →
     App.generatingImages out !! 0%nat = Some (placeholder "failed" None)
     ∧ App.images out = App.images st
     ∧ App.timers out = (App.timers st ++ [(2000, App.RemoveGenerating tempId)])%list).
Proof.
  intros Hprompt -> Hanswer Hstatus.
  unfold App.googleGeneration_generate, GoogleAIGeneration.generate.
  rewrite bool_decide_false by done. simpl. rewrite Hanswer. simpl.
  rewrite bool_decide_false by done. simpl.
  set (tempId := "google_" +:+ pretty now +:+ "_" +:+ random).
  assert (∀ f, length (App.update_job tempId f (App.generatingImages st))
               = length (App.generatingImages st)) as Hlen.
  { intros f. unfold App.update_job. by rewrite length_fmap. }
  destruct (answer _ (Api.imageService_list 1 50)) as [page|reason] eqn:Hlist; simpl.
  - destruct (find _ (Api.images page)) as [newImage|] eqn:Hfind; simpl.
    + rewrite (bool_decide_true (tempId = tempId)) by done. split_and!; try done.
      * by rewrite Hlen.
      * intros i g Hi Hne. by apply update_job_other.
      * intros page' newImage' [= <-] Hsome. rewrite Hfind in Hsome.
        injection Hsome as <-. split_and!; try done.
        -- apply (sort_newest_first_perm (newImage :: App.images st)).
        -- apply (sort_newest_first_ordered (newImage :: App.images st)).
      * intros [(reason & Hrej)|(page' & [= <-] & Hnone)]; [done|]. by rewrite Hfind in Hnone.
    + rewrite (bool_decide_true (tempId = tempId)) by done. split_and!; try done.
      * by rewrite Hlen.
      * intros i g Hi Hne. by apply update_job_other.
      * intros page' newImage' [= <-] Hsome. by rewrite Hfind in Hsome.
  - rewrite (bool_decide_true (tempId = tempId)) by done. split_and!; try done.
    + by rewrite Hlen.
    + intros i g Hi Hne. by apply update_job_other.
Qed.

(** X16.  Whatever the store holds, the override value of a submission is
    [null] or an object with at least one entry, every entry of which has a
    value other than the empty string, [null] and [undefined]: an empty
    object is never transmitted.  It is [null] when the store has no text,
    an empty text, a text that is no JSON, or no entry for the workflow. *)
Theorem overrides_never_empty_object (JSON_parse : string → option Js.value)
    (savedOverrides : option string) (workflowId : string) :
  (LocalGeneration.read_overrideParams JSON_parse savedOverrides workflowId = Js.Null
   ∨ ∃ kv kept,
       LocalGeneration.read_overrideParams JSON_parse savedOverrides workflowId
       = Js.Obj (kv :: kept)
       ∧ Forall (λ e, Js.non_empty e.2 = true) (kv :: kept))
  ∧ (savedOverrides = None ∨ savedOverrides = Some ""
     ∨ (∃ text, savedOverrides = Some text
                ∧ (JSON_parse text = None
                   ∨ ∃ v, JSON_parse text = Some v
                          ∧ (Js.get_computed v workflowId = None
                             ∨ Js.get_computed v workflowId = Some Js.Undefined))) →
     LocalGeneration.read_overrideParams JSON_parse savedOverrides workflowId = Js.Null).
Proof.
  split.
  - unfold LocalGeneration.read_overrideParams.
    destruct savedOverrides as [text|]; [|by left].
    case_bool_decide; [by left|]. destruct (JSON_parse text) as [v|]; [|by left].
    destruct (Js.get_computed v workflowId) as [o|]; [|by left].
    destruct (Js.truthy o); [|by left].
    destruct (LocalGeneration.keep_overrides (Js.entries o)) as [|kv kept] eqn:Hkept;
      [by left|].
    right. exists kv, kept. split; [done|]. rewrite <- Hkept.
    unfold LocalGeneration.keep_overrides, array_filter. apply Forall_forall.
    intros e He. apply list_elem_of_In, filter_In in He as [_ He].
    by apply andb_true_iff in He as [He _].
  - unfold LocalGeneration.read_overrideParams.
    intros [->|[->|(text & -> & Hcase)]]; [done|done|].
    case_bool_decide; [done|].
    destruct Hcase as [->|(v & -> & [->| ->])]; done.
Qed.

End Launchers.

(** ** Selection, navigation and batch download *)

Section SelectionMore.

Import ImageSelection.

Implicit Types (images : list ImageMetadata.t) (st : state).

(** X17.  Two plain clicks on the same id restore the selection, whether
    or not the list holds the id; one click flips the membership of that id
    alone. *)
Theorem plain_click_twice images (a : string) st :
  ∃ s1 s2,
    toggleSelection images a false st = Updated s1
    ∧ toggleSelection images a false s1 = Updated s2
    ∧ selectedIds s2 = selectedIds st
    ∧ (a ∈ selectedIds s1 ↔ a ∉ selectedIds st)
    ∧ (∀ x, x ≠ a → x ∈ selectedIds s1 ↔ x ∈ selectedIds st)
    ∧ lastClickedIndex s1 = lastClickedIndex s2.
Proof.
  unfold toggleSelection. simpl. do 2 eexists.
  split; [exact eq_refl|]. split; [exact eq_refl|].
  simpl. destruct (decide (a ∈ selectedIds st)) as [Ha|Ha].
  - rewrite (bool_decide_true (a ∈ selectedIds st)) by done.
    rewrite bool_decide_false by set_solver.
    split; [|split; [|split; [|done]]]; [|set_solver|set_solver].
    apply set_eq. intros x. destruct (decide (x = a)); set_solver.
  - rewrite (bool_decide_false (a ∈ selectedIds st)) by done.
    rewrite bool_decide_true by set_solver.
    split; [|split; [|split; [|done]]]; set_solver.
Qed.

(** The range loop only adds ids of the list. *)
Lemma add_range_grows images (n : nat) (i : Z) (S0 S1 : gset string) :
  add_range images i n S0 = inr S1 →
  S0 ⊆ S1
  ∧ ∀ x, x ∈ S1 → x ∈ S0 ∨ ∃ img, img ∈ images ∧ ImageMetadata.id img = x.
Proof.
  revert i S0. induction n as [|n IH]; intros i S0; simpl.
  - intros [= <-]. split; [done|]. by left.
  - destruct (array_get images i) as [img|] eqn:Himg; [|done].
    intros Hrest. destruct (IH _ _ Hrest) as [Hsub Hnew].
    assert (img ∈ images) as Hin.
    { unfold array_get in Himg. destruct (i <? 0); [done|].
      by apply list_elem_of_lookup_2 in Himg. }
    split; [set_solver|]. intros x Hx.
    destruct (Hnew x Hx) as [Hx'|?]; [|by right].
    apply elem_of_union in Hx' as [Hx'|?]; [|by left].
    apply elem_of_singleton in Hx'. right. by exists img.
Qed.

(** X18.  A shift-click that returns never deselects: every id selected
    before stays selected, every id it adds is the id of an image of the
    list, and without a previous click it adds nothing. *)
Theorem shift_click_only_adds images (a : string) st (s' : state) :
  toggleSelection images a true st = Updated s' →
  selectedIds st ⊆ selectedIds s'
  ∧ (∀ x, x ∈ selectedIds s' →
          x ∈ selectedIds st ∨ ∃ img, img ∈ images ∧ ImageMetadata.id img = x)
  ∧ (lastClickedIndex st = None → selectedIds s' = selectedIds st)
  ∧ lastClickedIndex s'
    = Some (findIndex (λ img, bool_decide (ImageMetadata.id img = a)) images).
Proof.
  unfold toggleSelection. simpl. destruct (lastClickedIndex st) as [prev|].
  - destruct (add_range _ _ _ _) as [i|S1] eqn:Hrange; [done|].
    intros [= <-]. simpl. destruct (add_range_grows _ _ _ _ _ Hrange) as [Hsub Hnew].
    by split_and!.
  - intros [= <-]. simpl. split_and!; try done. intros x Hx. by left.
Qed.

End SelectionMore.

Section NavigationMore.

Import Navigation.

Implicit Types (images : list ImageMetadata.t) (s : ImageMetadata.t).

Lemma findIndex_from_range {A} (p : A → bool) (l : list A) (b : Z) :
  findIndex_from p l b = -1
  ∨ (b ≤ findIndex_from p l b < b + Z.of_nat (length l)).
Proof.
  revert b. induction l as [|a l IH]; intros b; simpl; [by left|].
  destruct (p a); [right; lia|]. destruct (IH (b + 1)) as [->|?]; [by left|right; lia].
Qed.

(** X19.  Stepping through the modal never leaves the list: from a selected
    image, [next] and [previous] select an image of the list or keep the
    selection, and never store [undefined]; with nothing selected they do
    nothing. *)
Theorem navigation_stays_in_list images s :
  (∃ x, handleNextImage images (Some s) = Some x ∧ (x = s ∨ x ∈ images))
  ∧ (∃ y, handlePreviousImage images (Some s) = Some y ∧ (y = s ∨ y ∈ images))
  ∧ handleNextImage images None = None
  ∧ handlePreviousImage images None = None.
Proof.
  split_and!; [| |done|done].
  - unfold handleNextImage, currentIndex, findIndex.
    destruct (findIndex_from_range
                (λ img, bool_decide (ImageMetadata.id img = ImageMetadata.id s)) images 0)
      as [->|Hrange].
    + destruct (Z.ltb_spec (-1) (Z.of_nat (length images) - 1)) as [Hlt|_]; [|by eauto].
      simpl. change (-1 + 1) with (Z.of_nat 0). rewrite array_get_of_nat.
      destruct (lookup_lt_is_Some_2 images 0%nat) as [x Hx]; [lia|].
      exists x. split; [done|]. right. by apply list_elem_of_lookup_2 in Hx.
    + set (i := findIndex_from _ images 0) in *.
      destruct (Z.ltb_spec i (Z.of_nat (length images) - 1)) as [Hlt|_]; [|by eauto].
      replace (i + 1) with (Z.of_nat (Z.to_nat (i + 1))) by lia.
      rewrite array_get_of_nat.
      destruct (lookup_lt_is_Some_2 images (Z.to_nat (i + 1))) as [x Hx]; [lia|].
      exists x. split; [done|]. right. by apply list_elem_of_lookup_2 in Hx.
  - unfold handlePreviousImage, currentIndex, findIndex.
    destruct (findIndex_from_range
                (λ img, bool_decide (ImageMetadata.id img = ImageMetadata.id s)) images 0)
      as [->|Hrange]; [by eauto|].
    set (i := findIndex_from _ images 0) in *.
    destruct (Z.ltb_spec 0 i) as [Hlt|_]; [|by eauto].
    replace (i - 1) with (Z.of_nat (Z.to_nat (i - 1))) by lia.
    rewrite array_get_of_nat.
    destruct (lookup_lt_is_Some_2 images (Z.to_nat (i - 1))) as [x Hx]; [lia|].
    exists x. split; [done|]. right. by apply list_elem_of_lookup_2 in Hx.
Qed.

(** X20.  In a list with pairwise distinct ids, [next] moves from one image
    to the one after it and [previous] moves back, with the two arrows
    offered accordingly; the first image has no [previous] and the last no
    [next], and there the handlers keep the selection. *)
Theorem navigation_round_trip images (i : nat) s (s' : ImageMetadata.t) :
  NoDup (ImageMetadata.id <$> images) →
  images !! i = Some s → images !! S i = Some s' →
  handleNextImage images (Some s) = Some s'
  ∧ handlePreviousImage images (Some s') = Some s
  ∧ hasNext images (Some s) = true
  ∧ hasPrevious images (Some s') = true
  ∧ (i = 0%nat → hasPrevious images (Some s) = false
                 ∧ handlePreviousImage images (Some s) = Some s)
  ∧ (S (S i) = length images → hasNext images (Some s') = false
                               ∧ handleNextImage images (Some s') = Some s').
Proof.
  intros Hnd Hi Hsi.
  destruct (clicked_index images i s Hi) as (k & y & _ & _ & _ & Hk & Hfi).
  destruct (clicked_index images (S i) s' Hsi) as (k' & y' & _ & _ & _ & Hk' & Hfi').
  rewrite (Hk Hnd) in Hfi. rewrite (Hk' Hnd) in Hfi'.
  pose proof (lookup_lt_Some _ _ _ Hsi) as Hlen.
  unfold handleNextImage, handlePreviousImage, hasNext, hasPrevious,
    getCurrentImageIndex, currentIndex. rewrite Hfi, Hfi'. split_and!.
  - destruct (Z.ltb_spec (Z.of_nat i) (Z.of_nat (length images) - 1)); [|lia].
    replace (Z.of_nat i + 1) with (Z.of_nat (S i)) by lia. by rewrite array_get_of_nat.
  - destruct (Z.ltb_spec 0 (Z.of_nat (S i))); [|lia].
    replace (Z.of_nat (S i) - 1) with (Z.of_nat i) by lia. by rewrite array_get_of_nat.
  - apply Z.ltb_lt. lia.
  - apply Z.ltb_lt. lia.
  - intros ->. split; [by apply Z.ltb_ge|]. by destruct (Z.ltb_spec 0 (Z.of_nat 0)); [lia|].
  - intros Hlast. destruct (Z.ltb_spec (Z.of_nat (S i)) (Z.of_nat (length images) - 1));
      [lia|done].
Qed.

End NavigationMore.

Section BatchDownload.

Import BatchActions.

(** X21.  The batch download opens one url per image of the list whose id
    is selected, in the order of the list, each the download url of that
    image with the key of the session; ids in the selection that the list
    no longer holds make no difference, and after [selectAll()] it opens
    one url per image. *)
Theorem batch_download_skips_stale_ids (baseUrl : string) (apiKey : option string)
    (images : list ImageMetadata.t) (selected stale : gset string)
    (st : ImageSelection.state) :
  let url (img : ImageMetadata.t) :=
    baseUrl +:+ "/api/images/" +:+ ImageMetadata.id img +:+ "/download?api_key="
    +:+ default "null" apiKey in
  handleBatchDownload baseUrl apiKey images selected
  = url <$> filter (λ img, ImageMetadata.id img ∈ selected) images
  ∧ ((∀ img, img ∈ images → ImageMetadata.id img ∉ stale) →
     handleBatchDownload baseUrl apiKey images (selected ∪ stale)
     = handleBatchDownload baseUrl apiKey images selected
     ∧ handleBatchDownload baseUrl apiKey images stale = []
     ∧ handleBatchDownload baseUrl apiKey images
         (ImageSelection.selectedIds (ImageSelection.selectAll images st))
       = url <$> images).
Proof.
  intros url.
  assert (∀ sel, handleBatchDownload baseUrl apiKey images sel
                 = url <$> filter (λ img, ImageMetadata.id img ∈ sel) images) as Hurls.
  { intros sel. unfold handleBatchDownload, selectedImages.
    rewrite (array_filter_bool_decide (λ img, ImageMetadata.id img ∈ sel)).
    apply list_fmap_ext. intros i img _. unfold url, getDownloadUrl. by destruct apiKey. }
  split; [apply Hurls|]. intros Hstale. rewrite !Hurls. split_and!.
  - f_equal. apply filter_ext_in. intros img Himg. specialize (Hstale img Himg).
    set_solver.
  - rewrite (filter_ext_in _ (λ _, False)).
    + clear. induction images as [|x l IH]; [done|]. by rewrite filter_cons.
    + intros img Himg. by specialize (Hstale img Himg).
  - f_equal. rewrite (filter_ext_in _ (λ _, True)).
    + clear. induction images as [|x l IH]; [done|]. rewrite filter_cons. simpl.
      by f_equal.
    + intros img Himg. split; [done|]. intros _. simpl.
      apply elem_of_list_to_set, list_elem_of_fmap. by exists img.
Qed.

End BatchDownload.

(** ** The grid shows the whole history *)

Section GridComplete.

Import ImageGrid.

(** X22.  Filtering hides no artifact: the id of every record of the
    history is shown in the grid, by its own card or by the resolved
    placeholder that holds it. *)
Theorem every_artifact_is_shown (gen : list GeneratingImage.t)
    (completed : list ImageMetadata.t) :
  Forall (λ img, ImageMetadata.id img ∈ shown_artifacts (render gen completed)) completed.
Proof.
  apply Forall_forall. intros img Himg. rewrite shown_render. apply elem_of_app.
  destruct (some (shows img) gen) eqn:Hsome.
  - left. unfold some in Hsome. apply existsb_exists in Hsome as (g & Hg & Hshows).
    unfold shows in Hshows. apply andb_true_iff in Hshows as [Hst Hd].
    apply bool_decide_eq_true in Hst.
    destruct (GeneratingImage.imageData g) as [d|] eqn:Hdata; [|done].
    apply bool_decide_eq_true in Hd. apply elem_of_resolved_artifacts.
    exists g, d. split_and!; [by apply list_elem_of_In|done|done|done].
  - right. unfold historical_artifacts, filteredImages, array_filter.
    apply list_elem_of_fmap. exists img. split; [done|].
    apply list_elem_of_In, filter_In. split; [by apply list_elem_of_In|].
    by rewrite Hsome.
Qed.

End GridComplete.

(** ** The history pager *)

Section PagerBehaviour.

Import Pager.

Implicit Types (st : state) (answer : ∀ A, Api.request A → Async.result A).

(** X23.  The scroll handler fetches only when the end of the list is near,
    more images are expected and no fetch is under way; otherwise it makes
    no request and changes nothing. *)
Theorem scroll_is_gated (scrolledToBottom : bool) st answer :
  scrolledToBottom = false ∨ hasMoreImages st = false ∨ isLoadingMore st = true →
  Async.awaits answer (handleScroll scrolledToBottom st) = 0%nat
  ∧ Async.run answer (handleScroll scrolledToBottom st) st = (st, ()).
Proof.
  unfold handleScroll. intros [->|[->| ->]]; simpl; rewrite ?andb_false_r; done.
Qed.

(** X24.  When it does fetch, the scroll handler asks once, for the page
    after the current one.  An answer is appended to the images held, and
    more images are expected exactly when the answer has twenty of them; a
    failed fetch leaves the images and that expectation alone.  Either way
    the page counter has advanced by one and the loading flag is down
    again. *)
Theorem scroll_appends_next_page st answer :
  hasMoreImages st = true → isLoadingMore st = false →
  let t := handleScroll true st in
  let out := (Async.run answer t st).1 in
  Async.awaits answer t = 1%nat
  ∧ currentPage out = currentPage st + 1
  ∧ isLoadingMore out = false
  ∧ (∀ response,
       answer _ (Api.imageService_list (currentPage st + 1) 20) = Async.Fulfilled response →
       images out = (images st ++ Api.images response)%list
       ∧ hasMoreImages out = bool_decide (length (Api.images response) = 20%nat))
  ∧ (∀ reason,
       answer _ (Api.imageService_list (currentPage st + 1) 20) = Async.Rejected reason →
       images out = images st ∧ hasMoreImages out = hasMoreImages st).
Proof.
  intros Hmore Hloading. unfold handleScroll. rewrite Hmore, Hloading. simpl.
  destruct (answer _ (Api.imageService_list (currentPage st + 1) 20))
    as [response|reason] eqn:Hanswer; simpl.
  - split_and!; try done. intros response' [= <-]. done.
  - split_and!; try done.
Qed.


End PagerBehaviour.

(** ** Overrides from the settings panel to the submission *)

Section SettingsRoundTrip.

Import AdvancedSettings.

Implicit Types (fields overrides : list (string * Js.value)) (key : string)
  (value : Js.value).

Lemma some_key_false key fields :
  some (λ kv : string * Js.value, bool_decide (kv.1 = key)) fields = false →
  ∀ kv, kv ∈ fields → kv.1 ≠ key.
Proof.
  unfold some. intros Hnone kv Hkv Heq.
  assert (existsb (λ kv : string * Js.value, bool_decide (kv.1 = key)) fields = true)
    as Hsome; [|congruence].
  apply existsb_exists. exists kv. split; [by apply list_elem_of_In|].
  by apply bool_decide_eq_true.
Qed.

(** After [{ ...fields, [key]: value }] the property reads as [value]. *)
Lemma assoc_set_field key value fields :
  Js.assoc key (set_field key value fields) = value.
Proof.
  unfold set_field.
  destruct (some (λ kv, bool_decide (kv.1 = key)) fields) eqn:Hsome.
  - unfold some in Hsome. induction fields as [|[k v] l IH]; [done|].
    rewrite fmap_cons. simpl in *. case_bool_decide as Hk; simpl.
    + by rewrite bool_decide_true.
    + rewrite bool_decide_false by done. by apply IH.
  - pose proof (some_key_false _ _ Hsome) as Hkeys. clear Hsome.
    induction fields as [|[k v] l IH]; simpl.
    + by rewrite bool_decide_true.
    + rewrite bool_decide_false by (apply (Hkeys (k, v)); by left).
      apply IH. intros kv Hkv. apply Hkeys. by right.
Qed.

Lemma elem_of_set_field key value fields :
  (key, value) ∈ set_field key value fields
  ∧ ∀ v', (key, v') ∈ set_field key value fields → v' = value.
Proof.
  unfold set_field.
  destruct (some (λ kv, bool_decide (kv.1 = key)) fields) eqn:Hsome.
  - split.
    + unfold some in Hsome. apply existsb_exists in Hsome as (kv & Hkv & Hk).
      apply list_elem_of_fmap. exists kv. rewrite Hk. split; [done|].
      by apply list_elem_of_In.
    + intros v' Hin. apply list_elem_of_fmap in Hin as (kv & Heq & _).
      case_bool_decide as Hk; [by injection Heq|]. destruct kv. simpl in *. congruence.
  - pose proof (some_key_false _ _ Hsome) as Hkeys. split.
    + apply elem_of_app. right. by left.
    + intros v' [Hin|Hin]%elem_of_app.
      * by destruct (Hkeys _ Hin).
      * apply list_elem_of_singleton in Hin. congruence.
Qed.

Lemma assoc_delete_field key fields :
  Js.assoc key (delete_field key fields) = Js.Undefined.
Proof.
  unfold delete_field, array_filter. induction fields as [|[k v] l IH]; [done|].
  simpl. case_bool_decide as Hk; simpl; [done|]. by rewrite bool_decide_false.
Qed.

(** X25.  What the settings panel stores is what the submission sends.
    After [updateOverride(key, value)] for a workflow, with the store
    holding the JSON of the new state, the submission for that workflow
    sends an object in which [key] has that value and no other, when the
    value is neither the empty string nor [null] nor [undefined]; when the
    value is one of these (the field was cleared), nothing is sent under
    [key]. *)
Theorem override_reaches_submission (JSON_parse : string → option Js.value)
    overrides (workflow : string) key value (text : string) :
  workflow ≠ "" → text ≠ "" →
  JSON_parse text = Some (Js.Obj (updateOverride (Some workflow) key value overrides)) →
  let sent := LocalGeneration.read_overrideParams JSON_parse (Some text) workflow in
  (Js.non_empty value = true → key ≠ "__proto__" →
   ∃ kept, sent = Js.Obj kept ∧ (key, value) ∈ kept ∧ ∀ v', (key, v') ∈ kept → v' = value)
  ∧ (Js.non_empty value = false →
     ∀ kept v', sent = Js.Obj kept → (key, v') ∉ kept).
Proof.
  intros Hwf Htext Hparse.
  set (fields := set_field key value (currentOverrides overrides (Some workflow))).
  assert (LocalGeneration.read_overrideParams JSON_parse (Some text) workflow
          = LocalGeneration.transmitted fields) as Hread.
  { unfold LocalGeneration.read_overrideParams, LocalGeneration.transmitted.
    rewrite bool_decide_false, Hparse by done. unfold updateOverride. simpl.
    rewrite bool_decide_false by done. simpl. rewrite assoc_set_field. simpl.
    fold fields. by destruct (LocalGeneration.keep_overrides fields). }
  destruct (elem_of_set_field key value (currentOverrides overrides (Some workflow)))
    as [Hin Honly]. fold fields in Hin, Honly.
  cbv zeta. rewrite Hread. unfold LocalGeneration.transmitted. split.
  - intros Hvalue Hkey.
    assert ((key, value) ∈ LocalGeneration.keep_overrides fields) as Hkept.
    { unfold LocalGeneration.keep_overrides, array_filter.
      apply list_elem_of_In, filter_In. split; [by apply list_elem_of_In|]. simpl.
      by rewrite Hvalue, bool_decide_false. }
    destruct (LocalGeneration.keep_overrides fields) as [|kv kept] eqn:Hk.
    { by apply not_elem_of_nil in Hkept. }
    exists (kv :: kept). split_and!; [done|done|].
    intros v' Hv'. apply Honly. rewrite <- Hk in Hv'.
    unfold LocalGeneration.keep_overrides, array_filter in Hv'.
    apply list_elem_of_In, filter_In in Hv' as [Hv' _]. by apply list_elem_of_In.
  - intros Hvalue kept v' Hsent Hin'.
    destruct (LocalGeneration.keep_overrides fields) as [|kv kept0] eqn:Hk; [done|].
    injection Hsent as <-. rewrite <- Hk in Hin'.
    unfold LocalGeneration.keep_overrides, array_filter in Hin'.
    apply list_elem_of_In, filter_In in Hin' as [Hin' Hnon].
    apply list_elem_of_In in Hin'. rewrite (Honly _ Hin') in Hnon. simpl in Hnon.
    by rewrite Hvalue in Hnon.
Qed.

(** X26.  After [resetOverrides()] for a workflow, with the store holding
    the JSON of the new state, the submission for that workflow sends no
    overrides. *)
Theorem reset_reaches_submission (JSON_parse : string → option Js.value)
    overrides (workflow text : string) :
  workflow ≠ "" →
  JSON_parse text = Some (Js.Obj (resetOverrides (Some workflow) overrides)) →
  LocalGeneration.read_overrideParams JSON_parse (Some text) workflow = Js.Null.
Proof.
  intros Hwf Hparse. unfold LocalGeneration.read_overrideParams.
  case_bool_decide; [done|]. rewrite Hparse. unfold resetOverrides. simpl.
  rewrite bool_decide_false by done. simpl. by rewrite assoc_delete_field.
Qed.

End SettingsRoundTrip.

(** ** Credentials and logout *)

Section SessionBehaviour.

Import Session.

(** X27.  The key survives a reload and a cleared key does not: a service
    object constructed from the store after [setApiKey(key)] has that key,
    one constructed after [clearApiKey()] has none; neither call touches
    another entry of the store. *)
Theorem api_key_survives_reload (key : string) (w : world) :
  getApiKey (setApiKey key w) = Some key
  ∧ getApiKey (constructor (setApiKey key w).2) = Some key
  ∧ getApiKey (constructor (clearApiKey (setApiKey key w)).2) = None
  ∧ (∀ k, k ≠ "api_key" →
          (setApiKey key w).2 !! k = w.2 !! k ∧ (clearApiKey w).2 !! k = w.2 !! k).
Proof.
  unfold getApiKey, constructor, setApiKey, clearApiKey. simpl. split_and!.
  - done.
  - apply lookup_insert_eq.
  - apply lookup_delete_eq.
  - intros k Hk. by rewrite lookup_insert_ne, lookup_delete_ne.
Qed.

End SessionBehaviour.

Section LogoutBehaviour.

Import LocalStorageSync Logout.

Variable JSON_stringify : Js.value → string.
Variable stringify_jobs : list GeneratingImage.t → string.

Lemma Object_is_Null (v : Js.value) : Object_is Js.Null v = true ↔ v = Js.Null.
Proof. by destruct v. Qed.

(** The undebounced effect of a mounted cell, due or not. *)
Lemma step_Effect_due {T} `{!ObjectIs T} (store : T → string) (key : string)
    (w : @world T) :
  effect_due w.1 = true → isInitialMount w.1 = false →
  step store key None w Effect
  = (Hook (value w.1) false None false, <[key := store (value w.1)]> w.2).
Proof. intros Hdue Hmount. unfold step, effect. by rewrite Hdue, Hmount. Qed.

Lemma step_Effect_idle {T} `{!ObjectIs T} (store : T → string) (key : string)
    (w : @world T) :
  effect_due w.1 = false → step store key None w Effect = w.
Proof. intros Hdue. unfold step. by rewrite Hdue. Qed.

(** X28.  Logout, with the effects of the render that follows, leaves no
    key in the service and none in the store, no placeholder, no image and
    no banner, the selected workflow [null] and the prompt empty.  The
    store then holds the empty placeholder list; it holds [null] for the
    workflow and the empty text for the prompt when the cell held another
    value, and is left as it was under that key when the cell held that
    value already, the update being skipped.  The channel map is empty and
    every socket it held is closing; the timers armed before are still
    armed, and when one of them fires the placeholder list stays empty. *)
Theorem logout_clears_job_tracking (s : app) :
  isInitialMount (selectedWorkflow s) = false →
  isInitialMount (prompt s) = false →
  isInitialMount (generatingImages s) = false →
  let s' := effects JSON_stringify stringify_jobs (handleLogout s) in
  let localStorage := (apiService s).2 in
  let localStorage' := (apiService s').2 in
  Session.getApiKey (apiService s') = None
  ∧ localStorage' !! "api_key" = None
  ∧ value (generatingImages s') = []
  ∧ images s' = []
  ∧ error s' = None
  ∧ value (selectedWorkflow s') = Js.Null
  ∧ value (prompt s') = Js.Str ""
  ∧ localStorage' !! "generatingImages" = Some (stringify_jobs [])
  ∧ (value (selectedWorkflow s) ≠ Js.Null →
     localStorage' !! "lastSelectedWorkflow" = Some (JSON_stringify Js.Null))
  ∧ (value (selectedWorkflow s) = Js.Null → effect_due (selectedWorkflow s) = false →
     localStorage' !! "lastSelectedWorkflow" = localStorage !! "lastSelectedWorkflow")
  ∧ (value (prompt s) ≠ Js.Str "" → localStorage' !! "lastPrompt" = Some "")
  ∧ (value (prompt s) = Js.Str "" → effect_due (prompt s) = false →
     localStorage' !! "lastPrompt" = localStorage !! "lastPrompt")
  ∧ WebSocketManager.wsMap (wsManager s') = ∅
  ∧ (∀ p h st, WebSocketManager.wsMap (wsManager s) !! p = Some h →
               WebSocketManager.readyState_of (wsManager s') h = Some st →
               Closing.live st = false)
  ∧ timers s' = timers s
  ∧ (∀ i, value (generatingImages (timer_fires i s')) = []).
Proof.
  intros Hworkflow Hprompt Hjobs.
  destruct s as [[key store] workflow text jobs imgs err tms m]. simpl in *.
  unfold handleLogout, effects. cbn [apiService selectedWorkflow prompt generatingImages
    images error timers wsManager fst snd Session.clearApiKey].
  set (store0 := delete "api_key" store).
  (* the placeholder list: a new array, always written *)
  assert (setValue (λ _, []) (jobs, store0)
          = (Hook [] (isInitialMount jobs) (debounceTimer jobs) true, store0)) as Ejobs.
  { done. }
  rewrite Ejobs. cbn [fst snd].
  (* the two texts: written when the value differs *)
  assert (∃ w, setValue (λ _, Js.Null) (workflow, store0) = (w, store0)
               ∧ value w = Js.Null ∧ isInitialMount w = false
               ∧ (value workflow ≠ Js.Null → effect_due w = true)
               ∧ (value workflow = Js.Null → effect_due workflow = false → w = workflow))
    as (w1 & Ew1 & Hv1 & Hm1 & Hnew1 & Hsame1).
  { unfold setValue. cbn [fst snd].
    destruct (Object_is Js.Null (value workflow)) eqn:His.
    - apply Object_is_Null in His. exists workflow. by split_and!.
    - eexists. split; [reflexivity|]. split_and!; try done.
      intros Heq. apply Object_is_Null in Heq. congruence. }
  rewrite Ew1. cbn [fst snd].
  assert (∃ w, setValue (λ _, Js.Str "") (text, store0) = (w, store0)
               ∧ value w = Js.Str "" ∧ isInitialMount w = false
               ∧ (value text ≠ Js.Str "" → effect_due w = true)
               ∧ (value text = Js.Str "" → effect_due text = false → w = text))
    as (w2 & Ew2 & Hv2 & Hm2 & Hnew2 & Hsame2).
  { unfold setValue. cbn [fst snd].
    destruct (Object_is (Js.Str "") (value text)) eqn:His.
    - apply Object_is_Str in His. exists text. by split_and!.
    - eexists. split; [reflexivity|]. split_and!; try done.
      intros Heq. apply (Object_is_Str "") in Heq. congruence. }
  rewrite Ew2. cbn [fst snd].
  (* the effects *)
  set (e1 := step (StoredText.store JSON_stringify) "lastSelectedWorkflow" None
               (w1, store0) Effect).
  assert (value e1.1 = Js.Null ∧ e1.2 !! "api_key" = None
          ∧ (value workflow ≠ Js.Null →
             e1.2 !! "lastSelectedWorkflow" = Some (JSON_stringify Js.Null))
          ∧ (value workflow = Js.Null → effect_due workflow = false →
             e1.2 !! "lastSelectedWorkflow" = store !! "lastSelectedWorkflow")
          ∧ (∀ k, k ≠ "lastSelectedWorkflow" → e1.2 !! k = store0 !! k))
    as (He1v & He1k & He1new & He1same & He1other).
  { unfold e1. destruct (effect_due w1) eqn:Hdue.
    - rewrite step_Effect_due by done. cbn [fst snd]. rewrite Hv1.
      split_and!; try done.
      + rewrite lookup_insert_ne by done. apply lookup_delete_eq.
      + intros _. apply lookup_insert_eq.
      + intros Heq Hidle. rewrite (Hsame1 Heq Hidle) in Hdue. congruence.
      + intros k Hk. by rewrite lookup_insert_ne.
    - rewrite step_Effect_idle by done. cbn [fst snd]. split_and!; try done.
      + apply lookup_delete_eq.
      + intros Hne. discriminate (Hnew1 Hne).
      + intros _ _. unfold store0. by rewrite lookup_delete_ne. }
  set (e2 := step (StoredText.store JSON_stringify) "lastPrompt" None (w2, e1.2) Effect).
  assert (value e2.1 = Js.Str ""
          ∧ (value text ≠ Js.Str "" → e2.2 !! "lastPrompt" = Some "")
          ∧ (value text = Js.Str "" → effect_due text = false →
             e2.2 !! "lastPrompt" = store !! "lastPrompt")
          ∧ (∀ k, k ≠ "lastPrompt" → e2.2 !! k = e1.2 !! k))
    as (He2v & He2new & He2same & He2other).
  { unfold e2. destruct (effect_due w2) eqn:Hdue.
    - rewrite step_Effect_due by done. cbn [fst snd]. rewrite Hv2.
      split_and!; try done.
      + intros _. apply lookup_insert_eq.
      + intros Heq Hidle. rewrite (Hsame2 Heq Hidle) in Hdue. congruence.
      + intros k Hk. by rewrite lookup_insert_ne.
    - rewrite step_Effect_idle by done. cbn [fst snd]. split_and!; try done.
      + intros Hne. discriminate (Hnew2 Hne).
      + intros _ _. rewrite He1other by done. unfold store0. by rewrite lookup_delete_ne. }
  rewrite (step_Effect_due stringify_jobs "generatingImages"
             (Hook [] (isInitialMount jobs) (debounceTimer jobs) true, e2.2)) by done.
  cbn [fst snd value apiService selectedWorkflow prompt generatingImages images error
       timers wsManager Session.getApiKey].
  split_and!; try done.
  - rewrite lookup_insert_ne by done. rewrite He2other by done. exact He1k.
  - apply lookup_insert_eq.
  - intros Hne. rewrite lookup_insert_ne by done. rewrite He2other by done.
    by apply He1new.
  - intros Heq Hidle. rewrite lookup_insert_ne by done. rewrite He2other by done.
    by apply He1same.
  - intros Hne. rewrite lookup_insert_ne by done. by apply He2new.
  - intros Heq Hidle. rewrite lookup_insert_ne by done. by apply He2same.
  - intros p h st Hp Hst.
    change (WebSocketManager.readyState_of
              (foldr (λ kv acc, WebSocketManager.ws_close kv.2 acc) m
                 (map_to_list (WebSocketManager.wsMap m))) h = Some st) in Hst.
    rewrite close_all_states in Hst. rewrite decide_True in Hst.
    2:{ apply list_elem_of_fmap. exists (p, h). split; [done|].
        by apply elem_of_map_to_list. }
    destruct (WebSocketManager.readyState_of m h) as [s0|]; [|done].
    injection Hst as <-. apply closed_by_close_not_live.
  - intros i. unfold timer_fires.
    cbn [timers generatingImages apiService fst snd].
    destruct (tms !! i) as [[ms [id]]|]; cbn [generatingImages fst snd];
      rewrite ?(step_Effect_due stringify_jobs "generatingImages"
                  (Hook [] (isInitialMount jobs) (debounceTimer jobs) true, e2.2))
        by done;
      reflexivity.
Qed.

End LogoutBehaviour.

(** ** The handshake of a new channel *)

Section Handshake.

Import WebSocketManager.

Lemma opened_then_monitor (JSON_parse : string → option Js.value)
    (p w pr : string) (o : Js.value) (h : nat) (m : manager) :
  sockets m !! h = Some (Socket p w pr o CONNECTING) →
  let m' := run JSON_parse m [Opened h; MonitorDue h] in
  sent m' = (sent m ++ [(h, auth); (h, monitor p w pr o)])%list
  ∧ calls m' = calls m
  ∧ readyState_of m' h = Some OPEN
  ∧ wsMap m' = wsMap m.
Proof.
  intros Hh. cbv zeta.
  assert (sockets (onopen h (set_state h OPEN m)) !! h = Some (Socket p w pr o OPEN))
    as Hopen.
  { unfold onopen, send, set_state. simpl. by rewrite list_lookup_alter_eq, Hh. }
  assert (step JSON_parse m (Opened h) = onopen h (set_state h OPEN m)) as H1.
  { unfold step, readyState_of. by rewrite Hh. }
  assert (step JSON_parse (onopen h (set_state h OPEN m)) (MonitorDue h)
          = send h (monitor p w pr o) (onopen h (set_state h OPEN m))) as H2.
  { unfold step, readyState_of, monitor_due. by rewrite Hopen. }
  change (run JSON_parse m [Opened h; MonitorDue h])
    with (step JSON_parse (step JSON_parse m (Opened h)) (MonitorDue h)).
  rewrite H1, H2. unfold readyState_of.
  change (sockets (send h (monitor p w pr o) (onopen h (set_state h OPEN m))))
    with (sockets (onopen h (set_state h OPEN m))).
  rewrite Hopen. simpl. by rewrite <- app_assoc.
Qed.

(** X29.  The handshake of a channel: once the socket that [connect]
    created has opened and the timer of 100 ms has fired, the socket has
    been sent two frames, first [auth] and then [monitor] with the job id,
    the workflow, the prompt and the overrides that [connect] was given;
    no callback was invoked on the way, the socket is open and the map
    holds it under the job id. *)
Theorem handshake_sends_auth_then_monitor (JSON_parse : string → option Js.value)
    (p w pr : string) (o : Js.value) (m : manager) :
  let h := length (sockets m) in
  let m' := run JSON_parse m [Connect p w pr o; Opened h; MonitorDue h] in
  sent m' = (sent m ++ [(h, auth); (h, monitor p w pr o)])%list
  ∧ calls m' = calls m
  ∧ readyState_of m' h = Some OPEN
  ∧ wsMap m' !! p = Some h.
Proof.
  destruct (connect_new_socket p w pr o m) as (Hnew & Hsent & Hcalls & Hmap).
  destruct (opened_then_monitor JSON_parse p w pr o _ _ Hnew)
    as (Hsent' & Hcalls' & Hstate & Hmap').
  cbv zeta.
  change (run JSON_parse m [Connect p w pr o; Opened (length (sockets m));
                            MonitorDue (length (sockets m))])
    with (run JSON_parse (connect p w pr o m)
            [Opened (length (sockets m)); MonitorDue (length (sockets m))]).
  rewrite Hsent', Hcalls', Hmap', Hsent, Hcalls. done.
Qed.

End Handshake.

(** ** Instances of the further properties *)

(** With the interface in Chinese, and a prompt of three kinds of space. *)
Lemma validation_makes_no_request_witness :
  let remote := GoogleAIGeneration.GenerateParams_ MoreExamples.blank_prompt
                  "gemini-2.5-flash-image" "1:1" None in
  let st := Examples.empty_state in
  let m := WebSocketManager.empty in
  (let task := App.localGeneration_generate Examples.JSON_parse [] ∅ 1000
                 (LocalGeneration.GenerateParams_ "" "sunset" None) in
   Async.awaits Examples.network_down task = 0%nat
   ∧ Async.run Examples.network_down task st
     = (App.setError (Some "Please select a workflow") st, None))
  ∧ (∀ selected, selected = None ∨ selected = Some "" →
       let task := App.handleGenerate_local (t := Locales.zh) Examples.JSON_parse []
                     selected "sunset" None ∅ ∅ 1000 in
       Async.awaits Examples.network_down task = 0%nat
       ∧ Async.run Examples.network_down task (st, m)
         = ((App.setError (Some "生成失败: Please select a workflow") st, m), ()))
  ∧ (let task := App.googleGeneration_generate Examples.trim [] None 1000 "k3x9q0z1a"
                   remote in
     Async.awaits Examples.network_down task = 0%nat
     ∧ Async.run Examples.network_down task st
       = (App.setError (Some "Please enter a prompt") st, ())).
Proof.
  apply (validation_makes_no_request (t := Locales.zh) Examples.JSON_parse Examples.trim
           [] [] ∅ 1000 "k3x9q0z1a" "sunset" None None
           (GoogleAIGeneration.GenerateParams_ MoreExamples.blank_prompt
              "gemini-2.5-flash-image" "1:1" None)
           Examples.network_down Examples.empty_state WebSocketManager.empty).
  vm_compute. reflexivity.
Defined.

Lemma accepted_submit_tracks_and_connects_witness :
  let w : App.world := (Examples.empty_state, WebSocketManager.empty) in
  let req := Api.GenerationRequest_ "wf" "sunset" Js.Null true None in
  let response := Api.GenerationResponse_ "job-7" "queued" None in
  let handler := App.handleGenerate_local (t := Locales.en) Examples.JSON_parse []
                   (Some "wf") "sunset" None ∅ ∅ 1000 in
  let out := (Async.run MoreExamples.accepting handler w).1 in
  Async.awaits MoreExamples.accepting handler = 1%nat
  ∧ Api.workflow_id req = "wf" ∧ Api.prompt req = "sunset"
  ∧ Api.save_to_disk req = true
  ∧ (∃ g, App.generatingImages out.1 = g :: App.generatingImages w.1
          ∧ GeneratingImage.id g = Api.prompt_id response
          ∧ GeneratingImage.status g = "queued"
          ∧ GeneratingImage.progress g = 0
          ∧ GeneratingImage.prompt g = "sunset"
          ∧ GeneratingImage.timestamp g = Some 1000
          ∧ GeneratingImage.imageData g = None)
  ∧ App.error out.1 = App.error w.1
  ∧ (Api.prompt_id response ≠ "" →
     WebSocketManager.wsMap out.2 !! Api.prompt_id response
     = Some (length (WebSocketManager.sockets w.2))
     ∧ ∃ o, WebSocketManager.sockets out.2 !! length (WebSocketManager.sockets w.2)
            = Some (WebSocketManager.Socket (Api.prompt_id response) "wf" "sunset" o
                      WebSocketManager.CONNECTING))
  ∧ (Api.prompt_id response = "" → out.2 = w.2).
Proof.
  apply (accepted_submit_tracks_and_connects Examples.JSON_parse [] "wf" "sunset" None ∅
           1000 MoreExamples.accepting (Examples.empty_state, WebSocketManager.empty)
           (Api.GenerationRequest_ "wf" "sunset" Js.Null true None)
           (Api.GenerationResponse_ "job-7" "queued" None)).
  - discriminate.
  - vm_compute. reflexivity.
  - reflexivity.
  - discriminate.
Defined.

(** A remote job started while two local jobs are tracked. *)
Lemma remote_success_is_reconciled_witness :
  let answer := MoreExamples.remote_ok [Examples.image "a" 60] in
  let st := MoreExamples.two_jobs in
  let response := Api.GoogleAIGenerateResponse_ "success" "ok" (Some "a") in
  let tempId := "google_" +:+ pretty 1000 +:+ "_" +:+ "k3x9q0z1a" in
  let placeholder (status : string) (imageData : option ImageMetadata.t) :=
    GeneratingImage.Build tempId (GoogleAIGeneration.prompt Examples.remote_params)
      "google_ai"
      (GoogleAIGeneration.modelName [] (GoogleAIGeneration.model Examples.remote_params))
      status 0 Js.Undefined (Some 1000) imageData in
  let task := App.googleGeneration_generate Examples.trim [] None 1000 "k3x9q0z1a"
                Examples.remote_params in
  let out := (Async.run answer task st).1 in
  Async.awaits answer task = 2%nat
  ∧ length (App.generatingImages out) = S (length (App.generatingImages st))
  ∧ (∀ i g, App.generatingImages st !! i = Some g → GeneratingImage.id g ≠ tempId →
            App.generatingImages out !! S i = Some g)
  ∧ App.error out = App.error st
  ∧ (∀ page newImage,
       answer _ (Api.imageService_list 1 50) = Async.Fulfilled page →
       find (λ img, bool_decide (Some (ImageMetadata.id img) = Api.image_id response))
         (Api.images page) = Some newImage →
       App.generatingImages out !! 0%nat = Some (placeholder "completed" (Some newImage))
       ∧ App.images out ≡ₚ newImage :: App.images st
       ∧ StronglySorted (λ a b, ImageMetadata.created_at b ≤ ImageMetadata.created_at a)
           (App.images out)
       ∧ App.timers out = (App.timers st ++ [(5000, App.RemoveGenerating tempId)])%list)
  ∧ ((∃ reason, answer _ (Api.imageService_list 1 50) = Async.Rejected reason)
     ∨ (∃ page, answer _ (Api.imageService_list 1 50) = Async.Fulfilled page
                ∧ find (λ img, bool_decide
                                 (Some (ImageMetadata.id img) = Api.image_id response))
                    (Api.images page) = None) →
     App.generatingImages out !! 0%nat = Some (placeholder "failed" None)
     ∧ App.images out = App.images st
     ∧ App.timers out = (App.timers st ++ [(2000, App.RemoveGenerating tempId)])%list).
Proof.
  apply (remote_success_is_reconciled Examples.trim [] None 1000 "k3x9q0z1a"
           Examples.remote_params
           (MoreExamples.remote_ok [Examples.image "a" 60]) MoreExamples.two_jobs
           (Api.GoogleAIGenerateRequest_ "sunset" "gemini-2.5-flash-image" "1:1" None None)
           (Api.GoogleAIGenerateResponse_ "success" "ok" (Some "a"))).
  - vm_compute. discriminate.
  - reflexivity.
  - reflexivity.
  - discriminate.
Defined.

(** That job resolved: the three placeholders and the history. *)
Lemma remote_success_example :
  let answer := MoreExamples.remote_ok [Examples.image "a" 60] in
  let task := App.googleGeneration_generate Examples.trim [] None 1000 "k3x9q0z1a"
                Examples.remote_params in
  let out := (Async.run answer task MoreExamples.two_jobs).1 in
  App.generatingImages out
  = [GeneratingImage.Build "google_1000_k3x9q0z1a" "sunset" "google_ai" "Google"
       "completed" 0 Js.Undefined (Some 1000) (Some (Examples.image "a" 60));
     Examples.job "job-1" "processing" (Some 1000);
     Examples.job "job-2" "queued" (Some 2000)]
  ∧ App.images out = [Examples.image "a" 60; Examples.image "b" 50; Examples.image "c" 40].
Proof. vm_compute. done. Qed.

Lemma shift_click_only_adds_witness :
  let st := ImageSelection.State {["a"]} (Some 0) in
  let s' := ImageSelection.State ({["c"]} ∪ ({["b"]} ∪ ({["a"]} ∪ {["a"]}))) (Some 2) in
  ImageSelection.selectedIds st ⊆ ImageSelection.selectedIds s'
  ∧ (∀ x, x ∈ ImageSelection.selectedIds s' →
          x ∈ ImageSelection.selectedIds st
          ∨ ∃ img, img ∈ Examples.six_images ∧ ImageMetadata.id img = x)
  ∧ (ImageSelection.lastClickedIndex st = None →
     ImageSelection.selectedIds s' = ImageSelection.selectedIds st)
  ∧ ImageSelection.lastClickedIndex s'
    = Some (findIndex (λ img, bool_decide (ImageMetadata.id img = "c")) Examples.six_images).
Proof.
  apply (shift_click_only_adds Examples.six_images "c"
           (ImageSelection.State {["a"]} (Some 0))
           (ImageSelection.State ({["c"]} ∪ ({["b"]} ∪ ({["a"]} ∪ {["a"]}))) (Some 2))).
  reflexivity.
Defined.

Lemma navigation_round_trip_witness :
  let images := Examples.six_images in
  let s := Examples.image "c" 40 in
  let s' := Examples.image "d" 30 in
  Navigation.handleNextImage images (Some s) = Some s'
  ∧ Navigation.handlePreviousImage images (Some s') = Some s
  ∧ Navigation.hasNext images (Some s) = true
  ∧ Navigation.hasPrevious images (Some s') = true
  ∧ (2%nat = 0%nat → Navigation.hasPrevious images (Some s) = false
                     ∧ Navigation.handlePreviousImage images (Some s) = Some s)
  ∧ (4%nat = length images → Navigation.hasNext images (Some s') = false
                             ∧ Navigation.handleNextImage images (Some s') = Some s').
Proof.
  apply (navigation_round_trip Examples.six_images 2 (Examples.image "c" 40)
           (Examples.image "d" 30)).
  - apply (bool_decide_unpack (NoDup (ImageMetadata.id <$> Examples.six_images))).
    vm_compute. exact I.
  - reflexivity.
  - reflexivity.
Defined.

(** Two of six images are selected, and an id that the list does not
    hold. *)
Lemma batch_download_skips_stale_ids_witness :
  let images := Examples.six_images in
  let selected : gset string := {["a"; "e"]} in
  let stale : gset string := {["zzz"]} in
  let url (img : ImageMetadata.t) :=
    "http://localhost:3000" +:+ "/api/images/" +:+ ImageMetadata.id img
    +:+ "/download?api_key=" +:+ "key" in
  BatchActions.handleBatchDownload "http://localhost:3000" (Some "key") images selected
  = url <$> filter (λ img, ImageMetadata.id img ∈ selected) images
  ∧ BatchActions.handleBatchDownload "http://localhost:3000" (Some "key") images
      (selected ∪ stale)
    = BatchActions.handleBatchDownload "http://localhost:3000" (Some "key") images selected
  ∧ BatchActions.handleBatchDownload "http://localhost:3000" (Some "key") images stale = []
  ∧ BatchActions.handleBatchDownload "http://localhost:3000" (Some "key") images
      (ImageSelection.selectedIds
         (ImageSelection.selectAll images Examples.nothing_selected))
    = url <$> images.
Proof.
  destruct (batch_download_skips_stale_ids "http://localhost:3000" (Some "key")
              Examples.six_images {["a"; "e"]} {["zzz"]} Examples.nothing_selected)
    as [Hurls Hstale].
  split; [exact Hurls|]. apply Hstale.
  apply Forall_forall. repeat constructor; simpl; set_solver.
Defined.

(** The two urls opened for that selection. *)
Lemma batch_download_example :
  BatchActions.handleBatchDownload "http://localhost:3000" (Some "key")
    Examples.six_images {["a"; "e"; "zzz"]}
  = ["http://localhost:3000/api/images/a/download?api_key=key";
     "http://localhost:3000/api/images/e/download?api_key=key"].
Proof. vm_compute. reflexivity. Qed.

Lemma scroll_is_gated_witness :
  let st := Pager.setIsLoadingMore true MoreExamples.after_first_page in
  Async.awaits MoreExamples.short_page (Pager.handleScroll true st) = 0%nat
  ∧ Async.run MoreExamples.short_page (Pager.handleScroll true st) st = (st, ()).
Proof.
  apply (scroll_is_gated true (Pager.setIsLoadingMore true MoreExamples.after_first_page)
           MoreExamples.short_page).
  right. right. reflexivity.
Defined.

Lemma scroll_appends_next_page_witness :
  let st := MoreExamples.after_first_page in
  let answer := MoreExamples.short_page in
  let t := Pager.handleScroll true st in
  let out := (Async.run answer t st).1 in
  Async.awaits answer t = 1%nat
  ∧ Pager.currentPage out = Pager.currentPage st + 1
  ∧ Pager.isLoadingMore out = false
  ∧ (∀ response,
       answer _ (Api.imageService_list (Pager.currentPage st + 1) 20)
       = Async.Fulfilled response →
       Pager.images out = (Pager.images st ++ Api.images response)%list
       ∧ Pager.hasMoreImages out = bool_decide (length (Api.images response) = 20%nat))
  ∧ (∀ reason,
       answer _ (Api.imageService_list (Pager.currentPage st + 1) 20)
       = Async.Rejected reason →
       Pager.images out = Pager.images st
       ∧ Pager.hasMoreImages out = Pager.hasMoreImages st).
Proof.
  apply (scroll_appends_next_page MoreExamples.after_first_page MoreExamples.short_page);
    reflexivity.
Defined.

Lemma override_reaches_submission_witness :
  let sent := LocalGeneration.read_overrideParams Examples.JSON_parse
                (Some Examples.overrides_text) "wf" in
  (Js.non_empty (Js.Num 30 0) = true → "steps" ≠ "__proto__" →
   ∃ kept, sent = Js.Obj kept ∧ ("steps", Js.Num 30 0) ∈ kept
           ∧ ∀ v', ("steps", v') ∈ kept → v' = Js.Num 30 0)
  ∧ (Js.non_empty (Js.Num 30 0) = false →
     ∀ kept v', sent = Js.Obj kept → ("steps", v') ∉ kept).
Proof.
  apply (override_reaches_submission Examples.JSON_parse MoreExamples.overrides_before
           "wf" "steps" (Js.Num 30 0) Examples.overrides_text).
  - discriminate.
  - vm_compute. discriminate.
  - vm_compute. reflexivity.
Defined.

Lemma reset_reaches_submission_witness :
  LocalGeneration.read_overrideParams Examples.JSON_parse
    (Some Examples.overrides_text) "other" = Js.Null.
Proof.
  apply (reset_reaches_submission Examples.JSON_parse
           [("wf", Js.Obj [("steps", Js.Num 30 0); ("seed", Js.Str "");
                           ("sampler", Js.Null)]);
            ("other", Js.Obj [("steps", Js.Num 5 0)])]
           "other" Examples.overrides_text).
  - discriminate.
  - vm_compute. reflexivity.
Defined.

(** Logout from the session of [MoreExamples.logged_in]. *)
Lemma logout_clears_job_tracking_witness :
  let s := MoreExamples.logged_in in
  let s' := Logout.effects MoreExamples.JSON_stringify Examples.store
              (Logout.handleLogout s) in
  let localStorage := (Logout.apiService s).2 in
  let localStorage' := (Logout.apiService s').2 in
  Session.getApiKey (Logout.apiService s') = None
  ∧ localStorage' !! "api_key" = None
  ∧ LocalStorageSync.value (Logout.generatingImages s') = []
  ∧ Logout.images s' = []
  ∧ Logout.error s' = None
  ∧ LocalStorageSync.value (Logout.selectedWorkflow s') = Js.Null
  ∧ LocalStorageSync.value (Logout.prompt s') = Js.Str ""
  ∧ localStorage' !! "generatingImages" = Some (Examples.store [])
  ∧ (LocalStorageSync.value (Logout.selectedWorkflow s) ≠ Js.Null →
     localStorage' !! "lastSelectedWorkflow" = Some (MoreExamples.JSON_stringify Js.Null))
  ∧ (LocalStorageSync.value (Logout.selectedWorkflow s) = Js.Null →
     LocalStorageSync.effect_due (Logout.selectedWorkflow s) = false →
     localStorage' !! "lastSelectedWorkflow" = localStorage !! "lastSelectedWorkflow")
  ∧ (LocalStorageSync.value (Logout.prompt s) ≠ Js.Str "" →
     localStorage' !! "lastPrompt" = Some "")
  ∧ (LocalStorageSync.value (Logout.prompt s) = Js.Str "" →
     LocalStorageSync.effect_due (Logout.prompt s) = false →
     localStorage' !! "lastPrompt" = localStorage !! "lastPrompt")
  ∧ WebSocketManager.wsMap (Logout.wsManager s') = ∅
  ∧ (∀ p h st, WebSocketManager.wsMap (Logout.wsManager s) !! p = Some h →
               WebSocketManager.readyState_of (Logout.wsManager s') h = Some st →
               Closing.live st = false)
  ∧ Logout.timers s' = Logout.timers s
  ∧ (∀ i, LocalStorageSync.value (Logout.generatingImages (Logout.timer_fires i s')) = []).
Proof.
  apply (logout_clears_job_tracking MoreExamples.JSON_stringify Examples.store
           MoreExamples.logged_in); reflexivity.
Defined.

(** What the store holds after that logout. *)
Lemma logout_example :
  let s' := Logout.effects MoreExamples.JSON_stringify Examples.store
              (Logout.handleLogout MoreExamples.logged_in) in
  (Logout.apiService s').2 !! "api_key" = None
  ∧ (Logout.apiService s').2 !! "lastSelectedWorkflow" = Some "null"
  ∧ (Logout.apiService s').2 !! "lastPrompt" = Some ""
  ∧ (Logout.apiService s').2 !! "generatingImages" = Some "".
Proof. by vm_compute. Qed.
